(** * The chat route of ai-chatbot-supabase: message codec, POST and DELETE
    handlers, and the tools they register

    The development follows the chat API route handler: [getUser],
    [formatMessageContent], [POST] with the four tools it hands to
    [streamText], and [DELETE].  Pure helpers are plain functions; the
    handlers run in a state-and-exception monad over the tables of the
    relational store, the UUID generator, the [StreamData] object, the
    counters of the generation loop and a journal of the effects in the
    order in which they take place.  The tools of one round run together:
    each is also given as a task cut at its [await]s, and the tasks of a
    round take their turns in an order that the world supplies.  Functions
    the route imports from files that are not part of the sources are
    either fields of [World] or modelled from the specification, and say
    so. *)

From Stdlib Require Import String Ascii List NArith Bool Arith Lia DecimalString.
Import ListNotations.
Open Scope string_scope.

Set Implicit Arguments.
Set Warnings "-register-all".

(** ** JSON values and [JSON.stringify]

    Values are finite trees (what [JSON.parse] yields and what a tool can
    return without cycles).  A number is finite and is kept as the text
    that [JSON.stringify] prints for it ([21], [-0.5], [52.52], [1e+21]),
    so that fractions and exponents need no arithmetic.  The fields of an
    object are listed in the order in which JavaScript enumerates its
    properties: integer-like keys first, in ascending order, then the other
    keys in the order of their creation; a key occurs once.  Strings are
    sequences of bytes (well-formed text in UTF-8). *)

Inductive json : Type :=
| JNull
| JBool (b : bool)
| JNumber (text : string)
| JString (s : string)
| JArray (elements : list json)
| JObject (fields : list (string * json)).

Definition chr (n : nat) : string := String (ascii_of_nat n) EmptyString.

Definition dquote : string := chr 34.
Definition backslash : string := chr 92.

Definition hex_digit (n : nat) : string :=
  match n with
  | 0 => "0" | 1 => "1" | 2 => "2" | 3 => "3" | 4 => "4" | 5 => "5"
  | 6 => "6" | 7 => "7" | 8 => "8" | 9 => "9" | 10 => "a" | 11 => "b"
  | 12 => "c" | 13 => "d" | 14 => "e" | _ => "f"
  end.

(** One character of a string literal, as [JSON.stringify] quotes it. *)
Definition escape_char (c : ascii) : string :=
  let n := nat_of_ascii c in
  if Nat.eqb n 34 then backslash ++ dquote
  else if Nat.eqb n 92 then backslash ++ backslash
  else if Nat.eqb n 8 then backslash ++ "b"
  else if Nat.eqb n 9 then backslash ++ "t"
  else if Nat.eqb n 10 then backslash ++ "n"
  else if Nat.eqb n 12 then backslash ++ "f"
  else if Nat.eqb n 13 then backslash ++ "r"
  else if Nat.ltb n 32
       then backslash ++ "u00" ++ hex_digit (n / 16) ++ hex_digit (n mod 16)
  else String c EmptyString.

Fixpoint escape (s : string) : string :=
  match s with
  | EmptyString => EmptyString
  | String c rest => escape_char c ++ escape rest
  end.

Definition quote (s : string) : string := dquote ++ escape s ++ dquote.

Fixpoint join (sep : string) (l : list string) : string :=
  match l with
  | [] => ""
  | [x] => x
  | x :: rest => x ++ sep ++ join sep rest
  end.

Fixpoint JSON_stringify (v : json) : string :=
  match v with
  | JNull => "null"
  | JBool true => "true"
  | JBool false => "false"
  | JNumber text => text
  | JString s => quote s
  | JArray elements => "[" ++ join "," (map JSON_stringify elements) ++ "]"
  | JObject fields =>
      "{" ++ join "," (map (fun kv => quote (fst kv) ++ ":" ++ JSON_stringify (snd kv)) fields) ++ "}"
  end.

(** ** Core messages (the [CoreMessage] union of the AI SDK) *)

Inductive UserContent : Type :=
| UserText (text : string)
| UserParts (parts : list json).

(** A part of a tool message.  [type] is optional here because the codec
    reads it through [content.type || 'tool-result']. *)
Record ToolResultPart : Type := {
  trp_type : option string;
  trp_toolCallId : string;
  trp_toolName : string;
  trp_result : json
}.

Inductive AssistantPart : Type :=
| TextPart (text : string)
| ToolCallPart (toolCallId toolName : string) (args : json).

Inductive AssistantContent : Type :=
| AssistantText (text : string)
| AssistantParts (parts : list AssistantPart).

Inductive CoreMessage : Type :=
| SystemMessage (content : string)
| UserMessage (content : UserContent)
| AssistantMessage (content : AssistantContent)
| ToolMessage (content : list ToolResultPart).

Definition role (m : CoreMessage) : string :=
  match m with
  | SystemMessage _ => "system"
  | UserMessage _ => "user"
  | AssistantMessage _ => "assistant"
  | ToolMessage _ => "tool"
  end.

(** [a || b] on an optional string: [undefined] and the empty string are
    falsy. *)
Definition or_default (a : option string) (b : string) : string :=
  match a with
  | None => b
  | Some "" => b
  | Some s => s
  end.

(** *** 3.2 [formatMessageContent] *)

Definition format_tool_part (content : ToolResultPart) : json :=
  JObject [ ("type", JString (or_default (trp_type content) "tool-result"));
            ("toolCallId", JString (trp_toolCallId content));
            ("toolName", JString (trp_toolName content));
            ("result", trp_result content) ].

Definition format_assistant_part (content : AssistantPart) : json :=
  match content with
  | TextPart text => JObject [ ("type", JString "text"); ("text", JString text) ]
  | ToolCallPart toolCallId toolName args =>
      JObject [ ("type", JString "tool-call");
                ("toolCallId", JString toolCallId);
                ("toolName", JString toolName);
                ("args", args) ]
  end.

Definition formatMessageContent (message : CoreMessage) : string :=
  match message with
  | UserMessage (UserText text) => text
  | UserMessage (UserParts parts) => JSON_stringify (JArray parts)
  | ToolMessage content => JSON_stringify (JArray (map format_tool_part content))
  | AssistantMessage (AssistantText text) =>
      JSON_stringify (JArray [ JObject [ ("type", JString "text"); ("text", JString text) ] ])
  | AssistantMessage (AssistantParts parts) =>
      JSON_stringify (JArray (map format_assistant_part parts))
  | SystemMessage _ => ""
  end.

(** ** The relational store

    Tables are lists of rows in insertion order (the documents table keeps
    one row per saved version of a document, so ids repeat there).
    Timestamps ([created_at], [new Date()]) are left out of the rows. *)

Record User : Type := { user_id : string }.

Record Model : Type := { model_id : string; apiIdentifier : string }.

Record Chat : Type := {
  chat_id : string;
  chat_user_id : string;
  chat_title : string
}.

Record MessageRow : Type := {
  msg_id : string;
  msg_chat_id : string;
  msg_role : string;
  msg_content : string
}.

Record DocumentRow : Type := {
  doc_id : string;
  doc_title : string;
  doc_content : option string;
  doc_user_id : string
}.

(** The object built in the loop of [requestSuggestions]. *)
Record Suggestion : Type := {
  originalText : string;
  suggestedText : string;
  description : string;
  sug_id : string;
  documentId : string;
  isResolved : bool
}.

(** What [saveSuggestions] receives: the suggestion spread, plus [userId]. *)
Record SuggestionRow : Type := {
  row_suggestion : Suggestion;
  row_userId : string
}.

(** ** [StreamData] *)

Inductive StreamEvent : Type :=
| EvId (content : string)
| EvTitle (content : string)
| EvClear (content : string)
| EvTextDelta (content : string)
| EvSuggestion (content : Suggestion)
| EvFinish (content : string).

Definition event_type (e : StreamEvent) : string :=
  match e with
  | EvId _ => "id"
  | EvTitle _ => "title"
  | EvClear _ => "clear"
  | EvTextDelta _ => "text-delta"
  | EvSuggestion _ => "suggestion"
  | EvFinish _ => "finish"
  end.

(** The calls made on the [StreamData] object of a turn, oldest first. *)
Inductive MuxOp : Type :=
| OpNew
| OpAppend (e : StreamEvent)
| OpAnnotation (messageIdFromServer : string)
| OpClose.

(** ** The nested streams and the effects of a request *)

(** A part of the [fullStream] of a nested [streamText]. *)
Inductive TextStreamPart : Type :=
| TextDeltaPart (textDelta : string)
| OtherStreamPart (type : string).

(** An element of the [elementStream] of the nested [streamObject]. *)
Record SuggestionElement : Type := {
  originalSentence : string;
  suggestedSentence : string;
  el_description : string
}.

(** What a request to the language model is for: the title of a new chat,
    a round of the main generation, the text of a document, or the
    suggestions for a document. *)
Inductive Purpose : Type :=
| ForTitle
| ForRound
| ForDocument
| ForSuggestions.

(** A write that the store has accepted. *)
Inductive Write : Type :=
| ChatSaved (c : Chat)
| MessagesSaved (chatId : string) (rows : list MessageRow)
| DocumentSaved (row : DocumentRow)
| SuggestionsSaved (rows : list SuggestionRow)
| ChatDeleted (id userId : string).

(** What a request does to the outside, in the order in which it does it:
    a call on the [StreamData] object, a request sent to the language
    model, the arrival of the next part of a nested stream (one turn of a
    [for await] loop), and a write accepted by the store. *)
Inductive Effect : Type :=
| Called (op : MuxOp)
| Asked (purpose : Purpose)
| PartArrived (part : TextStreamPart)
| ElementArrived (element : SuggestionElement)
| Stored (write : Write).

(** ** State of a request *)

(** What the environment does just before a store operation runs: nothing,
    make it fail with an error, or let a concurrent request create a chat. *)
Inductive Interference : Type :=
| Quiet
| Fault (message : string)
| RaceCreateChat (c : Chat).

(** The tables of the store, the UUID generator, the steps the environment
    will take, the calls made so far on the [StreamData] object, three
    counters (requests sent to the model, rounds of the main generation,
    runs of the finish callback) and the journal of all effects, oldest
    first. *)
Record State : Type := {
  chats : list Chat;
  messages : list MessageRow;
  documents : list DocumentRow;
  suggestions : list SuggestionRow;
  uuids : nat;
  schedule : list Interference;
  streamingData : list MuxOp;
  model_calls : nat;
  rounds : nat;
  finished : nat;
  journal : list Effect
}.

Definition set_chats (v : list Chat) (st : State) : State :=
  {| chats := v; messages := messages st; documents := documents st;
     suggestions := suggestions st; uuids := uuids st;
     schedule := schedule st; streamingData := streamingData st;
     model_calls := model_calls st; rounds := rounds st;
     finished := finished st; journal := journal st |}.

Definition set_messages (v : list MessageRow) (st : State) : State :=
  {| chats := chats st; messages := v; documents := documents st;
     suggestions := suggestions st; uuids := uuids st;
     schedule := schedule st; streamingData := streamingData st;
     model_calls := model_calls st; rounds := rounds st;
     finished := finished st; journal := journal st |}.

Definition set_documents (v : list DocumentRow) (st : State) : State :=
  {| chats := chats st; messages := messages st; documents := v;
     suggestions := suggestions st; uuids := uuids st;
     schedule := schedule st; streamingData := streamingData st;
     model_calls := model_calls st; rounds := rounds st;
     finished := finished st; journal := journal st |}.

Definition set_suggestions (v : list SuggestionRow) (st : State) : State :=
  {| chats := chats st; messages := messages st; documents := documents st;
     suggestions := v; uuids := uuids st; schedule := schedule st;
     streamingData := streamingData st; model_calls := model_calls st;
     rounds := rounds st; finished := finished st; journal := journal st |}.

Definition set_uuids (v : nat) (st : State) : State :=
  {| chats := chats st; messages := messages st; documents := documents st;
     suggestions := suggestions st; uuids := v; schedule := schedule st;
     streamingData := streamingData st; model_calls := model_calls st;
     rounds := rounds st; finished := finished st; journal := journal st |}.

Definition set_schedule (v : list Interference) (st : State) : State :=
  {| chats := chats st; messages := messages st; documents := documents st;
     suggestions := suggestions st; uuids := uuids st; schedule := v;
     streamingData := streamingData st; model_calls := model_calls st;
     rounds := rounds st; finished := finished st; journal := journal st |}.

Definition set_streamingData (v : list MuxOp) (st : State) : State :=
  {| chats := chats st; messages := messages st; documents := documents st;
     suggestions := suggestions st; uuids := uuids st;
     schedule := schedule st; streamingData := v;
     model_calls := model_calls st; rounds := rounds st;
     finished := finished st; journal := journal st |}.

Definition set_model_calls (v : nat) (st : State) : State :=
  {| chats := chats st; messages := messages st; documents := documents st;
     suggestions := suggestions st; uuids := uuids st;
     schedule := schedule st; streamingData := streamingData st;
     model_calls := v; rounds := rounds st; finished := finished st;
     journal := journal st |}.

Definition set_rounds (v : nat) (st : State) : State :=
  {| chats := chats st; messages := messages st; documents := documents st;
     suggestions := suggestions st; uuids := uuids st;
     schedule := schedule st; streamingData := streamingData st;
     model_calls := model_calls st; rounds := v; finished := finished st;
     journal := journal st |}.

Definition set_finished (v : nat) (st : State) : State :=
  {| chats := chats st; messages := messages st; documents := documents st;
     suggestions := suggestions st; uuids := uuids st;
     schedule := schedule st; streamingData := streamingData st;
     model_calls := model_calls st; rounds := rounds st; finished := v;
     journal := journal st |}.

Definition set_journal (v : list Effect) (st : State) : State :=
  {| chats := chats st; messages := messages st; documents := documents st;
     suggestions := suggestions st; uuids := uuids st;
     schedule := schedule st; streamingData := streamingData st;
     model_calls := model_calls st; rounds := rounds st;
     finished := finished st; journal := v |}.

(** One more entry in the journal. *)
Definition record (e : Effect) (st : State) : State :=
  set_journal (journal st ++ [e])%list st.

(** ** The monad of the handlers: state and JavaScript exceptions *)

Inductive Result (A : Type) : Type :=
| Ok (a : A)
| Thrown (message : string).

Arguments Ok {A} a.
Arguments Thrown {A} message.

Definition M (A : Type) : Type := State -> Result A * State.

Definition ret {A} (a : A) : M A := fun st => (Ok a, st).

Definition throw {A} (message : string) : M A := fun st => (Thrown message, st).

Definition bind {A B} (m : M A) (k : A -> M B) : M B :=
  fun st =>
    match m st with
    | (Ok a, st') => k a st'
    | (Thrown e, st') => (Thrown e, st')
    end.

(** [try { body } catch (error) { handler }], [error.message] being all a
    handler of this file looks at. *)
Definition try_catch {A} (body : M A) (handler : string -> M A) : M A :=
  fun st =>
    match body st with
    | (Ok a, st') => (Ok a, st')
    | (Thrown e, st') => handler e st'
    end.

Declare Scope monad_scope.
Delimit Scope monad_scope with monad.
Notation "x <- m ;; k" := (bind m (fun x => k))
  (at level 61, m at next level, right associativity) : monad_scope.
Notation "m ;;; k" := (bind m (fun _ => k))
  (at level 61, right associativity) : monad_scope.
Open Scope monad_scope.

Fixpoint mapM {A B} (f : A -> M B) (l : list A) : M (list B) :=
  match l with
  | [] => ret []
  | a :: rest => b <- f a ;; bs <- mapM f rest ;; ret (b :: bs)
  end.

Definition modify (f : State -> State) : M unit := fun st => (Ok tt, f st).

Definition gets {A} (f : State -> A) : M A := fun st => (Ok (f st), st).

(** A call of an [async] function that is under way: it has returned its
    result, or it waits at an [await], and [resume] is what it
    does from there to its next [await] once the awaited promise has
    settled. *)
Inductive Task : Type :=
| Returned (result : json)
| Awaiting (resume : M Task).

(** A task that runs without any other: every promise it waits for
    settles at once. *)
Fixpoint alone (task : Task) (st : State) {struct task} : Result json * State :=
  match task with
  | Returned result => (Ok result, st)
  | Awaiting resume =>
      match resume st with
      | (Ok task', st') => alone task' st'
      | (Thrown e, st') => (Thrown e, st')
      end
  end.

(** ** External collaborators *)

(** [supabase.auth.getUser()]: the pair [data.user], [error]. *)
Record AuthResponse : Type := {
  auth_user : option User;
  auth_error : option string
}.

(** A wire message of the request body (the SDK's [Message]). *)
Record UIMessage : Type := {
  ui_id : string;
  ui_role : string;
  ui_content : string
}.

Record Request : Type := {
  req_id : string;
  req_messages : list UIMessage;
  req_modelId : string
}.

Inductive Response : Type :=
| PlainResponse (body : string) (status : nat)
| DataStreamResponse.

(** A tool call requested by the model, with validated arguments, together
    with what the outside world answers while the tool runs: the weather
    payload, or the stream of the nested generation. *)
Inductive ToolCall : Type :=
| CallGetWeather (callId : string) (latitude longitude : string) (weatherData : json)
| CallCreateDocument (callId title : string) (fullStream : list TextStreamPart)
| CallUpdateDocument (callId id changes : string) (fullStream : list TextStreamPart)
| CallRequestSuggestions (callId docId : string) (elementStream : list SuggestionElement).

(** What the provider answers in one round of the main generation. *)
Inductive Round : Type :=
| RoundFailed (message : string)
| RoundOutput (text : string) (toolCalls : list ToolCall).

(** What happens next among the tools of one round: the next tool call of
    the answer arrives and its tool is started, or the promise that the
    [n]-th started tool waits for settles and that tool goes on. *)
Inductive Turn : Type :=
| StartNext
| Resume (n : nat).

(** Everything the route imports and does not define: the session, the
    model table of [@/ai/models], the SDK's message conversion, the title
    action, the sanitizer of [@/lib/utils], the UUIDs that
    [generateUUID] hands out in turn, the provider's answers round by
    round, and the order in which the tools of each round take their
    turns. *)
Record World : Type := {
  auth : AuthResponse;
  models : list Model;
  convertToCoreMessages : list UIMessage -> list CoreMessage;
  generateTitleFromUserMessage : CoreMessage -> string;
  sanitizeResponseMessages : list CoreMessage -> list CoreMessage;
  nth_uuid : nat -> string;
  llm : nat -> Round;
  timing : nat -> list Turn
}.

Definition truthy (s : string) : bool := negb (s =? "").

(** ** Store operations *)

Definition has_chat (id : string) (l : list Chat) : bool :=
  existsb (fun c => chat_id c =? id) l.

(** A chat row inserted by a concurrent request: the primary key rejects
    it when the id is taken. *)
Definition concurrent_insert (c : Chat) (st : State) : State :=
  if has_chat (chat_id c) (chats st) then st
  else set_chats (chats st ++ [c]) st.

(** Every store operation first lets the environment take its next step. *)
Definition store_op {A} (body : M A) : M A :=
  fun st =>
    match schedule st with
    | [] => body st
    | Quiet :: rest => body (set_schedule rest st)
    | Fault message :: rest => (Thrown message, set_schedule rest st)
    | RaceCreateChat c :: rest => body (concurrent_insert c (set_schedule rest st))
    end.

(** Modelled from the spec: [getChatById] of [@/db/cached-queries] is not
    in the sources; it looks the chat up by id. *)
Definition getChatById (id : string) : M (option Chat) :=
  store_op (gets (fun st => find (fun c => chat_id c =? id) (chats st))).

(** Modelled from the spec: [saveChat] of [@/db/mutations] is not in the
    sources; it creates the chat, and a collision on the id raises the
    error whose message the handler's [catch] compares against. *)
Definition saveChat (c : Chat) : M unit :=
  store_op (fun st =>
    if has_chat (chat_id c) (chats st)
    then (Thrown "Chat ID already exists", st)
    else (Ok tt, record (Stored (ChatSaved c)) (set_chats (chats st ++ [c]) st))).

(** Modelled from the spec: [saveMessages] of [@/db/mutations] is not in
    the sources; it writes the batch as a whole and trusts the chat id it
    is given. *)
Definition saveMessages (chatId : string) (rows : list MessageRow) : M unit :=
  store_op (modify (fun st =>
    record (Stored (MessagesSaved chatId rows)) (set_messages (messages st ++ rows) st))).

(** Modelled from the spec: [saveDocument] of [@/db/mutations] is not in
    the sources; it writes one row. *)
Definition saveDocument (row : DocumentRow) : M unit :=
  store_op (modify (fun st =>
    record (Stored (DocumentSaved row)) (set_documents (documents st ++ [row]) st))).

(** Modelled from the spec: [saveSuggestions] of [@/db/mutations] is not in
    the sources; it writes the batch as a whole. *)
Definition saveSuggestions (rows : list SuggestionRow) : M unit :=
  store_op (modify (fun st =>
    record (Stored (SuggestionsSaved rows)) (set_suggestions (suggestions st ++ rows) st))).

(** Modelled from the spec: [getDocumentById] of [@/db/cached-queries] is
    not in the sources; it loads the document, here its latest row. *)
Definition getDocumentById (id : string) : M (option DocumentRow) :=
  store_op (gets (fun st => find (fun d => doc_id d =? id) (rev (documents st)))).

(** Modelled from the spec: [deleteChatById] of [@/db/mutations] is not in
    the sources; it removes the chat of that owner together with its
    messages. *)
Definition deleteChatById (id userId : string) : M unit :=
  store_op (modify (fun st =>
    record (Stored (ChatDeleted id userId))
      (if existsb (fun c => (chat_id c =? id) && (chat_user_id c =? userId)) (chats st)
       then set_messages (filter (fun m => negb (msg_chat_id m =? id)) (messages st))
              (set_chats (filter (fun c => negb (chat_id c =? id)) (chats st)) st)
       else st))).

(** Modelled from the spec: [getMostRecentUserMessage] of [@/lib/utils] is
    not in the sources; it is the last message of role user, if any. *)
Definition getMostRecentUserMessage (l : list CoreMessage) : option CoreMessage :=
  find (fun m => role m =? "user") (rev l).

(** ** Operations on the request's objects *)

Definition generateUUID (w : World) : M string :=
  fun st => (Ok (nth_uuid w (uuids st)), set_uuids (S (uuids st)) st).

(** A call on the [StreamData] object of the turn. *)
Definition stream_call (op : MuxOp) : M unit :=
  modify (fun st =>
    record (Called op) (set_streamingData (streamingData st ++ [op]) st)).

Definition new_StreamData : M unit := stream_call OpNew.

Definition append (e : StreamEvent) : M unit := stream_call (OpAppend e).

Definition appendMessageAnnotation (messageIdFromServer : string) : M unit :=
  stream_call (OpAnnotation messageIdFromServer).

Definition close : M unit := stream_call OpClose.

(** One request sent to the language model. *)
Definition call_model (purpose : Purpose) : M unit :=
  modify (fun st => record (Asked purpose) (set_model_calls (S (model_calls st)) st)).

(** The next part of a nested stream arrives. *)
Definition arrives (e : Effect) : M unit := modify (record e).

(** *** 3.1 [getUser] *)

Definition getUser (w : World) : M User :=
  match auth_error (auth w), auth_user (auth w) with
  | None, Some user => ret user
  | _, _ => throw "Unauthorized"
  end.

(** ** 4.8 The tools handed to [streamText] *)

Section Tools.

Variable w : World.
Variable user : User.

(** [for await (const delta of fullStream)]: text deltas extend the draft
    and are forwarded; every other part is skipped. *)
Fixpoint consume_fullStream (fullStream : list TextStreamPart) (draftText : string)
  : M string :=
  match fullStream with
  | [] => ret draftText
  | delta :: rest =>
      arrives (PartArrived delta) ;;;
      match delta with
      | TextDeltaPart textDelta =>
          append (EvTextDelta textDelta) ;;;
          consume_fullStream rest (draftText ++ textDelta)
      | OtherStreamPart _ => consume_fullStream rest draftText
      end
  end.

(** 4.8.1 *)
Definition getWeather (weatherData : json) : M json := ret weatherData.

(** 4.8.2 *)
Definition createDocument (title : string) (fullStream : list TextStreamPart) : M json :=
  id <- generateUUID w ;;
  append (EvId id) ;;;
  append (EvTitle title) ;;;
  append (EvClear "") ;;;
  call_model ForDocument ;;;
  draftText <- consume_fullStream fullStream "" ;;
  append (EvFinish "") ;;;
  (if truthy (user_id user)
   then saveDocument {| doc_id := id; doc_title := title;
                        doc_content := Some draftText; doc_user_id := user_id user |}
   else ret tt) ;;;
  ret (JObject [ ("id", JString id);
                 ("title", JString title);
                 ("content", JString "A document was created and is now visible to the user.") ]).

(** 4.8.3 *)
Definition updateDocument (id changes : string) (fullStream : list TextStreamPart)
  : M json :=
  document <- getDocumentById id ;;
  match document with
  | None => ret (JObject [ ("error", JString "Document not found") ])
  | Some document =>
      append (EvClear (doc_title document)) ;;;
      call_model ForDocument ;;;
      draftText <- consume_fullStream fullStream "" ;;
      append (EvFinish "") ;;;
      (if truthy (user_id user)
       then saveDocument {| doc_id := id; doc_title := doc_title document;
                            doc_content := Some draftText; doc_user_id := user_id user |}
       else ret tt) ;;;
      ret (JObject [ ("id", JString id);
                     ("title", JString (doc_title document));
                     ("content", JString "The document has been updated successfully.") ])
  end.

(** [for await (const element of elementStream)] *)
Fixpoint consume_elementStream (docId : string) (elementStream : list SuggestionElement)
  (acc : list Suggestion) : M (list Suggestion) :=
  match elementStream with
  | [] => ret acc
  | element :: rest =>
      arrives (ElementArrived element) ;;;
      id <- generateUUID w ;;
      let suggestion :=
        {| originalText := originalSentence element;
           suggestedText := suggestedSentence element;
           description := el_description element;
           sug_id := id;
           documentId := docId;
           isResolved := false |} in
      append (EvSuggestion suggestion) ;;;
      consume_elementStream docId rest (acc ++ [suggestion])
  end.

(** [!document || !document.content] *)
Definition usable_content (document : option DocumentRow) : option DocumentRow :=
  match document with
  | None => None
  | Some d =>
      match doc_content d with
      | None => None
      | Some content => if truthy content then Some d else None
      end
  end.

(** 4.8.4 *)
Definition requestSuggestions (docId : string) (elementStream : list SuggestionElement)
  : M json :=
  document <- getDocumentById docId ;;
  match usable_content document with
  | None => ret (JObject [ ("error", JString "Document not found") ])
  | Some document =>
      call_model ForSuggestions ;;;
      collected <- consume_elementStream docId elementStream [] ;;
      (if truthy (user_id user)
       then saveSuggestions
              (map (fun suggestion => {| row_suggestion := suggestion;
                                         row_userId := user_id user |}) collected)
       else ret tt) ;;;
      ret (JObject [ ("id", JString docId);
                     ("title", JString (doc_title document));
                     ("message", JString "Suggestions have been added to the document") ])
  end.

Definition execute (call : ToolCall) : M json :=
  match call with
  | CallGetWeather _ _ _ weatherData => getWeather weatherData
  | CallCreateDocument _ title fullStream => createDocument title fullStream
  | CallUpdateDocument _ id changes fullStream => updateDocument id changes fullStream
  | CallRequestSuggestions _ docId elementStream => requestSuggestions docId elementStream
  end.

(** *** The same tools, cut at their [await]s

    The definitions above run a tool from its call to its return.  The
    SDK lets the tools of one round run together, so between two [await]s
    of one tool another tool may take its turn.  Here each tool is given
    as the task that its call starts: the code up to the first [await],
    and then, [await] after [await], the code up to the next one. *)

(** An [await] of a promise that brings nothing into the state. *)
Definition awaited (task : Task) : Task := Awaiting (ret task).

(** [for await (const delta of fullStream)], then [after]. *)
Fixpoint await_fullStream (fullStream : list TextStreamPart) (draftText : string)
  (after : string -> M Task) : Task :=
  match fullStream with
  | [] => Awaiting (after draftText)
  | delta :: rest =>
      Awaiting
        (arrives (PartArrived delta) ;;;
         match delta with
         | TextDeltaPart textDelta =>
             append (EvTextDelta textDelta) ;;;
             ret (await_fullStream rest (draftText ++ textDelta) after)
         | OtherStreamPart _ => ret (await_fullStream rest draftText after)
         end)
  end.

(** [for await (const element of elementStream)], then [after]. *)
Fixpoint await_elementStream (docId : string) (elementStream : list SuggestionElement)
  (acc : list Suggestion) (after : list Suggestion -> M Task) : Task :=
  match elementStream with
  | [] => Awaiting (after acc)
  | element :: rest =>
      Awaiting
        (arrives (ElementArrived element) ;;;
         id <- generateUUID w ;;
         let suggestion :=
           {| originalText := originalSentence element;
              suggestedText := suggestedSentence element;
              description := el_description element;
              sug_id := id;
              documentId := docId;
              isResolved := false |} in
         append (EvSuggestion suggestion) ;;;
         ret (await_elementStream docId rest (acc ++ [suggestion]) after))
  end.

(** [await fetch(...)] and [await response.json()] *)
Definition getWeather_task (weatherData : json) : M Task :=
  ret (awaited (awaited (Returned weatherData))).

Definition createDocument_task (title : string) (fullStream : list TextStreamPart)
  : M Task :=
  id <- generateUUID w ;;
  append (EvId id) ;;;
  append (EvTitle title) ;;;
  append (EvClear "") ;;;
  call_model ForDocument ;;;
  ret (awaited (await_fullStream fullStream "" (fun draftText =>
    append (EvFinish "") ;;;
    let result :=
      JObject [ ("id", JString id);
                ("title", JString title);
                ("content",
                 JString "A document was created and is now visible to the user.") ] in
    if truthy (user_id user)
    then saveDocument {| doc_id := id; doc_title := title;
                         doc_content := Some draftText; doc_user_id := user_id user |} ;;;
         ret (awaited (Returned result))
    else ret (Returned result)))).

Definition updateDocument_task (id changes : string) (fullStream : list TextStreamPart)
  : M Task :=
  document <- getDocumentById id ;;
  ret (Awaiting
    match document with
    | None => ret (Returned (JObject [ ("error", JString "Document not found") ]))
    | Some document =>
        append (EvClear (doc_title document)) ;;;
        call_model ForDocument ;;;
        ret (awaited (await_fullStream fullStream "" (fun draftText =>
          append (EvFinish "") ;;;
          let result :=
            JObject [ ("id", JString id);
                      ("title", JString (doc_title document));
                      ("content",
                       JString "The document has been updated successfully.") ] in
          if truthy (user_id user)
          then saveDocument {| doc_id := id; doc_title := doc_title document;
                               doc_content := Some draftText;
                               doc_user_id := user_id user |} ;;;
               ret (awaited (Returned result))
          else ret (Returned result))))
    end).

Definition requestSuggestions_task (docId : string)
  (elementStream : list SuggestionElement) : M Task :=
  document <- getDocumentById docId ;;
  ret (Awaiting
    match usable_content document with
    | None => ret (Returned (JObject [ ("error", JString "Document not found") ]))
    | Some document =>
        call_model ForSuggestions ;;;
        ret (awaited (await_elementStream docId elementStream [] (fun collected =>
          let result :=
            JObject [ ("id", JString docId);
                      ("title", JString (doc_title document));
                      ("message",
                       JString "Suggestions have been added to the document") ] in
          if truthy (user_id user)
          then saveSuggestions
                 (map (fun suggestion => {| row_suggestion := suggestion;
                                            row_userId := user_id user |}) collected) ;;;
               ret (awaited (Returned result))
          else ret (Returned result))))
    end).

(** The call of [execute]: the tool runs up to its first [await]. *)
Definition execute_task (call : ToolCall) : M Task :=
  match call with
  | CallGetWeather _ _ _ weatherData => getWeather_task weatherData
  | CallCreateDocument _ title fullStream => createDocument_task title fullStream
  | CallUpdateDocument _ id changes fullStream => updateDocument_task id changes fullStream
  | CallRequestSuggestions _ docId elementStream =>
      requestSuggestions_task docId elementStream
  end.

End Tools.

(** ** 2.3 The tool groups *)

Definition blocksTools : list string :=
  [ "createDocument"; "updateDocument"; "requestSuggestions" ].

Definition weatherTools : list string := [ "getWeather" ].

Definition allTools : list string := (blocksTools ++ weatherTools)%list.

(** ** The generation loop of [streamText] *)

Definition call_id (call : ToolCall) : string :=
  match call with
  | CallGetWeather callId _ _ _ => callId
  | CallCreateDocument callId _ _ => callId
  | CallUpdateDocument callId _ _ _ => callId
  | CallRequestSuggestions callId _ _ => callId
  end.

Definition call_name (call : ToolCall) : string :=
  match call with
  | CallGetWeather _ _ _ _ => "getWeather"
  | CallCreateDocument _ _ _ => "createDocument"
  | CallUpdateDocument _ _ _ _ => "updateDocument"
  | CallRequestSuggestions _ _ _ => "requestSuggestions"
  end.

Definition call_args (call : ToolCall) : json :=
  match call with
  | CallGetWeather _ latitude longitude _ =>
      JObject [ ("latitude", JNumber latitude); ("longitude", JNumber longitude) ]
  | CallCreateDocument _ title _ => JObject [ ("title", JString title) ]
  | CallUpdateDocument _ id changes _ =>
      JObject [ ("id", JString id); ("description", JString changes) ]
  | CallRequestSuggestions _ docId _ => JObject [ ("documentId", JString docId) ]
  end.

Definition tool_call_part (call : ToolCall) : AssistantPart :=
  ToolCallPart (call_id call) (call_name call) (call_args call).

Definition tool_result_part (call : ToolCall) (result : json) : ToolResultPart :=
  {| trp_type := Some "tool-result"; trp_toolCallId := call_id call;
     trp_toolName := call_name call; trp_result := result |}.

(** A round of the main generation starts. *)
Definition count_round : M unit :=
  modify (fun st => set_rounds (S (rounds st)) st).

(** Modelled from the spec: how the SDK runs the tools of a round is not
    in the sources.  An exception of a tool does not end the generation:
    the rejected promise becomes the result [{error: message}] that goes
    back to the model, so that the generation can continue (section 7 of
    the specification). *)
Definition failure (message : string) : json :=
  JObject [ ("error", JString message) ].

Definition guarded (m : M Task) : M Task :=
  try_catch m (fun message => ret (Returned (failure message))).

(** The promise a task waits for settles: the task goes on to its next
    [await]. *)
Definition resume_task (task : Task) : M Task :=
  match task with
  | Returned _ => ret task
  | Awaiting resume => guarded resume
  end.

Fixpoint resume_nth (n : nat) (pool : list Task) : M (list Task) :=
  match pool, n with
  | [], _ => ret []
  | task :: rest, 0 => task' <- resume_task task ;; ret (task' :: rest)
  | task :: rest, S n' => rest' <- resume_nth n' rest ;; ret (task :: rest')
  end.

(** A task is run to its end. *)
Fixpoint finish (task : Task) (st : State) {struct task} : Result json * State :=
  match task with
  | Returned result => (Ok result, st)
  | Awaiting resume =>
      match resume st with
      | (Ok task', st') => finish task' st'
      | (Thrown e, st') => (Ok (failure e), st')
      end
  end.

(** Modelled from the spec: the tools of one round.  A tool is started
    when its call arrives, in the order of the answer, and the tools that
    are under way take their turns as [turns] says; when [turns] is used
    up, the calls not yet started are started and every task is run to
    its end.  The results come back in the order of the calls. *)
Fixpoint run_tools (start : ToolCall -> M Task) (turns : list Turn)
  (pending : list ToolCall) (pool : list Task) : M (list json) :=
  match turns with
  | [] =>
      rest <- mapM (fun call => guarded (start call)) pending ;;
      mapM finish (pool ++ rest)%list
  | StartNext :: turns' =>
      match pending with
      | [] => run_tools start turns' [] pool
      | call :: pending' =>
          task <- guarded (start call) ;;
          run_tools start turns' pending' (pool ++ [task])%list
      end
  | Resume n :: turns' =>
      pool' <- resume_nth n pool ;;
      run_tools start turns' pending pool'
  end.

Fixpoint tool_result_parts (toolCalls : list ToolCall) (results : list json)
  : list ToolResultPart :=
  match toolCalls, results with
  | call :: calls, result :: others =>
      tool_result_part call result :: tool_result_parts calls others
  | _, _ => []
  end.

(** Modelled from the spec: the loop inside the SDK's [streamText] is not
    in the sources.  This is the generation from the moment the provider
    has answered round [k] with [text] and [toolCalls]: the tool calls are
    executed and fed back as a tool message, and while rounds remain
    ([steps] of them) and the answer requested a tool, the history is sent
    to the model again.  A failure of the provider ends the generation. *)
Fixpoint generation_loop (start : ToolCall -> M Task) (answers : nat -> Round)
  (turns : nat -> list Turn) (steps k : nat) (text : string)
  (toolCalls : list ToolCall) {struct steps} : M (list CoreMessage) :=
  results <- run_tools start (turns k) toolCalls [] ;;
  let assistant :=
    AssistantMessage (AssistantParts (TextPart text :: map tool_call_part toolCalls)) in
  match toolCalls, steps with
  | [], _ => ret [assistant]
  | _ :: _, 0 => ret [assistant; ToolMessage (tool_result_parts toolCalls results)]
  | _ :: _, S steps' =>
      call_model ForRound ;;;
      count_round ;;;
      match answers (S k) with
      | RoundFailed message => throw message
      | RoundOutput text' toolCalls' =>
          rest <- generation_loop start answers turns steps' (S k) text' toolCalls' ;;
          ret (assistant :: ToolMessage (tool_result_parts toolCalls results) :: rest)
      end
  end.

(** What goes on while the response is being read: the handler has
    returned, so a failure in this part ends the stream and reaches
    nobody. *)
Definition while_streaming (m : M unit) : M unit :=
  fun st => (Ok tt, snd (m st)).

(** Modelled from the spec: [streamText] with [maxSteps], [tools] and
    [onFinish].  Its promise settles once the provider has answered the
    first round, and is rejected when that request fails.  The rest of the
    generation (the tools of the first round, the later rounds and at the
    very end the finish callback, which runs once) takes place while the
    response is read; when the provider fails there, the stream ends and
    the finish callback is not run.  The state after the call is the state
    at the end of the stream. *)
Definition streamText (maxSteps : nat) (start : ToolCall -> M Task)
  (answers : nat -> Round) (turns : nat -> list Turn)
  (onFinish : list CoreMessage -> M unit) : M unit :=
  match maxSteps with
  | 0 => while_streaming (onFinish [])
  | S steps =>
      call_model ForRound ;;;
      count_round ;;;
      match answers 0 with
      | RoundFailed message => throw message
      | RoundOutput text toolCalls =>
          while_streaming
            (responseMessages <-
               generation_loop start answers turns steps 0 text toolCalls ;;
             onFinish responseMessages)
      end
  end.

(** ** 4. The POST handler *)

Section Handlers.

Variable w : World.

Definition user_message_row (id messageId : string) (message : CoreMessage) : MessageRow :=
  {| msg_id := messageId; msg_chat_id := id; msg_role := role message;
     msg_content := formatMessageContent message |}.

(** The finish callback starts. *)
Definition count_finished : M unit :=
  modify (fun st => set_finished (S (finished st)) st).

(** 4.9 *)
Definition onFinish (user : User) (id : string) (responseMessages : list CoreMessage)
  : M unit :=
  count_finished ;;;
  (if truthy (user_id user)
   then try_catch
          (rows <- mapM (fun message =>
                     messageId <- generateUUID w ;;
                     (if role message =? "assistant"
                      then appendMessageAnnotation messageId
                      else ret tt) ;;;
                     ret (user_message_row id messageId message))
                   (sanitizeResponseMessages w responseMessages) ;;
           saveMessages id rows)
          (fun error => ret tt)
   else ret tt) ;;;
  close.

(** 4.6 and 4.12.1 *)
Definition save_user_message (id : string) (userMessage : CoreMessage) : M unit :=
  messageId <- generateUUID w ;;
  saveMessages id [ user_message_row id messageId userMessage ].

Definition title_action (userMessage : CoreMessage) : M string :=
  call_model ForTitle ;;;
  ret (generateTitleFromUserMessage w userMessage).

Definition POST (request : Request) : M (option Response) :=
  let id := req_id request in
  user <- getUser w ;;
  (* 4.2: [if (!user)] cannot hold, [getUser] returns an object or throws *)
  match find (fun model => model_id model =? req_modelId request) (models w) with
  | None => ret (Some (PlainResponse "Model not found" 404))
  | Some model =>
      let coreMessages := convertToCoreMessages w (req_messages request) in
      match getMostRecentUserMessage coreMessages with
      | None => ret (Some (PlainResponse "No user message found" 400))
      | Some userMessage =>
          let generate : M (option Response) :=
            save_user_message id userMessage ;;;
            new_StreamData ;;;
            streamText 5 (execute_task w user) (llm w) (timing w) (onFinish user id) ;;;
            ret (Some DataStreamResponse) in
          try_catch
            (chat <- getChatById id ;;
             match chat with
             | None =>
                 title <- title_action userMessage ;;
                 saveChat {| chat_id := id; chat_user_id := user_id user;
                             chat_title := title |} ;;;
                 generate
             | Some chat =>
                 if negb (chat_user_id chat =? user_id user)
                 then ret (Some (PlainResponse "Unauthorized" 401))
                 else generate
             end)
            (fun error =>
               if error =? "Chat ID already exists"
               then save_user_message id userMessage ;;; ret None
               else throw error)
      end
  end.

(** ** 5. The DELETE handler; [id] is [searchParams.get('id')] *)

Definition DELETE (id : option string) : M Response :=
  match id with
  | None => ret (PlainResponse "Not Found" 404)
  | Some id =>
      if negb (truthy id) then ret (PlainResponse "Not Found" 404)
      else
        user <- getUser w ;;
        try_catch
          (chat <- getChatById id ;;
           match chat with
           | None => ret (PlainResponse "Chat not found" 404)
           | Some chat =>
               if negb (chat_user_id chat =? user_id user)
               then ret (PlainResponse "Unauthorized" 401)
               else deleteChatById id (user_id user) ;;;
                    ret (PlainResponse "Chat deleted" 200)
           end)
          (fun error =>
             ret (PlainResponse "An error occurred while processing your request" 500))
  end.

End Handlers.

(** * Vocabulary of the properties *)

Open Scope list_scope.

(** ** Frames: what a computation leaves alone

    A frame is a relation between the state before and after that is
    reflexive, transitive and blind to the tables, the UUID counter, the
    schedule, the count of model calls and the journal.  A computation
    respects it when every run, normal or exceptional, stays inside it. *)

Class Frame (R : State -> State -> Prop) : Prop := {
  frame_refl : forall st, R st st;
  frame_trans : forall a b c, R a b -> R b c -> R a c;
  frame_chats : forall st v, R st (set_chats v st);
  frame_messages : forall st v, R st (set_messages v st);
  frame_documents : forall st v, R st (set_documents v st);
  frame_suggestions : forall st v, R st (set_suggestions v st);
  frame_uuids : forall st v, R st (set_uuids v st);
  frame_schedule : forall st v, R st (set_schedule v st);
  frame_model_calls : forall st v, R st (set_model_calls v st);
  frame_journal : forall st v, R st (set_journal v st)
}.

Definition respects (R : State -> State -> Prop) {A} (m : M A) : Prop :=
  forall st, R st (snd (m st)).

(** Every stretch of a task, from one [await] to the next, stays inside
    the frame. *)
Fixpoint task_respects (R : State -> State -> Prop) (task : Task) {struct task} : Prop :=
  match task with
  | Returned _ => True
  | Awaiting resume =>
      forall st,
        R st (snd (resume st)) /\
        match resume st with
        | (Ok task', _) => task_respects R task'
        | (Thrown _, _) => True
        end
  end.

(** The same for the call that starts the task. *)
Definition starts (R : State -> State -> Prop) (m : M Task) : Prop :=
  forall st,
    R st (snd (m st)) /\
    match m st with
    | (Ok task, _) => task_respects R task
    | (Thrown _, _) => True
    end.

(** A computation that stays inside the frame, does not throw, and whose
    result has the property [P]. *)
Definition settles (R : State -> State -> Prop) {A} (P : A -> Prop) (m : M A) : Prop :=
  forall st, exists a st', m st = (Ok a, st') /\ R st st' /\ P a.

(** Induction on a task: the step case may use the property for the task
    that a resumption yields. *)
Fixpoint Task_induction (P : Task -> Prop)
  (base : forall result, P (Returned result))
  (step : forall resume,
      (forall st, match resume st with
                  | (Ok task', _) => P task'
                  | (Thrown _, _) => True
                  end) ->
      P (Awaiting resume))
  (task : Task) {struct task} : P task :=
  match task with
  | Returned result => base result
  | Awaiting resume =>
      step resume
        (fun st =>
           match resume st as out
             return match out with
                    | (Ok task', _) => P task'
                    | (Thrown _, _) => True
                    end
           with
           | (Ok task', _) => Task_induction P base step task'
           | (Thrown _, _) => I
           end)
  end.

(** ** Traces of [StreamData] calls, turns and their outcomes *)

Definition is_write (op : MuxOp) : Prop :=
  match op with
  | OpAppend _ | OpAnnotation _ => True
  | OpNew | OpClose => False
  end.

(** Nothing happens to the [StreamData] object, to the round counter or to
    the count of finished generations. *)
Definition untouched (st st' : State) : Prop :=
  streamingData st' = streamingData st /\
  finished st' = finished st /\
  rounds st' = rounds st.

(** As [untouched], except that events and annotations may be appended. *)
Definition writes_only (st st' : State) : Prop :=
  (exists t, streamingData st' = streamingData st ++ t /\ Forall is_write t) /\
  finished st' = finished st /\
  rounds st' = rounds st.

Fixpoint closes (t : list MuxOp) : nat :=
  match t with
  | [] => 0
  | OpClose :: rest => S (closes rest)
  | _ :: rest => closes rest
  end.

(** Is something appended (an event or an annotation) once [close] has
    been called?  [closed] tells whether a [close] was already seen. *)
Fixpoint written_after_close (closed : bool) (t : list MuxOp) : bool :=
  match t with
  | [] => false
  | OpClose :: rest => written_after_close true rest
  | OpNew :: rest => written_after_close closed rest
  | OpAppend _ :: rest => closed || written_after_close closed rest
  | OpAnnotation _ :: rest => closed || written_after_close closed rest
  end.

(** As [writes_only], except that up to [steps] rounds may be started. *)
Definition loop_frame (steps : nat) (st st' : State) : Prop :=
  (exists t, streamingData st' = streamingData st ++ t /\ Forall is_write t) /\
  finished st' = finished st /\
  rounds st' <= rounds st + steps.

(** The part of the [try] block that follows the ownership check: 4.6 to
    4.11. *)
Definition turn (w : World) (user : User) (id : string) (userMessage : CoreMessage)
  : M (option Response) :=
  save_user_message w id userMessage ;;;
  new_StreamData ;;;
  streamText 5 (execute_task w user) (llm w) (timing w) (onFinish w user id) ;;;
  ret (Some DataStreamResponse).

(** Does the generation reach its end, that is, does the provider answer
    every round that is run?  Round [k] has been asked for and [steps]
    more rounds are allowed. *)
Fixpoint completes (answers : nat -> Round) (steps k : nat) : bool :=
  match answers k with
  | RoundFailed _ => false
  | RoundOutput _ [] => true
  | RoundOutput _ (_ :: _) =>
      match steps with
      | 0 => true
      | S steps' => completes answers steps' (S k)
      end
  end.

(** No call on a [StreamData] object, or none but its creation, the
    provider having failed in the first round. *)
Definition left_open (w : World) (t : list MuxOp) : Prop :=
  t = [] \/ (t = [OpNew] /\ exists message, llm w 0 = RoundFailed message).

Inductive turn_outcome (w : World) (st : State)
  : Result (option Response) -> State -> Prop :=
| turn_streamed st' body :
    completes (llm w) 4 0 = true ->
    streamingData st' = streamingData st ++ OpNew :: body ++ [OpClose] ->
    Forall is_write body ->
    finished st' = S (finished st) ->
    rounds st' <= rounds st + 5 ->
    turn_outcome w st (Ok (Some DataStreamResponse)) st'
| turn_broken st' body :
    completes (llm w) 4 0 = false ->
    streamingData st' = streamingData st ++ OpNew :: body ->
    Forall is_write body ->
    finished st' = finished st ->
    rounds st' <= rounds st + 5 ->
    turn_outcome w st (Ok (Some DataStreamResponse)) st'
| turn_failed e st' t :
    streamingData st' = streamingData st ++ t ->
    left_open w t ->
    finished st' = finished st ->
    rounds st' <= rounds st + 5 ->
    turn_outcome w st (Thrown e) st'.

(** What the handler does with the [StreamData] object, the finish
    callback and the rounds of the generation, by kind of result. *)
Definition close_discipline (w : World) (st : State) (r : Result (option Response))
  (st' : State) : Prop :=
  exists t,
    streamingData st' = streamingData st ++ t /\
    written_after_close false t = false /\
    finished st' = finished st + closes t /\
    rounds st' <= rounds st + 5 /\
    match r with
    | Ok (Some DataStreamResponse) =>
        (exists body, t = OpNew :: body) /\
        closes t = if completes (llm w) 4 0 then 1 else 0
    | Ok (Some (PlainResponse _ _)) => t = []
    | Ok None | Thrown _ => left_open w t
    end.

(** ** The environment's step before a store operation *)

Definition is_fault (i : Interference) : Prop :=
  match i with Fault _ => True | _ => False end.

(** The next store operation is not made to fail. *)
Definition calm (st : State) : Prop :=
  match schedule st with
  | i :: _ => ~ is_fault i
  | [] => True
  end.

(** No store operation of the request is made to fail. *)
Definition fault_free (st : State) : Prop :=
  Forall (fun i => ~ is_fault i) (schedule st).

Definition chat_rows (id : string) (st : State) : list Chat :=
  filter (fun c => chat_id c =? id) (chats st).

Inductive env_step (st : State) : State -> Prop :=
| env_idle : schedule st = [] -> env_step st st
| env_quiet rest : schedule st = Quiet :: rest -> env_step st (set_schedule rest st)
| env_race c rest :
    schedule st = RaceCreateChat c :: rest ->
    env_step st (concurrent_insert c (set_schedule rest st)).

(** ** Concrete worlds for the examples *)

Definition alice : User := {| user_id := "alice" |}.
Definition bob : User := {| user_id := "bob" |}.

Definition signed_in (user : User) : AuthResponse :=
  {| auth_user := Some user; auth_error := None |}.

Definition signed_out : AuthResponse :=
  {| auth_user := None; auth_error := Some "Auth session missing!" |}.

Definition demo_models : list Model :=
  [ {| model_id := "gpt-4o-mini"; apiIdentifier := "gpt-4o-mini" |};
    {| model_id := "gpt-4o"; apiIdentifier := "gpt-4o" |} ].

Definition demo_convert (l : list UIMessage) : list CoreMessage :=
  map (fun m => if ui_role m =? "user"
                then UserMessage (UserText (ui_content m))
                else AssistantMessage (AssistantText (ui_content m))) l.

Definition demo_uuid (n : nat) : string :=
  ("uuid-" ++ NilZero.string_of_uint (Nat.to_uint n))%string.

Definition demo_world (session : AuthResponse) (answers : nat -> Round) : World :=
  {| auth := session;
     models := demo_models;
     convertToCoreMessages := demo_convert;
     generateTitleFromUserMessage := fun _ => "A greeting";
     sanitizeResponseMessages := fun l => l;
     nth_uuid := demo_uuid;
     llm := answers;
     timing := fun _ => [] |}.

(** A model that answers with plain text at once. *)
Definition says_hello (k : nat) : Round := RoundOutput "Hello!" [].

Definition empty_state : State :=
  {| chats := []; messages := []; documents := []; suggestions := [];
     uuids := 0; schedule := []; streamingData := []; model_calls := 0;
     rounds := 0; finished := 0; journal := [] |}.

Definition hello : UIMessage :=
  {| ui_id := "m1"; ui_role := "user"; ui_content := "hello" |}.

Definition hello_request (modelId : string) : Request :=
  {| req_id := "chat-1"; req_messages := [hello]; req_modelId := modelId |}.

(** The store once alice has opened the chat ["chat-1"]. *)
Definition alice_chat : Chat :=
  {| chat_id := "chat-1"; chat_user_id := "alice"; chat_title := "A greeting" |}.

Definition alice_state : State :=
  set_messages [ {| msg_id := "m0"; msg_chat_id := "chat-1"; msg_role := "user";
                    msg_content := "hello" |} ]
    (set_chats [alice_chat] empty_state).

(** ** Reading JSON text

    The contract of the codec speaks of JSON arrays and of their elements;
    what a text denotes is settled by reading it.  [JSON_read] is a reader
    for JSON texts without white space, written from the grammar of JSON
    and not from [JSON_stringify]: string literals with their escapes,
    numbers, the three literals, arrays and objects.  A number is returned
    as its text and an object as its members in the order of the text. *)

Definition code (c : ascii) : nat := nat_of_ascii c.

Definition is_digit (c : ascii) : bool := (48 <=? code c)%nat && (code c <=? 57)%nat.

(** The characters of a number token: digits, [-], [+], [.], [e] and [E]. *)
Definition number_char (c : ascii) : bool :=
  is_digit c || (code c =? 45)%nat || (code c =? 43)%nat || (code c =? 46)%nat
  || (code c =? 101)%nat || (code c =? 69)%nat.

Definition number_start (c : ascii) : bool := is_digit c || (code c =? 45)%nat.

Fixpoint all_chars (p : ascii -> bool) (s : string) : bool :=
  match s with
  | EmptyString => true
  | String c rest => p c && all_chars p rest
  end.

Fixpoint skip_digits (s : string) : string :=
  match s with
  | EmptyString => EmptyString
  | String c rest => if is_digit c then skip_digits rest else s
  end.

(** The end of a number: nothing, or an exponent ([e] or [E], an optional
    sign, digits). *)
Definition exponent (s : string) : bool :=
  match s with
  | EmptyString => true
  | String c rest =>
      ((code c =? 101)%nat || (code c =? 69)%nat) &&
      match rest with
      | EmptyString => false
      | String sign after =>
          if (code sign =? 43)%nat || (code sign =? 45)%nat
          then match after with
               | EmptyString => false
               | String d digits => is_digit d && (skip_digits digits =? EmptyString)
               end
          else is_digit sign && (skip_digits after =? EmptyString)
      end
  end.

(** What follows the integer part: an optional fraction (a dot and
    digits), then the end of the number. *)
Definition fraction (s : string) : bool :=
  match s with
  | EmptyString => true
  | String c rest =>
      if (code c =? 46)%nat
      then match rest with
           | EmptyString => false
           | String d digits => is_digit d && exponent (skip_digits digits)
           end
      else exponent s
  end.

(** The text of a number, by the grammar of JSON: an optional minus sign,
    [0] or digits that do not start with [0], an optional fraction and an
    optional exponent. *)
Definition number_literal (text : string) : bool :=
  match (match text with
         | String c rest => if (code c =? 45)%nat then rest else text
         | EmptyString => text
         end) with
  | EmptyString => false
  | String c rest =>
      if (code c =? 48)%nat then fraction rest
      else is_digit c && fraction (skip_digits rest)
  end.

(** The longest prefix made of characters of a number token, and the rest. *)
Fixpoint take_number (s : string) : string * string :=
  match s with
  | EmptyString => (EmptyString, EmptyString)
  | String c rest =>
      if number_char c
      then let (token, after) := take_number rest in (String c token, after)
      else (EmptyString, s)
  end.

Definition hex_value (c : ascii) : option nat :=
  if is_digit c then Some (code c - 48)
  else if (97 <=? code c)%nat && (code c <=? 102)%nat then Some (code c - 87)
  else if (65 <=? code c)%nat && (code c <=? 70)%nat then Some (code c - 55)
  else None.

(** The character that the four hexadecimal digits of [\uXXXX] stand for,
    when it is a single byte. *)
Definition hex4 (h1 h2 h3 h4 : ascii) : option ascii :=
  match hex_value h1, hex_value h2, hex_value h3, hex_value h4 with
  | Some a, Some b, Some c, Some d =>
      let n := ((a * 16 + b) * 16 + c) * 16 + d in
      if (n <? 256)%nat then Some (ascii_of_nat n) else None
  | _, _, _, _ => None
  end.

(** The character that follows a backslash in a two-character escape. *)
Definition unescape (e : ascii) : option ascii :=
  if (code e =? 34)%nat then Some (ascii_of_nat 34)
  else if (code e =? 92)%nat then Some (ascii_of_nat 92)
  else if (code e =? 47)%nat then Some (ascii_of_nat 47)
  else if (code e =? 98)%nat then Some (ascii_of_nat 8)
  else if (code e =? 102)%nat then Some (ascii_of_nat 12)
  else if (code e =? 110)%nat then Some (ascii_of_nat 10)
  else if (code e =? 114)%nat then Some (ascii_of_nat 13)
  else if (code e =? 116)%nat then Some (ascii_of_nat 9)
  else None.

(** One more character in front of the string that was read. *)
Definition cons_char (c : ascii) (r : option (string * string)) : option (string * string) :=
  match r with
  | Some (x, after) => Some (String c x, after)
  | None => None
  end.

(** The rest of a string literal, after its opening quote: the string it
    denotes and what follows the closing quote.  A control character must
    be escaped. *)
Fixpoint read_string (s : string) : option (string * string) :=
  match s with
  | EmptyString => None
  | String c rest =>
      if (code c =? 34)%nat then Some (EmptyString, rest)
      else if (code c =? 92)%nat then
        match rest with
        | EmptyString => None
        | String e rest1 =>
            if (code e =? 117)%nat then
              match rest1 with
              | String h1 (String h2 (String h3 (String h4 rest2))) =>
                  match hex4 h1 h2 h3 h4 with
                  | Some c' => cons_char c' (read_string rest2)
                  | None => None
                  end
              | _ => None
              end
            else
              match unescape e with
              | Some c' => cons_char c' (read_string rest1)
              | None => None
              end
        end
      else if (code c <? 32)%nat then None
      else cons_char c (read_string rest)
  end.

(** A value at the head of a text, the members of an array after its
    first bracket, and the members of an object after its first brace;
    [fuel] bounds the depth of the recursion. *)
Fixpoint read_value (fuel : nat) (s : string) {struct fuel} : option (json * string) :=
  match fuel with
  | 0 => None
  | S fuel' =>
      match s with
      | EmptyString => None
      | String c rest =>
          if (code c =? 34)%nat then
            match read_string rest with
            | Some (x, after) => Some (JString x, after)
            | None => None
            end
          else if (code c =? 91)%nat then
            match rest with
            | EmptyString => None
            | String c' after =>
                if (code c' =? 93)%nat then Some (JArray [], after)
                else
                  match read_elements fuel' rest with
                  | Some (elements, after') => Some (JArray elements, after')
                  | None => None
                  end
            end
          else if (code c =? 123)%nat then
            match rest with
            | EmptyString => None
            | String c' after =>
                if (code c' =? 125)%nat then Some (JObject [], after)
                else
                  match read_fields fuel' rest with
                  | Some (fields, after') => Some (JObject fields, after')
                  | None => None
                  end
            end
          else if number_start c then
            let (token, after) := take_number s in
            if number_literal token then Some (JNumber token, after) else None
          else
            match s with
            | String "n" (String "u" (String "l" (String "l" after))) => Some (JNull, after)
            | String "t" (String "r" (String "u" (String "e" after))) =>
                Some (JBool true, after)
            | String "f" (String "a" (String "l" (String "s" (String "e" after)))) =>
                Some (JBool false, after)
            | _ => None
            end
      end
  end
with read_elements (fuel : nat) (s : string) {struct fuel}
  : option (list json * string) :=
  match fuel with
  | 0 => None
  | S fuel' =>
      match read_value fuel' s with
      | Some (v, String c after) =>
          if (code c =? 44)%nat then
            match read_elements fuel' after with
            | Some (elements, after') => Some (v :: elements, after')
            | None => None
            end
          else if (code c =? 93)%nat then Some ([v], after)
          else None
      | _ => None
      end
  end
with read_fields (fuel : nat) (s : string) {struct fuel}
  : option (list (string * json) * string) :=
  match fuel with
  | 0 => None
  | S fuel' =>
      match s with
      | EmptyString => None
      | String q rest =>
          if (code q =? 34)%nat then
            match read_string rest with
            | Some (key, String colon rest1) =>
                if (code colon =? 58)%nat then
                  match read_value fuel' rest1 with
                  | Some (v, String c after) =>
                      if (code c =? 44)%nat then
                        match read_fields fuel' after with
                        | Some (fields, after') => Some ((key, v) :: fields, after')
                        | None => None
                        end
                      else if (code c =? 125)%nat then Some ([(key, v)], after)
                      else None
                  | _ => None
                  end
                else None
            | _ => None
            end
          else None
      end
  end.

(** The value that a whole text denotes. *)
Definition JSON_read (text : string) : option json :=
  match read_value (S (String.length text)) text with
  | Some (v, EmptyString) => Some v
  | _ => None
  end.

(** ** Values of JavaScript

    A tree stands for a value of JavaScript when its numbers are number
    texts by the grammar of JSON and the keys of each object are distinct
    and in the order of enumeration: the array indices first, ascending,
    then the other keys. *)

(** The array index that a key is, if it is one: a decimal numeral without
    a leading zero, below [2^32 - 1]. *)
Fixpoint numeral (s : string) (acc : N) : option N :=
  match s with
  | EmptyString => Some acc
  | String c rest =>
      if is_digit c then numeral rest (acc * 10 + N.of_nat (code c - 48))%N else None
  end.

Definition array_index (key : string) : option N :=
  match key with
  | EmptyString => None
  | String c rest =>
      if (code c =? 48)%nat && negb (String.eqb rest EmptyString) then None
      else
        match numeral key 0%N with
        | Some n => if (n <? 4294967295)%N then Some n else None
        | None => None
        end
  end.

Fixpoint distinct (keys : list string) : bool :=
  match keys with
  | [] => true
  | key :: rest => negb (existsb (String.eqb key) rest) && distinct rest
  end.

Fixpoint indices_first (previous : option N) (keys : list string) : bool :=
  match keys with
  | [] => true
  | key :: rest =>
      match array_index key with
      | Some n =>
          match previous with
          | Some p => (p <? n)%N
          | None => true
          end && indices_first (Some n) rest
      | None =>
          forallb (fun k => match array_index k with Some _ => false | None => true end) rest
      end
  end.

Definition enumeration_order (keys : list string) : bool :=
  distinct keys && indices_first None keys.

Fixpoint js_value (v : json) : bool :=
  match v with
  | JNull | JBool _ | JString _ => true
  | JNumber text => number_literal text
  | JArray elements => forallb js_value elements
  | JObject fields =>
      forallb (fun kv => js_value (snd kv)) fields && enumeration_order (map fst fields)
  end.


(** What follows a value in a text: nothing, or a character that cannot
    continue a number token. *)
Definition ends_token (rest : string) : Prop :=
  match rest with
  | EmptyString => True
  | String c _ => number_char c = false
  end.

(** The depth that reading a value back needs. *)
Fixpoint weight (v : json) : nat :=
  match v with
  | JNull | JBool _ | JNumber _ | JString _ => 1
  | JArray elements => S (list_sum (map (fun v => S (weight v)) elements))
  | JObject fields => S (list_sum (map (fun kv => S (weight (snd kv))) fields))
  end.

Definition json_induction (P : json -> Prop)
  (Hnull : P JNull) (Hbool : forall b, P (JBool b)) (Hnumber : forall text, P (JNumber text))
  (Hstring : forall s, P (JString s))
  (Harray : forall elements, Forall P elements -> P (JArray elements))
  (Hobject : forall fields, Forall (fun kv => P (snd kv)) fields -> P (JObject fields))
  : forall v, P v :=
  fix IH (v : json) : P v :=
    match v with
    | JNull => Hnull
    | JBool b => Hbool b
    | JNumber text => Hnumber text
    | JString s => Hstring s
    | JArray elements =>
        Harray elements
          ((fix go (l : list json) : Forall P l :=
              match l with
              | [] => Forall_nil P
              | x :: rest => Forall_cons x (IH x) (go rest)
              end) elements)
    | JObject fields =>
        Hobject fields
          ((fix go (l : list (string * json)) : Forall (fun kv => P (snd kv)) l :=
              match l with
              | [] => Forall_nil _
              | kv :: rest => @Forall_cons _ (fun kv => P (snd kv)) kv rest (IH (snd kv)) (go rest)
              end) fields)
    end.

(** Reading a written value gives the value back, whatever follows it,
    when that cannot continue a number. *)
Definition reads_back (v : json) : Prop :=
  js_value v = true ->
  forall fuel rest,
    weight v <= fuel -> ends_token rest ->
    read_value fuel (JSON_stringify v ++ rest) = Some (v, rest).

(** ** The codec, in the words of its contract *)

(** A tool part is well formed when its [type], if present, is not the
    empty string (the type of the SDK only allows ["tool-result"]) and its
    result is a value of JavaScript. *)
Definition well_formed_part (p : ToolResultPart) : Prop :=
  trp_type p <> Some "" /\ js_value (trp_result p) = true.

Definition well_formed_assistant_part (p : AssistantPart) : Prop :=
  match p with
  | TextPart _ => True
  | ToolCallPart _ _ args => js_value args = true
  end.

Definition well_formed (m : CoreMessage) : Prop :=
  match m with
  | UserMessage (UserParts parts) => Forall (fun v => js_value v = true) parts
  | ToolMessage parts => Forall well_formed_part parts
  | AssistantMessage (AssistantParts parts) => Forall well_formed_assistant_part parts
  | _ => True
  end.

(** The elements that the contract names. *)
Definition text_element (text : string) : json :=
  JObject [ ("type", JString "text"); ("text", JString text) ].

Definition tool_call_element (toolCallId toolName : string) (args : json) : json :=
  JObject [ ("type", JString "tool-call"); ("toolCallId", JString toolCallId);
            ("toolName", JString toolName); ("args", args) ].

Definition tool_result_element (p : ToolResultPart) : json :=
  JObject [ ("type", JString (match trp_type p with
                              | Some type => type
                              | None => "tool-result"
                              end));
            ("toolCallId", JString (trp_toolCallId p));
            ("toolName", JString (trp_toolName p));
            ("result", trp_result p) ].

Definition assistant_element (p : AssistantPart) : json :=
  match p with
  | TextPart text => text_element text
  | ToolCallPart toolCallId toolName args => tool_call_element toolCallId toolName args
  end.

(** What the contract says of the text returned for a message: a user's
    string is returned as it is, every other content of a user, a tool or
    an assistant as a text that denotes the array of its elements, and the
    empty text for any other role. *)
Definition contract (m : CoreMessage) (text : string) : Prop :=
  match m with
  | UserMessage (UserText content) => text = content
  | UserMessage (UserParts parts) => JSON_read text = Some (JArray parts)
  | ToolMessage parts => JSON_read text = Some (JArray (map tool_result_element parts))
  | AssistantMessage (AssistantText content) =>
      JSON_read text = Some (JArray [ text_element content ])
  | AssistantMessage (AssistantParts parts) =>
      JSON_read text = Some (JArray (map assistant_element parts))
  | SystemMessage _ => text = EmptyString
  end.

(** A tool result with a fraction, and a text with a quote, a backslash
    and a line feed. *)
Definition weather_result : ToolResultPart :=
  {| trp_type := None; trp_toolCallId := "call-1"; trp_toolName := "getWeather";
     trp_result := JObject [ ("temperature_2m", JNumber "21.4") ] |}.

Definition awkward_text : string :=
  ("say " ++ dquote ++ "hi" ++ dquote ++ backslash ++ chr 10)%string.

(** ** Requests, ownership and the tools *)

Definition registered (w : World) (modelId : string) : option Model :=
  find (fun model => model_id model =? modelId) (models w).

(** The rows of a chat are as before: the chat row itself and the table of
    messages. *)
Definition rows_kept (id : string) (st st' : State) : Prop :=
  chat_rows id st' = chat_rows id st /\ messages st' = messages st.

Definition bob_world : World := demo_world (signed_in bob) says_hello.

Definition next_is_no_fault (l : list Interference) : Prop :=
  match l with
  | i :: _ => ~ is_fault i
  | [] => True
  end.

Definition racing_state : State :=
  set_schedule [Quiet; RaceCreateChat alice_chat] empty_state.

(** The text deltas of a stream, in order. *)
Fixpoint text_deltas (fullStream : list TextStreamPart) : list string :=
  match fullStream with
  | [] => []
  | TextDeltaPart textDelta :: rest => textDelta :: text_deltas rest
  | OtherStreamPart _ :: rest => text_deltas rest
  end.

(** [draftText += textDelta], delta after delta. *)
Definition accumulate (draftText : string) (deltas : list string) : string :=
  fold_left String.append deltas draftText.

Definition delta_events (deltas : list string) : list MuxOp :=
  map (fun textDelta => OpAppend (EvTextDelta textDelta)) deltas.

(** What the journal records while a [fullStream] is consumed: every part
    as it arrives, a text delta being forwarded at once. *)
Fixpoint stream_steps (fullStream : list TextStreamPart) : list Effect :=
  match fullStream with
  | [] => []
  | TextDeltaPart textDelta :: rest =>
      PartArrived (TextDeltaPart textDelta)
      :: Called (OpAppend (EvTextDelta textDelta)) :: stream_steps rest
  | OtherStreamPart type :: rest => PartArrived (OtherStreamPart type) :: stream_steps rest
  end.

Definition plan_stream : list TextStreamPart :=
  [ TextDeltaPart "# Plan"; OtherStreamPart "step-finish"; TextDeltaPart " of the week" ].

(** The suggestions built from the elements of a stream, the first one
    taking the [n]-th UUID. *)
Fixpoint suggestions_of (w : World) (docId : string) (n : nat)
  (elementStream : list SuggestionElement) : list Suggestion :=
  match elementStream with
  | [] => []
  | element :: rest =>
      {| originalText := originalSentence element;
         suggestedText := suggestedSentence element;
         description := el_description element;
         sug_id := nth_uuid w n;
         documentId := docId;
         isResolved := false |} :: suggestions_of w docId (S n) rest
  end.

(** What the journal records while an [elementStream] is consumed: every
    element as it arrives, followed at once by the event that carries its
    suggestion. *)
Fixpoint suggestion_steps (elementStream : list SuggestionElement)
  (collected : list Suggestion) : list Effect :=
  match elementStream, collected with
  | element :: rest, suggestion :: others =>
      ElementArrived element
      :: Called (OpAppend (EvSuggestion suggestion)) :: suggestion_steps rest others
  | _, _ => []
  end.

Definition suggestion_events (l : list Suggestion) : list MuxOp :=
  map (fun suggestion => OpAppend (EvSuggestion suggestion)) l.

Definition suggestion_rows (user : User) (l : list Suggestion) : list SuggestionRow :=
  map (fun suggestion => {| row_suggestion := suggestion; row_userId := user_id user |}) l.

Definition latest_document (docId : string) (st : State) : option DocumentRow :=
  find (fun d => doc_id d =? docId) (rev (documents st)).

Definition six_elements : list SuggestionElement :=
  map (fun s => {| originalSentence := s; suggestedSentence := s; el_description := "typo" |})
    [ "a"; "b"; "c"; "d"; "e"; "f" ].

Definition document_state : State :=
  set_documents [ {| doc_id := "doc-1"; doc_title := "Plan";
                     doc_content := Some "a b c d e f"; doc_user_id := "alice" |} ]
    empty_state.

(** A model that asks for the weather in every round. *)
Definition always_weather (k : nat) : Round :=
  RoundOutput ""
    [ CallGetWeather "call" "52.52" "13.41" (JObject [ ("temperature_2m", JNumber "21.4") ]) ].

(** A model that asks for the weather and whose provider then fails. *)
Definition weather_then_down (k : nat) : Round :=
  match k with
  | 0 => always_weather 0
  | S _ => RoundFailed "provider down"
  end.

(** A model that asks for a document and then answers with text. *)
Definition document_then_text (k : nat) : Round :=
  match k with
  | 0 => RoundOutput "" [ CallCreateDocument "call" "Plan" plan_stream ]
  | S _ => RoundOutput "Done." []
  end.

(** The same world, the tools of each round taking their turns as
    [turns] says. *)
Definition with_timing (w : World) (turns : nat -> list Turn) : World :=
  {| auth := auth w;
     models := models w;
     convertToCoreMessages := convertToCoreMessages w;
     generateTitleFromUserMessage := generateTitleFromUserMessage w;
     sanitizeResponseMessages := sanitizeResponseMessages w;
     nth_uuid := nth_uuid w;
     llm := llm w;
     timing := turns |}.

(** A model that asks for two documents in one answer and then answers
    with text. *)
Definition two_documents (k : nat) : Round :=
  match k with
  | 0 => RoundOutput ""
           [ CallCreateDocument "call-a" "Plan" [ TextDeltaPart "P1"; TextDeltaPart "P2" ];
             CallCreateDocument "call-b" "Notes" [ TextDeltaPart "N1" ] ]
  | S _ => RoundOutput "Done." []
  end.

(** Both tools are started, and then they go on in turn, one [await]
    each. *)
Definition alternately (k : nat) : list Turn :=
  [ StartNext; StartNext; Resume 0; Resume 1; Resume 0; Resume 1; Resume 0; Resume 1;
    Resume 1; Resume 1 ].

(** The first tool is run to its end before the second call arrives. *)
Definition one_by_one (k : nat) : list Turn :=
  [ StartNext; Resume 0; Resume 0; Resume 0; Resume 0; Resume 0; Resume 0; Resume 0 ].

(** ** Relations that every step of a turn preserves

    A relation is stable when it is reflexive and transitive and holds
    across each elementary step of a turn: a step of the environment,
    drawing a UUID, calling the model, counting a round or a finished
    generation, one more call on the [StreamData] object, one more entry
    in the journal, and appending rows to the tables of messages,
    documents and suggestions. *)

Class Stable (R : State -> State -> Prop) : Prop := {
  stable_refl : forall st, R st st;
  stable_trans : forall a b c, R a b -> R b c -> R a c;
  stable_quiet : forall st rest,
    schedule st = Quiet :: rest -> R st (set_schedule rest st);
  stable_fault : forall st message rest,
    schedule st = Fault message :: rest -> R st (set_schedule rest st);
  stable_race : forall st c rest,
    schedule st = RaceCreateChat c :: rest ->
    R st (concurrent_insert c (set_schedule rest st));
  stable_uuid : forall st, R st (set_uuids (S (uuids st)) st);
  stable_model_call : forall st, R st (set_model_calls (S (model_calls st)) st);
  stable_round : forall st, R st (set_rounds (S (rounds st)) st);
  stable_finished : forall st, R st (set_finished (S (finished st)) st);
  stable_stream : forall st op,
    R st (set_streamingData (streamingData st ++ [op]) st);
  stable_messages : forall st rows, R st (set_messages (messages st ++ rows) st);
  stable_documents : forall st row, R st (set_documents (documents st ++ [row]) st);
  stable_suggestions : forall st rows,
    R st (set_suggestions (suggestions st ++ rows) st);
  stable_journal : forall st e, R st (record e st)
}.

(** [l'] is [l] followed by further elements. *)
Definition extends {A} (l l' : list A) : Prop := exists k, l' = l ++ k.

(** Nothing is removed or rewritten: tables and the trace of the stream
    are extended, counters do not decrease. *)
Definition grows (st st' : State) : Prop :=
  extends (chats st) (chats st') /\
  extends (messages st) (messages st') /\
  extends (documents st) (documents st') /\
  extends (suggestions st) (suggestions st') /\
  extends (streamingData st) (streamingData st') /\
  extends (journal st) (journal st') /\
  uuids st <= uuids st' /\
  model_calls st <= model_calls st' /\
  rounds st <= rounds st' /\
  finished st <= finished st'.

(** No interference is scheduled: every store operation runs at once and
    no other request creates a chat meanwhile. *)
Definition quiet (st : State) : Prop := schedule st = [].

(** From a quiet state the state stays quiet and the table of chats is as
    it was. *)
Definition quiet_chats (st st' : State) : Prop :=
  quiet st -> quiet st' /\ chats st' = chats st.

(** The [try] block of POST (4.5 to 4.11) and its [catch] block (4.12),
    once the user, the model and the user's message are known. *)
Definition attempt (w : World) (user : User) (id : string) (userMessage : CoreMessage)
  : M (option Response) :=
  chat <- getChatById id ;;
  match chat with
  | None =>
      title <- title_action w userMessage ;;
      saveChat {| chat_id := id; chat_user_id := user_id user; chat_title := title |} ;;;
      turn w user id userMessage
  | Some chat =>
      if negb (chat_user_id chat =? user_id user)
      then ret (Some (PlainResponse "Unauthorized" 401))
      else turn w user id userMessage
  end.

Definition recover (w : World) (id : string) (userMessage : CoreMessage) (error : string)
  : M (option Response) :=
  if error =? "Chat ID already exists"
  then save_user_message w id userMessage ;;; ret None
  else throw error.

(** The chat row that POST creates for a new chat. *)
Definition new_chat (w : World) (user : User) (id : string) (userMessage : CoreMessage)
  : Chat :=
  {| chat_id := id; chat_user_id := user_id user;
     chat_title := generateTitleFromUserMessage w userMessage |}.

(** The rows of the messages of one chat. *)
Definition messages_of (id : string) (st : State) : list MessageRow :=
  filter (fun m => msg_chat_id m =? id) (messages st).

(** The rows [onFinish] builds for the response messages, the first one
    taking the [n]-th UUID. *)
Fixpoint response_rows (w : World) (id : string) (n : nat) (l : list CoreMessage)
  : list MessageRow :=
  match l with
  | [] => []
  | message :: rest =>
      user_message_row id (nth_uuid w n) message :: response_rows w id (S n) rest
  end.

(** One annotation per assistant row, carrying the id of the row. *)
Definition annotations (rows : list MessageRow) : list MuxOp :=
  map (fun row => OpAnnotation (msg_id row))
    (filter (fun row => msg_role row =? "assistant") rows).

Definition is_event (op : MuxOp) : Prop :=
  match op with
  | OpAppend _ => True
  | _ => False
  end.

(** Only events are appended to the stream; no round is started and no
    generation finished. *)
Definition events_only (st st' : State) : Prop :=
  (exists t, streamingData st' = streamingData st ++ t /\ Forall is_event t) /\
  finished st' = finished st /\
  rounds st' = rounds st.

Definition alice_world : World := demo_world (signed_in alice) says_hello.

Definition gpt_4o : Model := {| model_id := "gpt-4o"; apiIdentifier := "gpt-4o" |}.

Definition hello_message : CoreMessage := UserMessage (UserText "hello").

Definition plain_answer : list CoreMessage :=
  [ ToolMessage [ weather_result ];
    AssistantMessage (AssistantText "It is 21 degrees.") ].

(** * The retry helpers ([withRetry] of the database rules and of the AI
    rules)

    An operation is given by what its calls do, call after call; a run
    records how it settles, how often the operation was called and the
    milliseconds of delay asked of [setTimeout] in total.  [maxRetries]
    is a natural number. *)

(** A thrown value, as far as the helpers look at it: [error.code],
    [error instanceof AIError] and [error.retryable]. *)
Record JsError : Type := {
  err_message : string;
  err_code : option string;
  err_is_AIError : bool;
  err_retryable : bool
}.

Inductive Attempt (T : Type) : Type :=
| Succeeds (value : T)
| Fails (error : JsError).

Arguments Succeeds {T} value.
Arguments Fails {T} error.

(** How the promise settles; [Rejected None] is a rejection with
    [undefined]. *)
Inductive Settled (T : Type) : Type :=
| Resolved (value : T)
| Rejected (error : option JsError).

Arguments Resolved {T} value.
Arguments Rejected {T} error.

Record RetryRun (T : Type) : Type := {
  settled : Settled T;
  calls : nat;
  waited : nat
}.

Arguments settled {T} r.
Arguments calls {T} r.
Arguments waited {T} r.

(** [error.code === '42501'] *)
Definition permission_denied (error : JsError) : bool :=
  match err_code error with
  | Some code => code =? "42501"
  | None => false
  end.

(** The [for] loop of the database [withRetry], from iteration [i] with
    [remaining] iterations to go. *)
Fixpoint withRetry_loop {T} (operation : nat -> Attempt T) (maxRetries : nat)
  (remaining i : nat) (lastError : option JsError) (delay : nat) : RetryRun T :=
  match remaining with
  | 0 => {| settled := Rejected lastError; calls := i; waited := delay |}
  | S remaining' =>
      match operation i with
      | Succeeds value => {| settled := Resolved value; calls := S i; waited := delay |}
      | Fails error =>
          if permission_denied error
          then {| settled := Rejected (Some error); calls := S i; waited := delay |}
          else withRetry_loop operation maxRetries remaining' (S i) (Some error)
                 (if (i <? maxRetries - 1)%nat then delay + 1000 * (i + 1) else delay)
      end
  end.

Definition withRetry {T} (operation : nat -> Attempt T) (maxRetries : nat) : RetryRun T :=
  withRetry_loop operation maxRetries maxRetries 0 None 0.

(** [error instanceof AIError && !error.retryable] *)
Definition not_retryable (error : JsError) : bool :=
  err_is_AIError error && negb (err_retryable error).

(** The [for] loop of the AI [withRetry]; [break] leaves the loop for the
    final [throw lastError]. *)
Fixpoint withRetry_ai_loop {T} (operation : nat -> Attempt T) (maxRetries delay : nat)
  (remaining i : nat) (lastError : option JsError) (slept : nat) : RetryRun T :=
  match remaining with
  | 0 => {| settled := Rejected lastError; calls := i; waited := slept |}
  | S remaining' =>
      match operation i with
      | Succeeds value => {| settled := Resolved value; calls := S i; waited := slept |}
      | Fails error =>
          if not_retryable error
          then {| settled := Rejected (Some error); calls := S i; waited := slept |}
          else if (i =? maxRetries - 1)%nat
          then {| settled := Rejected (Some error); calls := S i; waited := slept |}
          else withRetry_ai_loop operation maxRetries delay remaining' (S i) (Some error)
                 (slept + delay * (i + 1))
      end
  end.

Definition withRetry_ai {T} (operation : nat -> Attempt T) (maxRetries delay : nat)
  : RetryRun T :=
  withRetry_ai_loop operation maxRetries delay maxRetries 0 None 0.

(** The first [k] calls fail with errors that allow a retry. *)
Definition fails_first {T} (fatal : JsError -> bool) (operation : nat -> Attempt T)
  (k : nat) : Prop :=
  forall j, j < k -> exists error, operation j = Fails error /\ fatal error = false.

(** The delays after the failures of iterations [i], [i+1], ...: [k] of
    them, in units of [unit] milliseconds. *)
Fixpoint backoff (unit i k : nat) : nat :=
  match k with
  | 0 => 0
  | S k' => unit * (i + 1) + backoff unit (S i) k'
  end.

(** An operation that fails twice with a timeout and then succeeds. *)
Definition flaky (j : nat) : Attempt string :=
  if (j <? 2)%nat
  then Fails {| err_message := "timeout"; err_code := Some "57014";
                err_is_AIError := false; err_retryable := false |}
  else Succeeds "row".

Definition denied : JsError :=
  {| err_message := "permission denied"; err_code := Some "42501";
     err_is_AIError := true; err_retryable := false |}.

(** An operation that fails once with a timeout and then is denied. *)
Definition forbidden (j : nat) : Attempt string :=
  if (j <? 1)%nat
  then Fails {| err_message := "timeout"; err_code := Some "57014";
                err_is_AIError := false; err_retryable := false |}
  else Fails denied.

(** * Properties *)

(** Reads the fields of states that are built with the setters. *)
Ltac fields :=
  cbn [record set_chats set_messages set_documents set_suggestions set_uuids
         set_schedule set_streamingData set_model_calls set_rounds set_finished
         set_journal chats messages documents suggestions uuids schedule
         streamingData model_calls rounds finished journal].

Tactic Notation "fields" "in" hyp(H) :=
  cbn [record set_chats set_messages set_documents set_suggestions set_uuids
         set_schedule set_streamingData set_model_calls set_rounds set_finished
         set_journal chats messages documents suggestions uuids schedule
         streamingData model_calls rounds finished journal] in H.

(** ** Frame lemmas *)

Section Respects.

Context (R : State -> State -> Prop) `{Frame R}.

Lemma respects_ret A (a : A) : respects R (ret a).
Proof. intros st. apply frame_refl. Qed.

Lemma respects_throw A e : respects R (@throw A e).
Proof. intros st. apply frame_refl. Qed.

Lemma respects_gets A (f : State -> A) : respects R (gets f).
Proof. intros st. apply frame_refl. Qed.

Lemma respects_bind A B (m : M A) (k : A -> M B) :
  respects R m -> (forall a, respects R (k a)) -> respects R (bind m k).
Proof.
  intros Hm Hk st. unfold bind. specialize (Hm st).
  destruct (m st) as [[a | e] st1]; simpl in *.
  - eapply frame_trans; [exact Hm | apply Hk].
  - exact Hm.
Qed.

Lemma respects_try_catch A (body : M A) (handler : string -> M A) :
  respects R body -> (forall e, respects R (handler e)) ->
  respects R (try_catch body handler).
Proof.
  intros Hb Hh st. unfold try_catch. specialize (Hb st).
  destruct (body st) as [[a | e] st1]; simpl in *.
  - exact Hb.
  - eapply frame_trans; [exact Hb | apply Hh].
Qed.

Lemma respects_mapM A B (f : A -> M B) (l : list A) :
  (forall a, respects R (f a)) -> respects R (mapM f l).
Proof.
  intros Hf. induction l as [| a rest IH]; simpl.
  - apply respects_ret.
  - apply respects_bind; [apply Hf |]. intros b.
    apply respects_bind; [exact IH |]. intros bs. apply respects_ret.
Qed.

Lemma respects_record e st st' : R st st' -> R st (record e st').
Proof. intros Hr. eapply frame_trans; [exact Hr | apply frame_journal]. Qed.

Lemma respects_concurrent_insert c st : R st (concurrent_insert c st).
Proof.
  unfold concurrent_insert. destruct (has_chat _ _).
  - apply frame_refl.
  - apply frame_chats.
Qed.

Lemma respects_store_op A (body : M A) :
  respects R body -> respects R (store_op body).
Proof.
  intros Hb st. unfold store_op.
  destruct (schedule st) as [| [| message | c] rest].
  - apply Hb.
  - eapply frame_trans; [apply frame_schedule | apply Hb].
  - simpl. apply frame_schedule.
  - eapply frame_trans; [apply frame_schedule |].
    eapply frame_trans; [apply respects_concurrent_insert | apply Hb].
Qed.

Lemma respects_getChatById id : respects R (getChatById id).
Proof. apply respects_store_op, respects_gets. Qed.

Lemma respects_getDocumentById id : respects R (getDocumentById id).
Proof. apply respects_store_op, respects_gets. Qed.

Lemma respects_saveChat c : respects R (saveChat c).
Proof.
  apply respects_store_op. intros st. cbv beta.
  destruct (has_chat (chat_id c) (chats st)); simpl.
  - apply frame_refl.
  - apply respects_record, frame_chats.
Qed.

Lemma respects_saveMessages id rows : respects R (saveMessages id rows).
Proof. apply respects_store_op. intros st. apply respects_record, frame_messages. Qed.

Lemma respects_saveDocument row : respects R (saveDocument row).
Proof. apply respects_store_op. intros st. apply respects_record, frame_documents. Qed.

Lemma respects_saveSuggestions rows : respects R (saveSuggestions rows).
Proof. apply respects_store_op. intros st. apply respects_record, frame_suggestions. Qed.

Lemma respects_deleteChatById id userId : respects R (deleteChatById id userId).
Proof.
  apply respects_store_op. intros st. apply respects_record.
  destruct (existsb _ _).
  - eapply frame_trans; [apply frame_chats | apply frame_messages].
  - apply frame_refl.
Qed.

Lemma respects_generateUUID w : respects R (generateUUID w).
Proof. intros st. apply frame_uuids. Qed.

Lemma respects_call_model purpose : respects R (call_model purpose).
Proof. intros st. apply respects_record, frame_model_calls. Qed.

Lemma respects_arrives e : respects R (arrives e).
Proof. intros st. apply respects_record, frame_refl. Qed.

Lemma respects_getUser w : respects R (getUser w).
Proof.
  unfold getUser. destruct (auth_error (auth w)), (auth_user (auth w));
    first [apply respects_ret | apply respects_throw].
Qed.

Lemma respects_save_user_message w id userMessage :
  respects R (save_user_message w id userMessage).
Proof.
  apply respects_bind; [apply respects_generateUUID |].
  intros messageId. apply respects_saveMessages.
Qed.

Lemma respects_title_action w userMessage : respects R (title_action w userMessage).
Proof.
  apply respects_bind; [apply respects_call_model |]. intros _. apply respects_ret.
Qed.

End Respects.

(** ** Two frames *)

#[export] Instance untouched_Frame : Frame untouched.
Proof.
  split; unfold untouched; simpl; try (intros; tauto).
  intros a b c (H1 & H2 & H3) (H4 & H5 & H6). repeat split; congruence.
Qed.

#[export] Instance writes_only_Frame : Frame writes_only.
Proof.
  assert (Hid : forall l : list MuxOp, exists t, l = l ++ t /\ Forall is_write t).
  { intros l. exists []. rewrite app_nil_r. auto. }
  split; unfold writes_only; simpl; try (intros; split; [apply Hid | tauto]).
  intros a b c ((t1 & E1 & F1) & H2 & H3) ((t2 & E2 & F2) & H5 & H6).
  split; [| split; congruence].
  exists (t1 ++ t2). split.
  - rewrite E2, E1, app_assoc. reflexivity.
  - apply Forall_app. auto.
Qed.

Lemma respects_append e : respects writes_only (append e).
Proof.
  intros st. split; [| simpl; tauto].
  exists [OpAppend e]. simpl. split; [reflexivity |]. repeat constructor.
Qed.

Lemma respects_appendMessageAnnotation x :
  respects writes_only (appendMessageAnnotation x).
Proof.
  intros st. split; [| simpl; tauto].
  exists [OpAnnotation x]. simpl. split; [reflexivity |]. repeat constructor.
Qed.

(** Applies a frame lemma and discharges its [Frame] premise. *)
Ltac fapply lem :=
  apply lem;
  try match goal with |- Frame _ => typeclasses eauto end.

(** Proves [respects R m] for code built from the operations above. *)
Ltac frame :=
  repeat first
    [ fapply respects_ret
    | fapply respects_throw
    | fapply respects_append
    | fapply respects_appendMessageAnnotation
    | fapply respects_generateUUID
    | fapply respects_call_model
    | fapply respects_arrives
    | fapply respects_getUser
    | fapply respects_getChatById
    | fapply respects_getDocumentById
    | fapply respects_saveChat
    | fapply respects_saveDocument
    | fapply respects_saveSuggestions
    | fapply respects_saveMessages
    | fapply respects_save_user_message
    | fapply respects_title_action
    | fapply respects_deleteChatById
    | fapply respects_bind; [| intros ?]
    | match goal with
      | |- respects _ (if ?b then _ else _) => destruct b
      | |- respects _ (match ?x with _ => _ end) => destruct x
      end ].

(** ** Tasks and the tools of a round *)

Section Tasks.

Variable R : State -> State -> Prop.
Hypothesis R_refl : forall st, R st st.
Hypothesis R_trans : forall a b c, R a b -> R b c -> R a c.

Lemma starts_ret task : task_respects R task -> starts R (ret task).
Proof. intros Ht st. split; [apply R_refl | exact Ht]. Qed.

Lemma starts_bind A (m : M A) (k : A -> M Task) :
  respects R m -> (forall a, starts R (k a)) -> starts R (bind m k).
Proof.
  intros Hm Hk st. unfold bind. specialize (Hm st).
  destruct (m st) as [[a | e] st1]; simpl in Hm.
  - destruct (Hk a st1) as [H1 H2]. split; [eapply R_trans; eauto | exact H2].
  - split; [exact Hm | exact I].
Qed.

Lemma settles_ret A (P : A -> Prop) a : P a -> settles R P (ret a).
Proof. intros Ha st. exists a, st. auto. Qed.

Lemma settles_bind A B (P : A -> Prop) (Q : B -> Prop) (m : M A) (k : A -> M B) :
  settles R P m -> (forall a, P a -> settles R Q (k a)) -> settles R Q (bind m k).
Proof.
  intros Hm Hk st. unfold bind.
  destruct (Hm st) as (a & st1 & -> & H1 & Ha).
  destruct (Hk a Ha st1) as (b & st2 & E & H2 & Hb).
  exists b, st2. eauto.
Qed.

Lemma settles_weaken A (P Q : A -> Prop) (m : M A) :
  (forall a, P a -> Q a) -> settles R P m -> settles R Q m.
Proof.
  intros Hpq Hm st. destruct (Hm st) as (a & st1 & E & H1 & Ha). eauto 6.
Qed.

Lemma settles_respects A (P : A -> Prop) (m : M A) : settles R P m -> respects R m.
Proof. intros Hm st. destruct (Hm st) as (a & st1 & -> & H1 & _). exact H1. Qed.

Lemma settles_mapM A B (Q : A -> Prop) (P : B -> Prop) (f : A -> M B) (l : list A) :
  (forall a, Q a -> settles R P (f a)) -> Forall Q l -> settles R (Forall P) (mapM f l).
Proof.
  intros Hf. induction l as [| a rest IH]; intros Hl; cbn [mapM].
  - apply settles_ret. constructor.
  - inversion Hl as [| ? ? Ha Hrest]; subst.
    eapply settles_bind; [apply Hf, Ha | intros b Hb].
    eapply settles_bind; [apply IH, Hrest | intros bs Hbs].
    apply settles_ret. constructor; assumption.
Qed.

(** A tool that throws yields a task all the same: the one that has
    returned the error. *)
Lemma settles_guarded m : starts R m -> settles R (task_respects R) (guarded m).
Proof.
  intros Hm st. unfold guarded, try_catch. destruct (Hm st) as [H1 H2].
  destruct (m st) as [[task | e] st1]; simpl in H1.
  - exists task, st1. auto.
  - exists (Returned (failure e)), st1. simpl. auto.
Qed.

Lemma settles_resume_task task :
  task_respects R task -> settles R (task_respects R) (resume_task task).
Proof.
  destruct task as [result | resume]; intros Ht; cbn [resume_task].
  - apply settles_ret. exact Ht.
  - apply settles_guarded. exact Ht.
Qed.

Lemma settles_resume_nth pool :
  Forall (task_respects R) pool ->
  forall n, settles R (Forall (task_respects R)) (resume_nth n pool).
Proof.
  induction pool as [| task rest IH]; intros Hp n.
  - destruct n; apply settles_ret; constructor.
  - inversion Hp as [| ? ? Ht Hrest]; subst. destruct n as [| n]; cbn [resume_nth].
    + eapply settles_bind; [apply settles_resume_task, Ht | intros task' Ht'].
      apply settles_ret. constructor; assumption.
    + eapply settles_bind; [apply IH, Hrest | intros rest' Hrest'].
      apply settles_ret. constructor; assumption.
Qed.

Lemma settles_finish task :
  task_respects R task -> settles R (fun _ => True) (finish task).
Proof.
  induction task as [result | resume IH] using Task_induction; intros Ht st;
    cbn [finish].
  - exists result, st. auto.
  - destruct (Ht st) as [H1 H2]. specialize (IH st).
    destruct (resume st) as [[task' | e] st1]; simpl in H1.
    + destruct (IH H2 st1) as (result & st2 & E & H3 & _).
      exists result, st2. eauto.
    + exists (failure e), st1. auto.
Qed.

(** However the tools of a round take their turns, the round stays inside
    the frame and yields its results. *)
Lemma settles_run_tools start :
  (forall call, starts R (start call)) ->
  forall turns pending pool,
    Forall (task_respects R) pool ->
    settles R (fun _ => True) (run_tools start turns pending pool).
Proof.
  intros Hstart. induction turns as [| [| n] turns IH]; intros pending pool Hp;
    cbn [run_tools].
  - eapply settles_bind.
    + apply settles_mapM with (Q := fun _ => True).
      * intros call _. apply settles_guarded, Hstart.
      * apply Forall_forall. trivial.
    + intros rest Hrest. cbv beta.
      eapply settles_weaken;
        [| apply settles_mapM with (Q := task_respects R) (P := fun _ => True)].
      * trivial.
      * intros task. apply settles_finish.
      * apply Forall_app. auto.
  - destruct pending as [| call pending]; [apply IH, Hp |].
    eapply settles_bind; [apply settles_guarded, Hstart | intros task Ht].
    apply IH, Forall_app. auto.
  - eapply settles_bind; [apply settles_resume_nth, Hp | intros pool' Hp'].
    apply IH, Hp'.
Qed.

End Tasks.

(** A round without tool calls runs no tool. *)
Lemma run_tools_none start turns st : run_tools start turns [] [] st = (Ok [], st).
Proof.
  induction turns as [| [| n] turns IH]; cbn [run_tools].
  - reflexivity.
  - exact IH.
  - unfold bind. destruct n; cbn [resume_nth ret]; exact IH.
Qed.

(** The four tools as tasks, for a frame that each operation of the tools
    respects. *)
Section ToolTasks.

Variable R : State -> State -> Prop.
Hypothesis R_refl : forall st, R st st.
Hypothesis R_trans : forall a b c, R a b -> R b c -> R a c.
Hypothesis R_append : forall event, respects R (append event).
Hypothesis R_arrives : forall e, respects R (arrives e).
Hypothesis R_call_model : forall purpose, respects R (call_model purpose).
Hypothesis R_generateUUID : forall w, respects R (generateUUID w).
Hypothesis R_getDocumentById : forall id, respects R (getDocumentById id).
Hypothesis R_saveDocument : forall row, respects R (saveDocument row).
Hypothesis R_saveSuggestions : forall rows, respects R (saveSuggestions rows).

Variable w : World.
Variable user : User.

Lemma task_respects_awaited task :
  task_respects R task -> task_respects R (awaited task).
Proof. intros Ht st. split; [apply R_refl | exact Ht]. Qed.

Lemma task_respects_await_fullStream fullStream :
  forall draftText after,
    (forall text, starts R (after text)) ->
    task_respects R (await_fullStream fullStream draftText after).
Proof.
  induction fullStream as [| delta rest IH]; intros draftText after Hafter;
    cbn [await_fullStream].
  - apply Hafter.
  - change (starts R (arrives (PartArrived delta) ;;;
                      match delta with
                      | TextDeltaPart textDelta =>
                          append (EvTextDelta textDelta) ;;;
                          ret (await_fullStream rest (draftText ++ textDelta) after)
                      | OtherStreamPart _ => ret (await_fullStream rest draftText after)
                      end)).
    apply starts_bind; [exact R_trans | apply R_arrives | intros _].
    destruct delta.
    + apply starts_bind; [exact R_trans | apply R_append | intros _].
      apply starts_ret; [exact R_refl |]. apply IH, Hafter.
    + apply starts_ret; [exact R_refl |]. apply IH, Hafter.
Qed.

Lemma task_respects_await_elementStream docId elementStream :
  forall acc after,
    (forall collected, starts R (after collected)) ->
    task_respects R (await_elementStream w docId elementStream acc after).
Proof.
  induction elementStream as [| element rest IH]; intros acc after Hafter;
    cbn [await_elementStream].
  - apply Hafter.
  - match goal with
    | |- task_respects R (Awaiting ?resume) => change (starts R resume)
    end.
    apply starts_bind; [exact R_trans | apply R_arrives | intros _].
    apply starts_bind; [exact R_trans | apply R_generateUUID | intros id].
    apply starts_bind; [exact R_trans | apply R_append | intros _].
    apply starts_ret; [exact R_refl |]. apply IH, Hafter.
Qed.

Lemma starts_execute_task call : starts R (execute_task w user call).
Proof.
  destruct call; cbn [execute_task];
    unfold getWeather_task, createDocument_task, updateDocument_task,
      requestSuggestions_task.
  - apply starts_ret; [exact R_refl |]. do 2 apply task_respects_awaited. exact I.
  - apply starts_bind; [exact R_trans | apply R_generateUUID | intros id].
    do 3 (apply starts_bind; [exact R_trans | apply R_append | intros _]).
    apply starts_bind; [exact R_trans | apply R_call_model | intros _].
    apply starts_ret; [exact R_refl |]. apply task_respects_awaited.
    apply task_respects_await_fullStream. intros draftText.
    apply starts_bind; [exact R_trans | apply R_append | intros _].
    destruct (truthy (user_id user)).
    + apply starts_bind; [exact R_trans | apply R_saveDocument | intros _].
      apply starts_ret; [exact R_refl |]. apply task_respects_awaited. exact I.
    + apply starts_ret; [exact R_refl | exact I].
  - apply starts_bind; [exact R_trans | apply R_getDocumentById | intros document].
    apply starts_ret; [exact R_refl |].
    match goal with
    | |- task_respects R (Awaiting ?resume) => change (starts R resume)
    end.
    destruct document as [document |].
    2:{ apply starts_ret; [exact R_refl | exact I]. }
    apply starts_bind; [exact R_trans | apply R_append | intros _].
    apply starts_bind; [exact R_trans | apply R_call_model | intros _].
    apply starts_ret; [exact R_refl |]. apply task_respects_awaited.
    apply task_respects_await_fullStream. intros draftText.
    apply starts_bind; [exact R_trans | apply R_append | intros _].
    destruct (truthy (user_id user)).
    + apply starts_bind; [exact R_trans | apply R_saveDocument | intros _].
      apply starts_ret; [exact R_refl |]. apply task_respects_awaited. exact I.
    + apply starts_ret; [exact R_refl | exact I].
  - apply starts_bind; [exact R_trans | apply R_getDocumentById | intros document].
    apply starts_ret; [exact R_refl |].
    match goal with
    | |- task_respects R (Awaiting ?resume) => change (starts R resume)
    end.
    destruct (usable_content document) as [usable |].
    2:{ apply starts_ret; [exact R_refl | exact I]. }
    apply starts_bind; [exact R_trans | apply R_call_model | intros _].
    apply starts_ret; [exact R_refl |]. apply task_respects_awaited.
    apply task_respects_await_elementStream. intros collected.
    destruct (truthy (user_id user)).
    + apply starts_bind; [exact R_trans | apply R_saveSuggestions | intros _].
      apply starts_ret; [exact R_refl |]. apply task_respects_awaited. exact I.
    + apply starts_ret; [exact R_refl | exact I].
Qed.

(** The tools of a round, in whatever order they take their turns. *)
Lemma settles_tools turns toolCalls :
  settles R (fun _ => True) (run_tools (execute_task w user) turns toolCalls []).
Proof.
  apply settles_run_tools; [exact R_refl | exact R_trans | | constructor].
  intros call. apply starts_execute_task.
Qed.

End ToolTasks.

(** ** A tool as a task and as the function of section 4.8 *)

Lemma bind_assoc_at A B C (m : M A) (k : A -> M B) (h : B -> M C) st :
  bind (bind m k) h st = bind m (fun a => bind (k a) h) st.
Proof. unfold bind. destruct (m st) as [[a | e] st1]; reflexivity. Qed.

Lemma bind_ext A B (m : M A) (k k' : A -> M B) st :
  (forall a st', k a st' = k' a st') -> bind m k st = bind m k' st.
Proof. intros Hk. unfold bind. destruct (m st) as [[a | e] st1]; [apply Hk | reflexivity]. Qed.

Lemma bind_ret_at A B (a : A) (k : A -> M B) st : bind (ret a) k st = k a st.
Proof. reflexivity. Qed.

Lemma alone_awaiting resume st : alone (Awaiting resume) st = bind resume alone st.
Proof. cbn [alone]. unfold bind. destruct (resume st) as [[task | e] st1]; reflexivity. Qed.

Lemma alone_awaited task st : alone (awaited task) st = alone task st.
Proof. reflexivity. Qed.

(** Both sides run the same computation first: compare what follows. *)
Ltac along :=
  rewrite ?bind_assoc_at; apply bind_ext; intros ? ?.

Lemma alone_await_fullStream fullStream :
  forall draftText after st,
    alone (await_fullStream fullStream draftText after) st
    = bind (consume_fullStream fullStream draftText)
        (fun text => bind (after text) alone) st.
Proof.
  induction fullStream as [| delta rest IH]; intros draftText after st;
    cbn [await_fullStream consume_fullStream]; rewrite alone_awaiting.
  - reflexivity.
  - along. destruct delta as [textDelta | other].
    + along. rewrite bind_ret_at. apply IH.
    + rewrite bind_ret_at. apply IH.
Qed.

Lemma alone_await_elementStream w docId elementStream :
  forall acc after st,
    alone (await_elementStream w docId elementStream acc after) st
    = bind (consume_elementStream w docId elementStream acc)
        (fun collected => bind (after collected) alone) st.
Proof.
  induction elementStream as [| element rest IH]; intros acc after st;
    cbn [await_elementStream consume_elementStream]; rewrite alone_awaiting.
  - reflexivity.
  - do 3 along. rewrite bind_ret_at. apply IH.
Qed.

(** A tool that runs without any other is the tool of section 4.8, from
    its call to its return. *)
Lemma alone_execute_task w user call st :
  bind (execute_task w user call) alone st = execute w user call st.
Proof.
  destruct call; cbn [execute_task execute];
    unfold getWeather_task, createDocument_task, updateDocument_task,
      requestSuggestions_task, getWeather, createDocument, updateDocument,
      requestSuggestions.
  - reflexivity.
  - do 5 along. rewrite bind_ret_at, alone_awaited, alone_await_fullStream.
    apply bind_ext. intros draftText st1. along.
    destruct (truthy (user_id user)).
    + along. reflexivity.
    + reflexivity.
  - along. rewrite bind_ret_at, alone_awaiting.
    destruct a as [document |]; [| reflexivity].
    do 2 along. rewrite bind_ret_at, alone_awaited, alone_await_fullStream.
    apply bind_ext. intros draftText st1. along.
    destruct (truthy (user_id user)).
    + along. reflexivity.
    + reflexivity.
  - along. rewrite bind_ret_at, alone_awaiting.
    destruct (usable_content a) as [document |]; [| reflexivity].
    along. rewrite bind_ret_at, alone_awaited, alone_await_elementStream.
    apply bind_ext. intros collected st1.
    destruct (truthy (user_id user)).
    + along. reflexivity.
    + reflexivity.
Qed.

(** To finish a task is to run it alone, an exception becoming the
    result. *)
Lemma finish_alone task :
  forall st, finish task st = try_catch (alone task) (fun message => ret (failure message)) st.
Proof.
  induction task as [result | resume IH] using Task_induction; intros st.
  - reflexivity.
  - cbn [finish alone]. unfold try_catch in *. specialize (IH st).
    destruct (resume st) as [[task' | e] st1]; [apply IH | reflexivity].
Qed.

Lemma finish_resume_task task st :
  bind (resume_task task) finish st = finish task st.
Proof.
  destruct task as [result | resume]; [reflexivity |].
  cbn [resume_task finish]. unfold bind, guarded, try_catch.
  destruct (resume st) as [[task' | e] st1]; reflexivity.
Qed.

Lemma resume_nth_nil n : resume_nth n [] = ret [].
Proof. destruct n; reflexivity. Qed.

Lemma run_tools_one_started start turns :
  forall task st, run_tools start turns [] [task] st = mapM finish [task] st.
Proof.
  induction turns as [| [| n] turns IH]; intros task st; cbn [run_tools].
  - reflexivity.
  - apply IH.
  - destruct n as [| n]; cbn [resume_nth].
    + rewrite bind_assoc_at.
      transitivity (bind (resume_task task) (fun task' => mapM finish [task']) st).
      { apply bind_ext. intros task' st1. rewrite bind_ret_at. apply IH. }
      cbn [mapM]. rewrite <- bind_assoc_at. unfold bind at 1 3.
      rewrite (finish_resume_task task st). reflexivity.
    + rewrite resume_nth_nil, bind_assoc_at, !bind_ret_at. apply IH.
Qed.

Lemma run_tools_one start turns :
  forall call st,
    run_tools start turns [call] [] st
    = bind (guarded (start call)) (fun task => mapM finish [task]) st.
Proof.
  induction turns as [| [| n] turns IH]; intros call st; cbn [run_tools].
  - cbn [mapM]. rewrite !bind_assoc_at. apply bind_ext. intros task st1. reflexivity.
  - apply bind_ext. intros task st1. apply run_tools_one_started.
  - rewrite resume_nth_nil, bind_ret_at. apply IH.
Qed.

(** A round with one tool call: whatever the turns, the tool runs from its
    call to its return, and its exception becomes the result. *)
Lemma single_tool_call w user turns call st :
  run_tools (execute_task w user) turns [call] [] st
  = bind (try_catch (execute w user call) (fun message => ret (failure message)))
      (fun result => ret [result]) st.
Proof.
  rewrite run_tools_one. cbn [mapM].
  unfold guarded, try_catch, bind at 1 4.
  rewrite <- alone_execute_task. unfold bind at 3.
  destruct (execute_task w user call st) as [[task | e] st1].
  - unfold bind at 1. rewrite finish_alone. unfold try_catch.
    destruct (alone task st1) as [[result | e] st2]; reflexivity.
  - reflexivity.
Qed.

Section ToolFrames.

Variable w : World.
Variable user : User.

Lemma respects_consume_fullStream fullStream :
  forall draftText, respects writes_only (consume_fullStream fullStream draftText).
Proof.
  induction fullStream as [| part rest IH]; intros draftText;
    cbn [consume_fullStream].
  - frame.
  - fapply respects_bind; [frame | intros _].
    destruct part; [| apply IH].
    fapply respects_bind; [frame | intros _; apply IH].
Qed.

Lemma respects_consume_elementStream docId elementStream :
  forall acc, respects writes_only (consume_elementStream w docId elementStream acc).
Proof.
  induction elementStream as [| element rest IH]; intros acc;
    cbn [consume_elementStream].
  - frame.
  - fapply respects_bind; [frame | intros _].
    fapply respects_bind; [frame | intros id].
    fapply respects_bind; [frame | intros _; apply IH].
Qed.

Lemma respects_execute call : respects writes_only (execute w user call).
Proof.
  destruct call; cbn [execute];
    unfold getWeather, createDocument, updateDocument, requestSuggestions.
  - frame.
  - fapply respects_bind; [frame | intros id].
    do 4 (fapply respects_bind; [frame | intros _]).
    fapply respects_bind; [apply respects_consume_fullStream | intros draftText].
    frame.
  - fapply respects_bind; [frame | intros [document |]]; [| frame].
    do 2 (fapply respects_bind; [frame | intros _]).
    fapply respects_bind; [apply respects_consume_fullStream | intros draftText].
    frame.
  - fapply respects_bind; [frame | intros document].
    destruct (usable_content document); [| frame].
    fapply respects_bind; [frame | intros _].
    fapply respects_bind; [apply respects_consume_elementStream | intros collected].
    frame.
Qed.

End ToolFrames.

(** Every tool the model can call is among the active tools. *)
Lemma call_name_active call : In (call_name call) allTools.
Proof. destruct call; simpl; tauto. Qed.

(** ** Reading a trace *)

Lemma closes_app a b : closes (a ++ b) = closes a + closes b.
Proof.
  induction a as [| op a IH]; simpl; [reflexivity |].
  destruct op; simpl; rewrite IH; reflexivity.
Qed.

Lemma closes_writes t : Forall is_write t -> closes t = 0.
Proof.
  induction 1 as [| op t Hop _ IH]; simpl; [reflexivity |].
  destruct op; simpl in *; tauto.
Qed.

Lemma written_after_close_writes t :
  Forall is_write t -> written_after_close false (t ++ [OpClose]) = false.
Proof.
  induction 1 as [| op t Hop _ IH]; simpl; [reflexivity |].
  destruct op; simpl in *; tauto.
Qed.

Lemma written_after_close_open t :
  Forall is_write t -> written_after_close false t = false.
Proof.
  induction 1 as [| op t Hop _ IH]; simpl; [reflexivity |].
  destruct op; simpl in *; tauto.
Qed.

(** ** The generation loop, [onFinish] and a whole turn *)

Lemma writes_only_loop_frame n a b c :
  rounds b = S (rounds a) -> streamingData b = streamingData a ->
  finished b = finished a ->
  loop_frame n b c -> loop_frame (S n) a c.
Proof.
  intros Hr Hs Hf ((t & E & F) & H2 & H3). split; [| split].
  - exists t. rewrite E, Hs. auto.
  - congruence.
  - lia.
Qed.

Lemma loop_frame_step n a b c :
  writes_only a b -> loop_frame n b c -> loop_frame n a c.
Proof.
  intros ((t1 & E1 & F1) & H2 & H3) ((t2 & E2 & F2) & H5 & H6).
  split; [| split].
  - exists (t1 ++ t2). rewrite E2, E1, app_assoc. split; [reflexivity |].
    apply Forall_app; auto.
  - congruence.
  - lia.
Qed.

Lemma writes_only_is_loop_frame n a b : writes_only a b -> loop_frame n a b.
Proof. intros (H1 & H2 & H3). split; [exact H1 | split; [exact H2 | lia]]. Qed.

(** The tools of a round write to the stream and do nothing else to it,
    and the round always yields its results, also when a tool throws. *)
Lemma tools_write_only w user turns toolCalls :
  settles writes_only (fun _ => True)
    (run_tools (execute_task w user) turns toolCalls []).
Proof.
  apply settles_tools.
  - apply frame_refl.
  - apply frame_trans.
  - apply respects_append.
  - intros e. fapply respects_arrives.
  - intros purpose. fapply respects_call_model.
  - intros w'. fapply respects_generateUUID.
  - intros id. fapply respects_getDocumentById.
  - intros row. fapply respects_saveDocument.
  - intros rows. fapply respects_saveSuggestions.
Qed.

Lemma generation_loop_frame w user answers turns :
  forall steps k text toolCalls st,
    loop_frame steps st
      (snd (generation_loop (execute_task w user) answers turns steps k text toolCalls st)).
Proof.
  induction steps as [| steps IH]; intros k text toolCalls st;
    cbn [generation_loop]; unfold bind at 1;
    destruct (tools_write_only w user (turns k) toolCalls st)
      as (results & st1 & -> & Hm & _).
  - destruct toolCalls; simpl; apply writes_only_is_loop_frame; exact Hm.
  - destruct toolCalls as [| call calls].
    { simpl. apply writes_only_is_loop_frame. exact Hm. }
    eapply loop_frame_step; [exact Hm |].
    unfold bind at 1 2. cbn [call_model count_round modify].
    set (st2 := set_rounds _ _).
    apply writes_only_loop_frame with (b := st2); try reflexivity.
    destruct (answers (S k)) as [message | text' toolCalls'].
    + simpl. apply writes_only_is_loop_frame, frame_refl.
    + unfold bind. specialize (IH (S k) text' toolCalls' st2).
      destruct (generation_loop (execute_task w user) answers turns steps (S k) text'
                  toolCalls' st2)
        as [[rest | e] st3]; simpl in *; exact IH.
Qed.

(** The generation ends normally exactly when the provider answers every
    round that is run. *)
Lemma generation_loop_result w user answers turns :
  forall steps k text toolCalls st,
    answers k = RoundOutput text toolCalls ->
    match fst (generation_loop (execute_task w user) answers turns steps k text
                 toolCalls st) with
    | Ok _ => completes answers steps k = true
    | Thrown _ => completes answers steps k = false
    end.
Proof.
  induction steps as [| steps IH]; intros k text toolCalls st Hk;
    cbn [generation_loop completes]; rewrite Hk; unfold bind at 1;
    destruct (tools_write_only w user (turns k) toolCalls st)
      as (results & st1 & -> & _ & _).
  - destruct toolCalls; reflexivity.
  - destruct toolCalls as [| call calls]; [reflexivity |].
    unfold bind at 1 2. cbn [call_model count_round modify].
    destruct (answers (S k)) as [message | text' toolCalls'] eqn:Hk'.
    + simpl. destruct steps; cbn [completes]; rewrite Hk'; reflexivity.
    + unfold bind.
      match goal with
      | |- context [generation_loop _ answers turns steps (S k) text' toolCalls' ?s] =>
          specialize (IH (S k) text' toolCalls' s Hk')
      end.
      destruct (generation_loop _ answers turns steps (S k) text' toolCalls' _)
        as [[rest | e] st3]; simpl in *; exact IH.
Qed.

Lemma try_catch_swallow (body : M unit) st :
  fst (try_catch body (fun _ => ret tt) st) = Ok tt.
Proof.
  unfold try_catch. destruct (body st) as [[[] | e] st1]; reflexivity.
Qed.

Lemma onFinish_trace w user id responseMessages st :
  exists st' body,
    onFinish w user id responseMessages st = (Ok tt, st') /\
    finished st' = S (finished st) /\
    rounds st' = rounds st /\
    streamingData st' = streamingData st ++ body ++ [OpClose] /\
    Forall is_write body.
Proof.
  unfold onFinish. unfold bind at 1. cbn [count_finished modify].
  set (st1 := set_finished _ _).
  set (save := if truthy (user_id user) then _ else _).
  assert (Hok : fst (save st1) = Ok tt).
  { subst save. destruct (truthy (user_id user)); [apply try_catch_swallow | reflexivity]. }
  assert (Hw : writes_only st1 (snd (save st1))).
  { subst save. destruct (truthy (user_id user)); [| apply frame_refl].
    fapply respects_try_catch; [| intros e; frame].
    fapply respects_bind; [| intros rows; frame].
    fapply respects_mapM. intros message. frame. }
  unfold bind. destruct (save st1) as [[[] | e] st2]; simpl in Hok, Hw; [| discriminate].
  destruct Hw as ((t & E & F) & H2 & H3). subst st1. simpl in *.
  eexists. exists t. split; [reflexivity |]. simpl.
  rewrite E, app_assoc. auto.
Qed.

Lemma turn_trace w user id userMessage st r st' :
  turn w user id userMessage st = (r, st') -> turn_outcome w st r st'.
Proof.
  unfold turn. unfold bind at 1.
  pose proof (@respects_save_user_message untouched _ w id userMessage st) as H1.
  destruct (save_user_message w id userMessage st) as [[[] | e] st1];
    simpl in H1; destruct H1 as (E1 & F1 & R1).
  2:{ intros [= <- <-]. apply turn_failed with (t := []); try lia.
      - rewrite app_nil_r. exact E1.
      - left. reflexivity. }
  unfold bind at 1. cbn [new_StreamData stream_call modify].
  set (st2 := record _ _).
  cbn [streamText]. unfold bind at 1 2 3. cbn [call_model count_round modify].
  set (st3 := set_rounds _ _).
  assert (E3 : streamingData st3 = streamingData st ++ [OpNew])
    by (subst st3 st2; simpl; rewrite E1; reflexivity).
  assert (F3 : finished st3 = finished st) by (subst st3 st2; simpl; exact F1).
  assert (R3 : rounds st3 = S (rounds st)) by (subst st3 st2; simpl; rewrite R1; reflexivity).
  clearbody st3. clear st2.
  destruct (llm w 0) as [message | text toolCalls] eqn:Hk.
  { intros [= <- <-]. apply turn_failed with (t := [OpNew]).
    - exact E3.
    - right. split; [reflexivity | exists message; exact Hk].
    - exact F3.
    - lia. }
  unfold while_streaming. unfold bind at 1.
  pose proof (@generation_loop_frame w user (llm w) (timing w) 4 0 text toolCalls st3)
    as H2.
  pose proof (@generation_loop_result w user (llm w) (timing w) 4 0 text toolCalls st3 Hk)
    as H3.
  destruct (generation_loop (execute_task w user) (llm w) (timing w) 4 0 text toolCalls st3)
    as [[responseMessages | e] st4];
    simpl in H2, H3; destruct H2 as ((t & E2 & W2) & F2 & R2).
  - destruct (onFinish_trace w user id responseMessages st4)
      as (st5 & body & -> & F5 & R5 & E5 & W5).
    cbn [snd ret]. intros [= <- <-]. apply turn_streamed with (body := t ++ body).
    + exact H3.
    + rewrite E5, E2, E3. rewrite <- !app_assoc. reflexivity.
    + apply Forall_app. auto.
    + rewrite F5, F2, F3. reflexivity.
    + rewrite R5. lia.
  - cbn [snd ret]. intros [= <- <-]. apply turn_broken with (body := t).
    + exact H3.
    + rewrite E2, E3, <- app_assoc. reflexivity.
    + exact W2.
    + rewrite F2. exact F3.
    + lia.
Qed.

(** ** A whole POST request *)

Lemma getUser_cases w st :
  (exists user, auth_user (auth w) = Some user /\ auth_error (auth w) = None /\
                getUser w st = (Ok user, st)) \/
  ((auth_user (auth w) = None \/ auth_error (auth w) <> None) /\
   getUser w st = (Thrown "Unauthorized", st)).
Proof.
  unfold getUser.
  destruct (auth_error (auth w)) as [e |], (auth_user (auth w)) as [user |]; simpl.
  - right. split; [right; discriminate | reflexivity].
  - right. split; [left; reflexivity | reflexivity].
  - left. exists user. auto.
  - right. split; [left; reflexivity | reflexivity].
Qed.

Lemma left_open_trace w t :
  left_open w t -> closes t = 0 /\ written_after_close false t = false.
Proof. intros [-> | (-> & _)]; split; reflexivity. Qed.

Lemma close_discipline_untouched w st r st' :
  untouched st st' ->
  match r with Ok (Some DataStreamResponse) => False | _ => True end ->
  close_discipline w st r st'.
Proof.
  intros (E & F & R) Hr. exists []. rewrite app_nil_r. simpl.
  repeat split; try congruence; try lia.
  destruct r as [[[] |] |]; simpl in *; try contradiction; try reflexivity;
    left; reflexivity.
Qed.

Lemma close_discipline_turn w st st1 r st' :
  untouched st st1 -> turn_outcome w st1 r st' -> close_discipline w st r st'.
Proof.
  intros (E & F & R) H.
  destruct H as [st' body C E' W F' R' | st' body C E' W F' R' | e st' t E' L F' R'].
  - exists (OpNew :: body ++ [OpClose]).
    assert (Hc : closes (OpNew :: body ++ [OpClose]) = 1).
    { simpl. rewrite closes_app, (closes_writes W). reflexivity. }
    rewrite Hc, C. repeat split; try congruence; try lia.
    + simpl. apply written_after_close_writes. exact W.
    + eexists. reflexivity.
  - exists (OpNew :: body).
    assert (Hc : closes (OpNew :: body) = 0) by (simpl; apply closes_writes; exact W).
    rewrite Hc, C. repeat split; try congruence; try lia.
    + simpl. apply written_after_close_open. exact W.
    + eexists. reflexivity.
  - exists t. destruct (left_open_trace L) as (C & A). rewrite C.
    repeat split; first [congruence | lia | exact L].
Qed.

(** After a failed attempt the [catch] block adds nothing to the trace. *)
Lemma close_discipline_caught w st e st1 r st' :
  close_discipline w st (Thrown e) st1 ->
  untouched st1 st' ->
  match r with Ok (Some _) => False | _ => True end ->
  close_discipline w st r st'.
Proof.
  intros (t & E & A & F & R & C) (E' & F' & R') Hr.
  exists t. repeat split; try congruence; try lia.
  destruct r as [[[] |] |]; simpl in *; auto; contradiction.
Qed.

Lemma POST_discipline w request st r st' :
  POST w request st = (r, st') -> close_discipline w st r st'.
Proof.
  unfold POST. unfold bind at 1.
  destruct (getUser_cases w st) as [(user & _ & _ & ->) | (_ & ->)].
  2:{ intros [= <- <-]. apply close_discipline_untouched; [apply frame_refl | exact I]. }
  destruct (find _ (models w)) as [model |].
  2:{ intros [= <- <-]. apply close_discipline_untouched; [apply frame_refl | exact I]. }
  destruct (getMostRecentUserMessage _) as [userMessage |].
  2:{ intros [= <- <-]. apply close_discipline_untouched; [apply frame_refl | exact I]. }
  cbv zeta. fold (turn w user (req_id request) userMessage).
  set (id := req_id request).
  unfold try_catch.
  match goal with |- context [bind (getChatById id) ?k] => set (body := bind (getChatById id) k) end.
  assert (Hbody : forall rb stb, body st = (rb, stb) ->
            close_discipline w st rb stb /\ rb <> Ok None).
  { subst body. unfold bind at 1.
    pose proof (@respects_getChatById untouched _ id st) as H1.
    destruct (getChatById id st) as [[chat | e] st1]; simpl in H1.
    2:{ intros rb stb [= <- <-]. split; [| discriminate].
        apply close_discipline_untouched; [exact H1 | exact I]. }
    assert (Hturn : forall st2 rb stb, untouched st st2 ->
              turn w user id userMessage st2 = (rb, stb) ->
              close_discipline w st rb stb /\ rb <> Ok None).
    { intros st2 rb stb U Ht. apply turn_trace in Ht.
      split; [eapply close_discipline_turn; eauto |].
      destruct Ht; discriminate. }
    destruct chat as [chat |].
    - destruct (negb (chat_user_id chat =? user_id user)).
      + intros rb stb [= <- <-]. split; [| discriminate].
        apply close_discipline_untouched; [exact H1 | exact I].
      + intros rb stb. apply Hturn. exact H1.
    - unfold bind at 1.
      pose proof (@respects_title_action untouched _ w userMessage st1) as H2.
      destruct (title_action w userMessage st1) as [[title | e] st2]; simpl in H2.
      2:{ intros rb stb [= <- <-].
          assert (U : untouched st st2) by (eapply frame_trans; eauto).
          split; [| discriminate].
          apply close_discipline_untouched; [exact U | exact I]. }
      unfold bind at 1.
      pose proof (@respects_saveChat untouched _
                    {| chat_id := id; chat_user_id := user_id user; chat_title := title |} st2)
        as H3.
      destruct (saveChat _ st2) as [[[] | e] st3]; simpl in H3.
      + intros rb stb. apply Hturn.
        eapply frame_trans; [exact H1 |]. eapply frame_trans; eauto.
      + intros rb stb [= <- <-].
        assert (U : untouched st st3).
        { eapply frame_trans; [exact H1 |]. eapply frame_trans; eauto. }
        split; [| discriminate].
        apply close_discipline_untouched; [exact U | exact I]. }
  destruct (body st) as [[a | e] stb].
  - intros [= <- <-]. apply (Hbody _ _ eq_refl).
  - destruct (Hbody _ _ eq_refl) as (Hd & _).
    destruct (e =? "Chat ID already exists").
    + unfold bind.
      pose proof (@respects_save_user_message untouched _ w id userMessage stb) as H4.
      destruct (save_user_message w id userMessage stb) as [[[] | e'] st4]; simpl in H4;
        intros [= <- <-]; eapply close_discipline_caught; eauto; exact I.
    + intros [= <- <-]. exact Hd.
Qed.

(** ** Store operations that are not made to fail *)

Lemma store_op_calm A (body : M A) st :
  calm st -> exists st0, env_step st st0 /\ store_op body st = body st0.
Proof.
  unfold calm, store_op. intros Hc.
  destruct (schedule st) as [| [| message | c] rest] eqn:E.
  - exists st. split; [apply env_idle; exact E | reflexivity].
  - eexists. split; [apply env_quiet; exact E | reflexivity].
  - exfalso. apply Hc. exact I.
  - eexists. split; [apply env_race; exact E | reflexivity].
Qed.

Lemma fault_free_calm st : fault_free st -> calm st.
Proof.
  unfold fault_free, calm. destruct (schedule st); [auto |].
  intros H. inversion H. assumption.
Qed.

Lemma concurrent_insert_fields c st :
  messages (concurrent_insert c st) = messages st /\
  documents (concurrent_insert c st) = documents st /\
  suggestions (concurrent_insert c st) = suggestions st /\
  uuids (concurrent_insert c st) = uuids st /\
  schedule (concurrent_insert c st) = schedule st /\
  streamingData (concurrent_insert c st) = streamingData st /\
  model_calls (concurrent_insert c st) = model_calls st /\
  rounds (concurrent_insert c st) = rounds st /\
  finished (concurrent_insert c st) = finished st /\
  journal (concurrent_insert c st) = journal st.
Proof.
  unfold concurrent_insert. destruct (has_chat _ _); simpl; repeat split.
Qed.

(** The environment never touches messages, documents, suggestions, the
    UUID counter, the stream, the counters or the journal. *)
Lemma env_step_fields st st0 :
  env_step st st0 ->
  messages st0 = messages st /\
  documents st0 = documents st /\
  suggestions st0 = suggestions st /\
  uuids st0 = uuids st /\
  streamingData st0 = streamingData st /\
  model_calls st0 = model_calls st /\
  rounds st0 = rounds st /\
  finished st0 = finished st /\
  journal st0 = journal st.
Proof.
  intros [E | rest E | c rest E]; simpl; try tauto.
  pose proof (concurrent_insert_fields c (set_schedule rest st)) as H. simpl in H.
  tauto.
Qed.

Lemma env_step_fault_free st st0 : env_step st st0 -> fault_free st -> fault_free st0.
Proof.
  unfold fault_free. intros [E | rest E | c rest E] H; [exact H | |].
  - simpl. rewrite E in H. inversion H. assumption.
  - pose proof (concurrent_insert_fields c (set_schedule rest st)) as (_ & _ & _ & _ & -> & _).
    simpl. rewrite E in H. inversion H. assumption.
Qed.

Lemma has_chat_find id l :
  has_chat id l = true <-> exists c, find (fun c => chat_id c =? id) l = Some c.
Proof.
  unfold has_chat. induction l as [| c l IH]; simpl.
  - split; [discriminate | intros (c & H); discriminate].
  - destruct (chat_id c =? id); simpl.
    + split; [intros _; exists c; reflexivity | reflexivity].
    + exact IH.
Qed.

Lemma find_app_some A (f : A -> bool) l l' x :
  find f l = Some x -> find f (l ++ l') = Some x.
Proof.
  induction l as [| a l IH]; simpl; [discriminate |].
  destruct (f a); auto.
Qed.

(** A chat that exists stays the one found, and its rows stay as they
    are, whatever the environment does. *)
Lemma env_step_keeps_chat id chat st st0 :
  env_step st st0 ->
  find (fun c => chat_id c =? id) (chats st) = Some chat ->
  find (fun c => chat_id c =? id) (chats st0) = Some chat /\
  chat_rows id st0 = chat_rows id st.
Proof.
  intros [E | rest E | c rest E] Hf; simpl; auto.
  unfold concurrent_insert, chat_rows. simpl.
  destruct (has_chat (chat_id c) (chats st)) eqn:Hh; simpl; auto.
  destruct (chat_id c =? id) eqn:Hc.
  - apply String.eqb_eq in Hc. subst id.
    assert (has_chat (chat_id c) (chats st) = true)
      by (apply has_chat_find; eauto).
    congruence.
  - split.
    + apply find_app_some. exact Hf.
    + rewrite filter_app. simpl. rewrite Hc, app_nil_r. reflexivity.
Qed.

Lemma getChatById_found id chat st :
  calm st ->
  find (fun c => chat_id c =? id) (chats st) = Some chat ->
  exists st0, env_step st st0 /\ getChatById id st = (Ok (Some chat), st0).
Proof.
  intros Hc Hf. unfold getChatById.
  destruct (@store_op_calm _ (gets (fun st => find (fun c => chat_id c =? id) (chats st))) st Hc)
    as (st0 & Hs & ->).
  exists st0. split; [exact Hs |]. unfold gets.
  destruct (@env_step_keeps_chat id chat st st0 Hs Hf) as (-> & _). reflexivity.
Qed.

(** ** The codec *)

Lemma string_app_assoc (a b c : string) : ((a ++ b) ++ c)%string = (a ++ b ++ c)%string.
Proof. induction a as [| x a IH]; simpl; [reflexivity | rewrite IH; reflexivity]. Qed.

Lemma string_app_nil (a : string) : (a ++ "")%string = a.
Proof. induction a as [| x a IH]; simpl; [reflexivity | rewrite IH; reflexivity]. Qed.

Lemma string_app_length (a b : string) :
  String.length (a ++ b) = String.length a + String.length b.
Proof. induction a as [| x a IH]; simpl; [reflexivity | rewrite IH; reflexivity]. Qed.

(** The reader at work: numbers with fractions and exponents, nesting,
    escapes; and texts that are not JSON. *)
Example JSON_read_values :
  JSON_read "[-0.5,1e+21,true,null,{},[[]]]"
  = Some (JArray [ JNumber "-0.5"; JNumber "1e+21"; JBool true; JNull; JObject [];
                   JArray [ JArray [] ] ]) /\
  JSON_read (dquote ++ "a" ++ backslash ++ "u000a" ++ backslash ++ "tb" ++ dquote)%string
  = Some (JString ("a" ++ chr 10 ++ chr 9 ++ "b")%string) /\
  JSON_read ("{" ++ dquote ++ "k" ++ dquote ++ ":[1]}")%string
  = Some (JObject [ ("k", JArray [ JNumber "1" ]) ]).
Proof. repeat split. Qed.

Example JSON_read_rejects :
  JSON_read "" = None /\
  JSON_read "[1,2" = None /\
  JSON_read "[1,]" = None /\
  JSON_read "01" = None /\
  JSON_read "1." = None /\
  JSON_read "nul" = None /\
  JSON_read "[1] " = None /\
  JSON_read (dquote ++ "a" ++ chr 10 ++ dquote)%string = None /\
  JSON_read (dquote ++ "a")%string = None.
Proof. repeat split. Qed.

(** An escaped character is read back as the character. *)
Lemma read_string_escape_char (c : ascii) (tail : string) :
  read_string (escape_char c ++ tail) = cons_char c (read_string tail).
Proof.
  destruct c as [b0 b1 b2 b3 b4 b5 b6 b7];
    destruct b0, b1, b2, b3, b4, b5, b6, b7; reflexivity.
Qed.

(** A string literal is read back as the string it was written from. *)
Lemma read_string_escape (s rest : string) :
  read_string (escape s ++ dquote ++ rest) = Some (s, rest).
Proof.
  induction s as [| c s IH]; [reflexivity |].
  cbn [escape]. rewrite string_app_assoc, read_string_escape_char, IH. reflexivity.
Qed.

Lemma read_string_quoted (s rest : string) :
  read_string (escape s ++ String (ascii_of_nat 34) rest) = Some (s, rest).
Proof. exact (read_string_escape s rest). Qed.

Lemma take_number_literal (text rest : string) :
  all_chars number_char text = true -> ends_token rest ->
  take_number (text ++ rest) = (text, rest).
Proof.
  intros Hall Hrest. induction text as [| c text IH]; cbn [String.append take_number].
  - destruct rest as [| c rest]; [reflexivity |]. unfold ends_token in Hrest.
    cbn [take_number]. rewrite Hrest. reflexivity.
  - cbn [all_chars] in Hall. apply andb_prop in Hall. destruct Hall as (Hc & Hall).
    rewrite Hc, (IH Hall). reflexivity.
Qed.

Lemma digit_number_char c : is_digit c = true -> number_char c = true.
Proof. unfold number_char. intros ->. reflexivity. Qed.

Lemma number_char_of c :
  (code c =? 45)%nat || (code c =? 43)%nat || (code c =? 46)%nat
  || (code c =? 101)%nat || (code c =? 69)%nat = true ->
  number_char c = true.
Proof.
  unfold number_char. intros H. destruct (is_digit c); [reflexivity |].
  cbn [orb]. exact H.
Qed.

Lemma all_chars_skip_digits s :
  all_chars number_char (skip_digits s) = true -> all_chars number_char s = true.
Proof.
  induction s as [| c s IH]; [reflexivity |]. cbn [skip_digits all_chars].
  destruct (is_digit c) eqn:Hd.
  - intros H. rewrite (digit_number_char c Hd), (IH H). reflexivity.
  - cbn [all_chars]. auto.
Qed.

Lemma skip_digits_nil s :
  (skip_digits s =? EmptyString) = true -> all_chars number_char s = true.
Proof.
  intros H. apply all_chars_skip_digits. apply String.eqb_eq in H. rewrite H. reflexivity.
Qed.

Lemma exponent_chars s : exponent s = true -> all_chars number_char s = true.
Proof.
  destruct s as [| c rest]; [reflexivity |]. cbn [exponent all_chars].
  intros H. apply andb_prop in H. destruct H as (Hc & H).
  assert (Hn : number_char c = true).
  { apply number_char_of. apply orb_prop in Hc. destruct Hc as [-> | ->];
      rewrite ?orb_true_r; reflexivity. }
  rewrite Hn. cbn [andb].
  destruct rest as [| sign after]; [discriminate |]. cbn [all_chars].
  destruct ((code sign =? 43)%nat || (code sign =? 45)%nat) eqn:Hs.
  - assert (Hsn : number_char sign = true).
    { apply number_char_of. apply orb_prop in Hs. destruct Hs as [-> | ->];
        rewrite ?orb_true_r; reflexivity. }
    rewrite Hsn. cbn [andb].
    destruct after as [| d digits]; [discriminate |]. cbn [all_chars].
    apply andb_prop in H. destruct H as (Hd & H).
    rewrite (digit_number_char d Hd), (skip_digits_nil digits H). reflexivity.
  - apply andb_prop in H. destruct H as (Hd & H).
    rewrite (digit_number_char sign Hd), (skip_digits_nil after H). reflexivity.
Qed.

Lemma fraction_chars s : fraction s = true -> all_chars number_char s = true.
Proof.
  destruct s as [| c rest]; [reflexivity |]. unfold fraction.
  destruct (code c =? 46)%nat eqn:Hc; [| apply exponent_chars].
  cbn [all_chars].
  assert (Hn : number_char c = true).
  { apply number_char_of. rewrite Hc. rewrite ?orb_true_r. reflexivity. }
  rewrite Hn. cbn [andb].
  destruct rest as [| d digits]; [discriminate |]. cbn [all_chars].
  intros H. apply andb_prop in H. destruct H as (Hd & H).
  rewrite (digit_number_char d Hd). cbn [andb].
  apply all_chars_skip_digits, exponent_chars, H.
Qed.

Lemma unsigned_chars c rest :
  (if (code c =? 48)%nat then fraction rest else is_digit c && fraction (skip_digits rest))
  = true ->
  is_digit c = true /\ all_chars number_char rest = true.
Proof.
  destruct (code c =? 48)%nat eqn:Hc.
  - intros H. split; [| apply fraction_chars, H].
    apply Nat.eqb_eq in Hc. unfold is_digit. rewrite Hc. reflexivity.
  - intros H. apply andb_prop in H. destruct H as (Hd & H). split; [exact Hd |].
    apply all_chars_skip_digits, fraction_chars, H.
Qed.

(** A number text starts as a number does and consists of the characters
    of a number token. *)
Lemma number_literal_chars text :
  number_literal text = true ->
  exists c rest, text = String c rest /\ number_start c = true /\
                 all_chars number_char rest = true.
Proof.
  unfold number_literal. destruct text as [| c rest]; [discriminate |].
  destruct (code c =? 45)%nat eqn:Hc.
  - destruct rest as [| d digits]; [discriminate |].
    intros H. apply unsigned_chars in H. destruct H as (Hd & Hall).
    exists c, (String d digits). split; [reflexivity |]. split.
    + unfold number_start. rewrite Hc. apply orb_true_r.
    + cbn [all_chars]. rewrite (digit_number_char d Hd), Hall. reflexivity.
  - intros H. apply unsigned_chars in H. destruct H as (Hd & Hall).
    exists c, rest. split; [reflexivity |]. split; [| exact Hall].
    unfold number_start. rewrite Hd. reflexivity.
Qed.

(** A character that starts a number starts nothing else. *)
Lemma number_start_reads (c : ascii) :
  number_start c = true ->
  (code c =? 34)%nat = false /\ (code c =? 91)%nat = false /\
  (code c =? 123)%nat = false /\ (code c =? 93)%nat = false /\
  (code c =? 125)%nat = false /\ number_char c = true.
Proof.
  destruct c as [b0 b1 b2 b3 b4 b5 b6 b7];
    destruct b0, b1, b2, b3, b4, b5, b6, b7; intros H;
    first [discriminate H | repeat split].
Qed.

(** The text of a value does not start as the end of an array or of an
    object does. *)
Lemma stringify_starts (v : json) :
  js_value v = true ->
  exists c t, JSON_stringify v = String c t /\
              (code c =? 93)%nat = false /\ (code c =? 125)%nat = false.
Proof.
  destruct v as [| [|] | text | s | elements | fields]; intros Hv;
    try (do 2 eexists; split; [reflexivity | split; reflexivity]).
  cbn [js_value] in Hv.
  destruct (@number_literal_chars text Hv) as (c & rest & -> & Hc & _).
  destruct (@number_start_reads c Hc) as (_ & _ & _ & H1 & H2 & _).
  exists c, rest. auto.
Qed.

Lemma read_elements_back (v : json) (vs : list json) :
  Forall reads_back (v :: vs) ->
  forallb js_value (v :: vs) = true ->
  forall fuel rest,
    list_sum (map (fun v => S (weight v)) (v :: vs)) <= fuel ->
    read_elements fuel (join "," (map JSON_stringify (v :: vs)) ++ "]" ++ rest)
    = Some (v :: vs, rest).
Proof.
  revert v. induction vs as [| v' vs IH]; intros v Hall Hjs fuel rest Hfuel.
  - inversion Hall as [| ? ? Hv _]; subst.
    cbn [forallb] in Hjs. apply andb_prop in Hjs. destruct Hjs as (Hjv & _).
    cbn [map list_sum fold_right] in Hfuel. destruct fuel as [| fuel]; [lia |].
    cbn [map join read_elements].
    rewrite (Hv Hjv fuel ("]" ++ rest)%string); [reflexivity | lia | reflexivity].
  - inversion Hall as [| ? ? Hv Hrest]; subst.
    cbn [forallb] in Hjs. apply andb_prop in Hjs. destruct Hjs as (Hjv & Hjs).
    cbn [map list_sum fold_right] in Hfuel. destruct fuel as [| fuel]; [lia |].
    change (join "," (map JSON_stringify (v :: v' :: vs)))
      with (JSON_stringify v ++ "," ++ join "," (map JSON_stringify (v' :: vs)))%string.
    rewrite !string_app_assoc. cbn [read_elements].
    rewrite (Hv Hjv fuel); [| lia | reflexivity].
    cbn [String.append]. change (code "," =? 44)%nat with true. cbv iota.
    change (String "]" rest) with ("]" ++ rest)%string.
    rewrite (IH v' Hrest Hjs fuel rest); [reflexivity |].
    cbn [map list_sum fold_right]. lia.
Qed.

Lemma read_fields_back (kv : string * json) (fields : list (string * json)) :
  Forall (fun kv => reads_back (snd kv)) (kv :: fields) ->
  forallb (fun kv => js_value (snd kv)) (kv :: fields) = true ->
  forall fuel rest,
    list_sum (map (fun kv => S (weight (snd kv))) (kv :: fields)) <= fuel ->
    read_fields fuel
      (join "," (map (fun kv => quote (fst kv) ++ ":" ++ JSON_stringify (snd kv))%string
                   (kv :: fields)) ++ "}" ++ rest)
    = Some (kv :: fields, rest).
Proof.
  revert kv. induction fields as [| kv' fields IH]; intros [key v] Hall Hjs fuel rest Hfuel.
  - inversion Hall as [| ? ? Hv _]; subst. cbn [snd] in Hv.
    cbn [forallb snd] in Hjs. apply andb_prop in Hjs. destruct Hjs as (Hjv & _).
    cbn [map list_sum fold_right snd] in Hfuel. destruct fuel as [| fuel]; [lia |].
    cbn [map join fst snd]. unfold quote.
    rewrite !string_app_assoc. cbn [dquote chr String.append read_fields].
    change (code (ascii_of_nat 34) =? 34)%nat with true. cbv iota.
    rewrite read_string_quoted.
    change (code ":" =? 58)%nat with true. cbv iota.
    change (String "}" rest) with ("}" ++ rest)%string.
    rewrite (Hv Hjv fuel ("}" ++ rest)%string); [reflexivity | lia | reflexivity].
  - inversion Hall as [| ? ? Hv Hrest]; subst. cbn [snd] in Hv.
    cbn [forallb snd] in Hjs. apply andb_prop in Hjs. destruct Hjs as (Hjv & Hjs).
    cbn [map list_sum fold_right snd] in Hfuel. destruct fuel as [| fuel]; [lia |].
    change (join "," (map (fun kv => quote (fst kv) ++ ":" ++ JSON_stringify (snd kv))%string
                        ((key, v) :: kv' :: fields)))
      with ((quote key ++ ":" ++ JSON_stringify v) ++ ","
            ++ join "," (map (fun kv => quote (fst kv) ++ ":" ++ JSON_stringify (snd kv))%string
                           (kv' :: fields)))%string.
    specialize (IH kv' Hrest Hjs fuel rest).
    remember (join "," (map (fun kv => quote (fst kv) ++ ":" ++ JSON_stringify (snd kv))%string
                          (kv' :: fields)) ++ "}" ++ rest)%string as tail eqn:Etail.
    unfold quote at 1.
    rewrite !string_app_assoc. rewrite <- Etail.
    cbn [dquote chr String.append read_fields].
    change (code (ascii_of_nat 34) =? 34)%nat with true. cbv iota.
    rewrite read_string_quoted.
    change (code ":" =? 58)%nat with true. cbv iota.
    change (String "," tail) with ("," ++ tail)%string.
    rewrite (Hv Hjv fuel); [| lia | reflexivity].
    cbn [String.append]. change (code "," =? 44)%nat with true. cbv iota.
    rewrite IH; [reflexivity |].
    cbn [map list_sum fold_right]. lia.
Qed.

Lemma read_value_back (v : json) : reads_back v.
Proof.
  induction v as [| b | text | s | elements IH | fields IH] using json_induction;
    intros Hv fuel rest Hfuel Hrest;
    (destruct fuel as [| fuel]; [cbn [weight] in Hfuel; lia |]).
  - reflexivity.
  - destruct b; reflexivity.
  - cbn [js_value] in Hv. clear Hfuel.
    destruct (@number_literal_chars text Hv) as (c & text' & -> & Hc & Hall).
    rename text' into text.
    destruct (@number_start_reads c Hc) as (H1 & H2 & H3 & _ & _ & H6).
    cbn [JSON_stringify String.append read_value]. rewrite H1, H2, H3, Hc.
    change (String c (text ++ rest)) with (String c text ++ rest)%string.
    rewrite take_number_literal; [rewrite Hv; reflexivity | | exact Hrest].
    cbn [all_chars]. rewrite H6, Hall. reflexivity.
  - cbn [JSON_stringify]. unfold quote. rewrite !string_app_assoc.
    cbn [dquote chr String.append read_value].
    change (code (ascii_of_nat 34) =? 34)%nat with true. cbv iota.
    rewrite read_string_quoted. reflexivity.
  - cbn [JSON_stringify]. rewrite !string_app_assoc. cbn [String.append read_value].
    change (code "[" =? 34)%nat with false. change (code "[" =? 91)%nat with true. cbv iota.
    destruct elements as [| v vs]; [reflexivity |].
    cbn [js_value] in Hv.
    assert (Hstart : exists c t,
               (join "," (map JSON_stringify (v :: vs)) ++ "]" ++ rest)%string = String c t /\
               (code c =? 93)%nat = false).
    { assert (Hjv : js_value v = true)
        by (cbn [forallb] in Hv; apply andb_prop in Hv; tauto).
      destruct (@stringify_starts v Hjv) as (c & t & E & H1 & _).
      destruct vs; cbn [map join]; rewrite E; cbn [String.append]; eauto. }
    destruct Hstart as (c & t & E & Hc).
    cbn [weight] in Hfuel.
    pose proof (@read_elements_back v vs IH Hv fuel rest) as Hread.
    change (String "]" rest) with ("]" ++ rest)%string.
    rewrite E in *. rewrite Hc, Hread; [reflexivity | lia].
  - cbn [JSON_stringify].
    remember (join "," (map (fun kv => quote (fst kv) ++ ":" ++ JSON_stringify (snd kv))%string
                          fields)) as body eqn:Ebody.
    rewrite !string_app_assoc. cbn [String.append read_value].
    change (code "{" =? 34)%nat with false. change (code "{" =? 91)%nat with false.
    change (code "{" =? 123)%nat with true. cbv iota. subst body.
    destruct fields as [| kv fields]; [reflexivity |].
    cbn [js_value] in Hv. apply andb_prop in Hv. destruct Hv as (Hv & _).
    assert (Hstart : exists t,
               (join "," (map (fun kv => quote (fst kv) ++ ":" ++ JSON_stringify (snd kv))
                            (kv :: fields)) ++ "}" ++ rest)%string
               = String (ascii_of_nat 34) t).
    { destruct fields; cbn [map join]; unfold quote at 1;
        cbn [dquote chr String.append]; eauto. }
    destruct Hstart as (t & E).
    cbn [weight] in Hfuel.
    pose proof (@read_fields_back kv fields IH Hv fuel rest) as Hread.
    change (String "}" rest) with ("}" ++ rest)%string.
    rewrite E in *.
    change (code (ascii_of_nat 34) =? 125)%nat with false. cbv iota.
    rewrite Hread; [reflexivity | lia].
Qed.

Lemma weight_length (v : json) :
  js_value v = true -> weight v <= String.length (JSON_stringify v).
Proof.
  induction v as [| b | text | s | elements IH | fields IH] using json_induction;
    intros Hv.
  - simpl. lia.
  - destruct b; simpl; lia.
  - cbn [js_value] in Hv. destruct text; [discriminate | simpl; lia].
  - cbn [JSON_stringify weight]. unfold quote. rewrite string_app_length. simpl. lia.
  - cbn [JSON_stringify weight js_value] in *.
    rewrite !string_app_length. cbn [String.length].
    assert (H : list_sum (map (fun v => S (weight v)) elements)
                <= S (String.length (join "," (map JSON_stringify elements)))).
    { induction elements as [| v vs IHvs]; [simpl; lia |].
      inversion IH as [| ? ? Hv1 Hvs]; subst.
      cbn [forallb] in Hv. apply andb_prop in Hv. destruct Hv as (Hjv & Hjs).
      specialize (Hv1 Hjv). specialize (IHvs Hvs Hjs).
      destruct vs as [| v' vs].
      - simpl. lia.
      - change (join "," (map JSON_stringify (v :: v' :: vs)))
          with (JSON_stringify v ++ "," ++ join "," (map JSON_stringify (v' :: vs)))%string.
        rewrite !string_app_length. cbn [map list_sum fold_right String.length] in *. lia. }
    lia.
  - cbn [JSON_stringify weight js_value] in *.
    apply andb_prop in Hv. destruct Hv as (Hv & _).
    rewrite !string_app_length. cbn [String.length].
    assert (H : list_sum (map (fun kv => S (weight (snd kv))) fields)
                <= S (String.length
                        (join "," (map (fun kv => quote (fst kv) ++ ":"
                                                  ++ JSON_stringify (snd kv))%string fields)))).
    { induction fields as [| kv fields IHfs]; [simpl; lia |].
      inversion IH as [| ? ? Hv1 Hvs]; subst.
      cbn [forallb] in Hv. apply andb_prop in Hv. destruct Hv as (Hjv & Hjs).
      specialize (Hv1 Hjv). specialize (IHfs Hvs Hjs).
      destruct fields as [| kv' fields].
      - cbn [map join list_sum fold_right]. rewrite !string_app_length. lia.
      - change (join "," (map (fun kv => quote (fst kv) ++ ":" ++ JSON_stringify (snd kv))%string
                            (kv :: kv' :: fields)))
          with ((quote (fst kv) ++ ":" ++ JSON_stringify (snd kv)) ++ ","
                ++ join "," (map (fun kv => quote (fst kv) ++ ":"
                                            ++ JSON_stringify (snd kv))%string
                               (kv' :: fields)))%string.
        rewrite !string_app_length. cbn [map list_sum fold_right String.length] in *. lia. }
    lia.
Qed.

(** A value of JavaScript is read back from its text. *)
Lemma JSON_read_stringify (v : json) :
  js_value v = true -> JSON_read (JSON_stringify v) = Some v.
Proof.
  intros Hv. unfold JSON_read.
  pose proof (@read_value_back v Hv (S (String.length (JSON_stringify v))) ""%string) as H.
  rewrite string_app_nil in H. rewrite H; [reflexivity | | exact I].
  pose proof (@weight_length v Hv). lia.
Qed.

Lemma format_tool_part_element p :
  trp_type p <> Some "" -> format_tool_part p = tool_result_element p.
Proof.
  unfold format_tool_part, tool_result_element, or_default.
  destruct (trp_type p) as [[| c s] |]; intros H; try reflexivity.
  exfalso. apply H. reflexivity.
Qed.

Lemma format_assistant_part_element p : format_assistant_part p = assistant_element p.
Proof. destruct p; reflexivity. Qed.

Lemma js_value_tool_parts parts :
  Forall well_formed_part parts ->
  map format_tool_part parts = map tool_result_element parts /\
  forallb js_value (map tool_result_element parts) = true.
Proof.
  induction 1 as [| p parts (Htype & Hresult) _ (IH1 & IH2)]; [split; reflexivity |].
  cbn [map forallb]. rewrite IH1, IH2, (@format_tool_part_element p Htype). split; [reflexivity |].
  unfold tool_result_element. cbn [js_value forallb snd map fst]. rewrite Hresult. reflexivity.
Qed.

Lemma js_value_assistant_parts parts :
  Forall well_formed_assistant_part parts ->
  forallb js_value (map assistant_element parts) = true.
Proof.
  induction 1 as [| p parts Hp _ IH]; [reflexivity |].
  cbn [map forallb]. rewrite IH.
  destruct p as [text | toolCallId toolName args]; [reflexivity |].
  cbn [well_formed_assistant_part] in Hp.
  unfold assistant_element, tool_call_element. cbn [js_value forallb snd map fst].
  rewrite Hp. reflexivity.
Qed.

Lemma js_value_user_parts (parts : list json) :
  Forall (fun v => js_value v = true) parts -> forallb js_value parts = true.
Proof.
  induction 1 as [| v parts Hv _ IH]; [reflexivity |].
  cbn [forallb]. rewrite Hv, IH. reflexivity.
Qed.

(** C2. For every well-formed message the text that [formatMessageContent]
    returns is what the contract asks for: a user's string is returned
    unchanged; the structured content of a user is returned as a text that
    denotes the array of its parts; the content of a tool message as a text
    that denotes the array of the objects [{type, toolCallId, toolName,
    result}], in order, [type] being ["tool-result"] when the part has
    none; the string of an assistant as a text that denotes the array of
    the single object [{type: "text", text}]; the parts of an assistant as
    a text that denotes the array of the objects [{type: "text", text}] and
    [{type: "tool-call", toolCallId, toolName, args}], in order; and for
    any other role the empty text.  What a text denotes is decided by
    reading it as JSON.  The function is a total function of its argument
    alone. *)
Theorem formatMessageContent_contract (m : CoreMessage) :
  well_formed m -> contract m (formatMessageContent m).
Proof.
  destruct m as [content | [text | parts] | [text | parts] | parts];
    cbn [well_formed contract formatMessageContent]; intros H;
    try reflexivity.
  - apply JSON_read_stringify. cbn [js_value]. apply js_value_user_parts. exact H.
  - apply JSON_read_stringify. reflexivity.
  - replace (map format_assistant_part parts) with (map assistant_element parts)
      by (apply map_ext; intros p; symmetry; apply format_assistant_part_element).
    apply JSON_read_stringify. cbn [js_value]. apply js_value_assistant_parts. exact H.
  - destruct (@js_value_tool_parts parts H) as (-> & Hjs).
    apply JSON_read_stringify. cbn [js_value]. exact Hjs.
Qed.

Lemma formatMessageContent_contract_witness :
  JSON_read (formatMessageContent (ToolMessage [weather_result]))
  = Some (JArray [ JObject [ ("type", JString "tool-result");
                             ("toolCallId", JString "call-1");
                             ("toolName", JString "getWeather");
                             ("result", JObject [ ("temperature_2m", JNumber "21.4") ]) ] ]).
Proof.
  apply (formatMessageContent_contract (ToolMessage [weather_result])).
  simpl. repeat constructor. unfold weather_result. simpl. discriminate.
Defined.

(** The texts themselves, at three inputs. *)
Example formatMessageContent_assistant_text :
  formatMessageContent (AssistantMessage (AssistantText "hi"))
  = ("[{" ++ dquote ++ "type" ++ dquote ++ ":" ++ dquote ++ "text" ++ dquote ++ ","
          ++ dquote ++ "text" ++ dquote ++ ":" ++ dquote ++ "hi" ++ dquote ++ "}]")%string.
Proof. reflexivity. Qed.

Example formatMessageContent_tool_result :
  formatMessageContent (ToolMessage [weather_result])
  = ("[{" ++ dquote ++ "type" ++ dquote ++ ":" ++ dquote ++ "tool-result" ++ dquote ++ ","
          ++ dquote ++ "toolCallId" ++ dquote ++ ":" ++ dquote ++ "call-1" ++ dquote ++ ","
          ++ dquote ++ "toolName" ++ dquote ++ ":" ++ dquote ++ "getWeather" ++ dquote ++ ","
          ++ dquote ++ "result" ++ dquote ++ ":{"
          ++ dquote ++ "temperature_2m" ++ dquote ++ ":21.4}}]")%string.
Proof. reflexivity. Qed.

Example formatMessageContent_escapes :
  formatMessageContent (AssistantMessage (AssistantParts [ TextPart awkward_text ]))
  = ("[{" ++ dquote ++ "type" ++ dquote ++ ":" ++ dquote ++ "text" ++ dquote ++ ","
          ++ dquote ++ "text" ++ dquote ++ ":" ++ dquote
          ++ "say " ++ backslash ++ dquote ++ "hi" ++ backslash ++ dquote
          ++ backslash ++ backslash ++ backslash ++ "n" ++ dquote ++ "}]")%string.
Proof. reflexivity. Qed.

(** ** The stream, the rounds and the requests that stop early *)

Lemma getUser_ok w user st :
  auth_user (auth w) = Some user -> auth_error (auth w) = None ->
  getUser w st = (Ok user, st).
Proof. unfold getUser. intros -> ->. reflexivity. Qed.

Lemma getUser_no_user w st :
  auth_user (auth w) = None -> getUser w st = (Thrown "Unauthorized", st).
Proof. unfold getUser. intros ->. destruct (auth_error (auth w)); reflexivity. Qed.



(** C5. Whatever the model answers, also when it asks for a tool in every
    round, one POST turn runs at most 5 rounds of the generation loop. *)
Theorem POST_at_most_5_rounds (w : World) (request : Request) (st : State) :
  rounds (snd (POST w request st)) <= rounds st + 5.
Proof.
  destruct (POST w request st) as [r st'] eqn:E.
  apply POST_discipline in E. destruct E as (t & _ & _ & _ & R & _).
  exact R.
Qed.

(** C4 (as stated) fails: without a session the request is rejected before
    the model id is looked at. *)
Lemma unknown_model_signed_out :
  registered (demo_world signed_out says_hello) "nonexistent" = None /\
  POST (demo_world signed_out says_hello) (hello_request "nonexistent") empty_state
  = (Thrown "Unauthorized", empty_state).
Proof. split; reflexivity. Qed.

(** C4 (amended). A POST whose model id is not registered changes nothing:
    no model is called and no row is written; when it comes from an
    authenticated user it is answered 404. *)
Theorem POST_unknown_model (w : World) (request : Request) (st : State) :
  registered w (req_modelId request) = None ->
  snd (POST w request st) = st /\
  forall user,
    auth_user (auth w) = Some user -> auth_error (auth w) = None ->
    fst (POST w request st) = Ok (Some (PlainResponse "Model not found" 404)).
Proof.
  unfold registered. intros Hm. split.
  - unfold POST, bind.
    destruct (getUser_cases w st) as [(user & _ & _ & ->) | (_ & ->)]; [| reflexivity].
    rewrite Hm. reflexivity.
  - intros user Hu He. unfold POST, bind.
    rewrite (getUser_ok w st Hu He), Hm. reflexivity.
Qed.

Lemma POST_unknown_model_witness :
  snd (POST (demo_world (signed_in alice) says_hello) (hello_request "nonexistent")
         alice_state) = alice_state /\
  forall user,
    auth_user (auth (demo_world (signed_in alice) says_hello)) = Some user ->
    auth_error (auth (demo_world (signed_in alice) says_hello)) = None ->
    fst (POST (demo_world (signed_in alice) says_hello) (hello_request "nonexistent")
           alice_state)
    = Ok (Some (PlainResponse "Model not found" 404)).
Proof.
  apply (@POST_unknown_model (demo_world (signed_in alice) says_hello)
           (hello_request "nonexistent") alice_state).
  reflexivity.
Defined.

(** C9: without a session both handlers throw out of [getUser] instead of
    answering 401; in POST the guard that answers 401 is never reached. *)
Theorem signed_out_request_throws :
  POST (demo_world signed_out says_hello) (hello_request "gpt-4o") alice_state
  = (Thrown "Unauthorized", alice_state) /\
  DELETE (demo_world signed_out says_hello) (Some "chat-1") alice_state
  = (Thrown "Unauthorized", alice_state).
Proof. split; reflexivity. Qed.

(** The same for every world without a user. *)
Lemma no_session_throws w request id st :
  auth_user (auth w) = None -> truthy id = true ->
  POST w request st = (Thrown "Unauthorized", st) /\
  DELETE w (Some id) st = (Thrown "Unauthorized", st).
Proof.
  intros Hu Hid. unfold POST, DELETE, bind.
  rewrite Hid. cbn [negb]. rewrite (getUser_no_user w st Hu). split; reflexivity.
Qed.

(** ** Ownership *)

Lemma env_step_rows_kept id chat st st0 :
  env_step st st0 ->
  find (fun c => chat_id c =? id) (chats st) = Some chat ->
  rows_kept id st st0.
Proof.
  intros Hs Hf. split.
  - apply (@env_step_keeps_chat id chat st st0 Hs Hf).
  - apply (@env_step_fields st st0 Hs).
Qed.

Lemma eqb_differ a b : a <> b -> (a =? b) = false.
Proof. intros H. apply String.eqb_neq. exact H. Qed.

(** C3 (as stated) fails: bob posts to alice's chat and names an unknown
    model; the answer is 404, the model being checked first. *)
Lemma non_owner_unknown_model :
  find (fun c => chat_id c =? req_id (hello_request "nonexistent")) (chats alice_state)
  = Some alice_chat /\
  chat_user_id alice_chat <> user_id bob /\
  POST (demo_world (signed_in bob) says_hello) (hello_request "nonexistent") alice_state
  = (Ok (Some (PlainResponse "Model not found" 404)), alice_state).
Proof. repeat split. discriminate. Qed.

(** C3 (amended). Take an authenticated user, an existing chat owned by
    someone else, and a chat lookup that does not fail.  A DELETE of that
    chat is answered 401; a POST to it is answered 401 when its model is
    registered and it carries a user message (unknown models and missing
    user messages are answered first).  In every case the chat row and the
    messages are as before: the ownership check precedes any write. *)
Theorem non_owner_is_refused (w : World) (request : Request) (st : State)
  (user : User) (chat : Chat) :
  auth_user (auth w) = Some user ->
  auth_error (auth w) = None ->
  find (fun c => chat_id c =? req_id request) (chats st) = Some chat ->
  chat_user_id chat <> user_id user ->
  calm st ->
  (forall model userMessage,
      registered w (req_modelId request) = Some model ->
      getMostRecentUserMessage (convertToCoreMessages w (req_messages request))
      = Some userMessage ->
      fst (POST w request st) = Ok (Some (PlainResponse "Unauthorized" 401))) /\
  rows_kept (req_id request) st (snd (POST w request st)) /\
  (truthy (req_id request) = true ->
   fst (DELETE w (Some (req_id request)) st) = Ok (PlainResponse "Unauthorized" 401)) /\
  rows_kept (req_id request) st (snd (DELETE w (Some (req_id request)) st)).
Proof.
  intros Hu He Hf Hne Hc.
  destruct (@getChatById_found (req_id request) chat st Hc Hf) as (st0 & Hs & Hg).
  pose proof (@env_step_rows_kept (req_id request) chat st st0 Hs Hf) as Hk.
  apply eqb_differ in Hne.
  assert (Hpost : forall model userMessage,
             registered w (req_modelId request) = Some model ->
             getMostRecentUserMessage (convertToCoreMessages w (req_messages request))
             = Some userMessage ->
             POST w request st = (Ok (Some (PlainResponse "Unauthorized" 401)), st0)).
  { intros model userMessage Hm Hum. unfold registered in Hm.
    unfold POST, bind. rewrite (@getUser_ok w user st Hu He), Hm, Hum. cbv zeta.
    unfold try_catch, bind. rewrite Hg, Hne. reflexivity. }
  assert (Hdel : truthy (req_id request) = true ->
                 DELETE w (Some (req_id request)) st
                 = (Ok (PlainResponse "Unauthorized" 401), st0)).
  { intros Ht. unfold DELETE. rewrite Ht. cbn [negb].
    unfold try_catch, bind. rewrite (@getUser_ok w user st Hu He), Hg, Hne. reflexivity. }
  assert (Hsame : rows_kept (req_id request) st st) by (split; reflexivity).
  split; [| split; [| split]].
  - intros model userMessage Hm Hum. rewrite (Hpost model userMessage Hm Hum). reflexivity.
  - destruct (registered w (req_modelId request)) as [model |] eqn:Hm.
    + destruct (getMostRecentUserMessage
                  (convertToCoreMessages w (req_messages request))) as [userMessage |] eqn:Hum.
      * rewrite (Hpost model userMessage eq_refl eq_refl). exact Hk.
      * unfold registered in Hm. unfold POST, bind.
        rewrite (@getUser_ok w user st Hu He), Hm, Hum. exact Hsame.
    + unfold registered in Hm. unfold POST, bind.
      rewrite (@getUser_ok w user st Hu He), Hm. exact Hsame.
  - intros Ht. rewrite (Hdel Ht). reflexivity.
  - destruct (truthy (req_id request)) eqn:Ht.
    + rewrite (Hdel eq_refl). exact Hk.
    + unfold DELETE. rewrite Ht. exact Hsame.
Qed.

Lemma non_owner_is_refused_witness :
  (forall model userMessage,
      registered bob_world (req_modelId (hello_request "gpt-4o")) = Some model ->
      getMostRecentUserMessage
        (convertToCoreMessages bob_world (req_messages (hello_request "gpt-4o")))
      = Some userMessage ->
      fst (POST bob_world (hello_request "gpt-4o") alice_state)
      = Ok (Some (PlainResponse "Unauthorized" 401))) /\
  rows_kept "chat-1" alice_state (snd (POST bob_world (hello_request "gpt-4o") alice_state)) /\
  (truthy "chat-1" = true ->
   fst (DELETE bob_world (Some "chat-1") alice_state)
   = Ok (PlainResponse "Unauthorized" 401)) /\
  rows_kept "chat-1" alice_state (snd (DELETE bob_world (Some "chat-1") alice_state)).
Proof.
  apply (@non_owner_is_refused bob_world (hello_request "gpt-4o") alice_state bob alice_chat).
  - reflexivity.
  - reflexivity.
  - reflexivity.
  - simpl. discriminate.
  - exact I.
Defined.

(** ** Recovery from a chat id conflict *)

Lemma has_chat_app id l l' : has_chat id (l ++ l') = has_chat id l || has_chat id l'.
Proof. unfold has_chat. apply existsb_app. Qed.

Lemma find_none_has_chat id l :
  find (fun c => chat_id c =? id) l = None -> has_chat id l = false.
Proof.
  intros H. destruct (has_chat id l) eqn:E; [| reflexivity].
  apply has_chat_find in E. destruct E as (c & E). congruence.
Qed.

Lemma saveMessages_calm id rows st :
  calm st ->
  exists st0, env_step st st0 /\
              saveMessages id rows st
              = (Ok tt, record (Stored (MessagesSaved id rows))
                          (set_messages (messages st0 ++ rows) st0)).
Proof.
  intros Hc. unfold saveMessages.
  match goal with
  | |- context [store_op ?body st] =>
      destruct (@store_op_calm _ body st Hc) as (st0 & Hs & ->)
  end.
  exists st0. split; [exact Hs | reflexivity].
Qed.

(** A conflict on the chat id, in general.  The chat does not exist when
    the handler looks it up, a concurrent request creates it before
    [saveChat] runs, and [saveChat] fails on the taken id.  Then the
    [catch] block saves the user's message under the existing chat,
    whoever owns it, and the handler ends without a response: no
    [StreamData] object is created and no round of the generation is
    run. *)
Lemma chat_id_conflict_in_general (w : World) (request : Request) (st : State)
  (user : User) (model : Model) (userMessage : CoreMessage)
  (c : Chat) (rest : list Interference) :
  auth_user (auth w) = Some user ->
  auth_error (auth w) = None ->
  registered w (req_modelId request) = Some model ->
  getMostRecentUserMessage (convertToCoreMessages w (req_messages request))
  = Some userMessage ->
  find (fun c => chat_id c =? req_id request) (chats st) = None ->
  schedule st = Quiet :: RaceCreateChat c :: rest ->
  chat_id c = req_id request ->
  next_is_no_fault rest ->
  exists st',
    POST w request st = (Ok None, st') /\
    chat_rows (req_id request) st' = [c] /\
    messages st'
    = messages st
      ++ [ {| msg_id := nth_uuid w (uuids st); msg_chat_id := req_id request;
              msg_role := role userMessage;
              msg_content := formatMessageContent userMessage |} ] /\
    streamingData st' = streamingData st /\
    rounds st' = rounds st.
Proof.
  intros Hu He Hm Hum Hf Hs Hid Hrest. unfold registered in Hm.
  set (id := req_id request) in *.
  pose proof (find_none_has_chat id (chats st) Hf) as Hno.
  unfold POST, bind. rewrite (@getUser_ok w user st Hu He), Hm, Hum. cbv zeta.
  fold id. unfold try_catch, bind.
  (* the lookup finds nothing *)
  unfold getChatById at 1, store_op at 1. rewrite Hs. cbn [gets schedule set_schedule chats].
  rewrite Hf.
  (* the title is generated, then the concurrent insert lands and saveChat fails *)
  cbn [title_action bind call_model modify ret].
  unfold saveChat, store_op.
  cbn [schedule record set_journal set_model_calls set_schedule chat_id].
  unfold concurrent_insert.
  cbn [chats record set_journal set_schedule set_model_calls schedule].
  rewrite Hid. fold id. rewrite Hno.
  cbn [chats set_chats]. rewrite has_chat_app, Hno. cbn [has_chat existsb orb].
  rewrite Hid. fold id. rewrite String.eqb_refl. cbn [orb].
  cbn [String.eqb Ascii.eqb Bool.eqb].
  (* the catch block saves the user's message *)
  unfold save_user_message, bind, generateUUID.
  match goal with
  | |- context [saveMessages id ?rows ?s] =>
      destruct (@saveMessages_calm id rows s) as (st0 & Hstep & Hsave)
  end.
  { unfold calm.
    cbn [schedule record set_journal set_uuids set_chats set_schedule set_model_calls].
    exact Hrest. }
  rewrite Hsave. eexists. split; [reflexivity |].
  destruct (@env_step_fields _ _ Hstep) as (Hmsgs & _ & _ & _ & Hsd & _ & Hr & _).
  assert (Hfound : find (fun c0 => chat_id c0 =? id) (chats st ++ [c]) = Some c).
  { clear - Hf Hid. induction (chats st) as [| c0 l IH]; simpl in *.
    - rewrite Hid, String.eqb_refl. reflexivity.
    - destruct (chat_id c0 =? id); [discriminate | auto]. }
  split.
  - pose proof (proj2 (@env_step_keeps_chat id c _ _ Hstep Hfound)) as Hrows.
    unfold chat_rows in *.
    cbn [chats record set_journal set_messages set_uuids set_chats] in *.
    rewrite Hrows, filter_app.
    assert (Hnil : filter (fun c0 => chat_id c0 =? id) (chats st) = []).
    { clear - Hf. induction (chats st) as [| c0 l IH]; simpl in *; [reflexivity |].
      destruct (chat_id c0 =? id); [discriminate | auto]. }
    rewrite Hnil. simpl. rewrite Hid, String.eqb_refl. reflexivity.
  - fields. rewrite Hmsgs, Hsd, Hr. repeat split.
Qed.

(** C8: a chat id conflict ends the request without a response.  Alice
    posts to a new chat id; between the lookup and [saveChat] another
    request of hers creates the chat, so [saveChat] fails with the message
    the [catch] block looks for.  The block saves the user's message under
    the existing chat and falls off the end of the handler: no response is
    returned, no [StreamData] object is created and no round of the
    generation is run, so the caller gets no answer to the message. *)
Theorem chat_id_conflict_gets_no_response :
  let out := POST (demo_world (signed_in alice) says_hello) (hello_request "gpt-4o")
               racing_state in
  fst out = Ok None /\
  chats (snd out) = [ alice_chat ] /\
  messages (snd out) = [ user_message_row "chat-1" "uuid-0" (UserMessage (UserText "hello")) ] /\
  streamingData (snd out) = [] /\
  rounds (snd out) = 0 /\
  journal (snd out)
  = [ Asked ForTitle;
      Stored (MessagesSaved "chat-1"
                [ user_message_row "chat-1" "uuid-0" (UserMessage (UserText "hello")) ]) ].
Proof. vm_compute. repeat split. Qed.

(** ** The tools *)

Lemma consume_fullStream_run fullStream :
  forall draftText st,
    consume_fullStream fullStream draftText st
    = (Ok (accumulate draftText (text_deltas fullStream)),
       set_journal (journal st ++ stream_steps fullStream)
         (set_streamingData (streamingData st ++ delta_events (text_deltas fullStream)) st)).
Proof.
  induction fullStream as [| part rest IH]; intros draftText st.
  - destruct st. simpl. rewrite !app_nil_r. reflexivity.
  - destruct part as [textDelta | type];
      cbn [consume_fullStream text_deltas stream_steps];
      unfold bind, arrives, append, stream_call, modify; rewrite IH;
      unfold record; simpl; rewrite <- !app_assoc; reflexivity.
Qed.

Lemma saveDocument_calm row st :
  calm st ->
  exists st0, env_step st st0 /\
              saveDocument row st
              = (Ok tt, record (Stored (DocumentSaved row))
                          (set_documents (documents st0 ++ [row]) st0)).
Proof.
  intros Hc. unfold saveDocument.
  match goal with
  | |- context [store_op ?body st] =>
      destruct (@store_op_calm _ body st Hc) as (st0 & Hs & ->)
  end.
  exists st0. split; [exact Hs | reflexivity].
Qed.

(** C6. A call of [createDocument] with title [T] appends to the stream,
    in this order, the event [id] with the id just drawn from the UUID
    generator, [title] with [T], [clear], one [text-delta] per text delta of
    the nested generation in its order, and [finish]; it then saves a
    document row under that id, owned by the requesting user, whose content
    is the accumulated draft; and it returns a confirmation that depends on
    the id and the title only, not on the generated text.  (The user id is
    a non-empty string and the save is not made to fail.) *)
Theorem createDocument_contract (w : World) (user : User) (title : string)
  (fullStream : list TextStreamPart) (st : State) :
  truthy (user_id user) = true ->
  calm st ->
  exists st',
    createDocument w user title fullStream st
    = (Ok (JObject [ ("id", JString (nth_uuid w (uuids st)));
                     ("title", JString title);
                     ("content",
                      JString "A document was created and is now visible to the user.") ]),
       st') /\
    streamingData st'
    = streamingData st
      ++ [ OpAppend (EvId (nth_uuid w (uuids st)));
           OpAppend (EvTitle title);
           OpAppend (EvClear "") ]
      ++ delta_events (text_deltas fullStream)
      ++ [ OpAppend (EvFinish "") ] /\
    documents st'
    = documents st
      ++ [ {| doc_id := nth_uuid w (uuids st); doc_title := title;
              doc_content := Some (accumulate "" (text_deltas fullStream));
              doc_user_id := user_id user |} ] /\
    uuids st' = S (uuids st).
Proof.
  intros Hu Hc. unfold createDocument.
  unfold bind at 1. cbn [generateUUID].
  unfold bind at 1 2 3 4. cbn [append stream_call call_model modify].
  unfold bind at 1. rewrite consume_fullStream_run.
  unfold bind at 1. cbn [append stream_call modify]. rewrite Hu.
  unfold bind at 1.
  match goal with
  | |- context [saveDocument ?row ?s] =>
      destruct (@saveDocument_calm row s) as (st0 & Hstep & ->)
  end.
  { exact Hc. }
  cbn [ret]. eexists. split; [reflexivity |].
  destruct (@env_step_fields _ _ Hstep) as (_ & Hd & _ & Hn & Hs & _).
  fields. rewrite Hs, Hd, Hn. fields.
  repeat split.
  rewrite <- !app_assoc. reflexivity.
Qed.

Lemma createDocument_contract_witness :
  exists st',
    createDocument (demo_world (signed_in alice) says_hello) alice "Plan" plan_stream
      empty_state
    = (Ok (JObject [ ("id", JString "uuid-0");
                     ("title", JString "Plan");
                     ("content",
                      JString "A document was created and is now visible to the user.") ]),
       st') /\
    streamingData st'
    = [ OpAppend (EvId "uuid-0"); OpAppend (EvTitle "Plan"); OpAppend (EvClear "");
        OpAppend (EvTextDelta "# Plan"); OpAppend (EvTextDelta " of the week");
        OpAppend (EvFinish "") ] /\
    documents st'
    = [ {| doc_id := "uuid-0"; doc_title := "Plan";
           doc_content := Some "# Plan of the week"; doc_user_id := "alice" |} ] /\
    uuids st' = 1.
Proof.
  apply (@createDocument_contract (demo_world (signed_in alice) says_hello) alice "Plan"
           plan_stream empty_state).
  - reflexivity.
  - exact I.
Defined.

Lemma suggestions_of_length w docId elementStream :
  forall n, length (suggestions_of w docId n elementStream) = length elementStream.
Proof. induction elementStream; intros n; simpl; auto. Qed.

Lemma suggestions_of_unresolved w docId elementStream :
  forall n, Forall (fun s => isResolved s = false) (suggestions_of w docId n elementStream).
Proof. induction elementStream; intros n; simpl; constructor; auto. Qed.

Lemma consume_elementStream_run w docId elementStream :
  forall acc st,
    consume_elementStream w docId elementStream acc st
    = (Ok (acc ++ suggestions_of w docId (uuids st) elementStream),
       set_journal
         (journal st
          ++ suggestion_steps elementStream (suggestions_of w docId (uuids st) elementStream))
         (set_streamingData
            (streamingData st
             ++ suggestion_events (suggestions_of w docId (uuids st) elementStream))
            (set_uuids (uuids st + length elementStream) st))).
Proof.
  induction elementStream as [| element rest IH]; intros acc st.
  - destruct st. simpl. rewrite !app_nil_r, Nat.add_0_r. reflexivity.
  - cbn [consume_elementStream suggestions_of suggestion_steps].
    unfold bind, arrives, generateUUID, append, stream_call, modify. rewrite IH.
    unfold record. simpl. rewrite <- !app_assoc, Nat.add_succ_r. reflexivity.
Qed.

Lemma getDocumentById_calm docId st :
  calm st ->
  exists st0, env_step st st0 /\
              getDocumentById docId st = (Ok (latest_document docId st), st0).
Proof.
  intros Hc. unfold getDocumentById.
  destruct (@store_op_calm _
              (gets (fun st => find (fun d => doc_id d =? docId) (rev (documents st)))) st Hc)
    as (st0 & Hs & ->).
  exists st0. split; [exact Hs |]. unfold gets, latest_document.
  destruct (@env_step_fields _ _ Hs) as (_ & -> & _). reflexivity.
Qed.

Lemma saveSuggestions_calm rows st :
  calm st ->
  exists st0, env_step st st0 /\
              saveSuggestions rows st
              = (Ok tt, record (Stored (SuggestionsSaved rows))
                          (set_suggestions (suggestions st0 ++ rows) st0)).
Proof.
  intros Hc. unfold saveSuggestions.
  match goal with
  | |- context [store_op ?body st] =>
      destruct (@store_op_calm _ body st Hc) as (st0 & Hs & ->)
  end.
  exists st0. split; [exact Hs | reflexivity].
Qed.

(** C7 (as stated) fails: when the nested generation yields six elements,
    six suggestions are streamed and saved; the limit of five is only asked
    of the model in the system instruction. *)
Lemma six_suggestions_are_emitted :
  length (streamingData
            (snd (requestSuggestions (demo_world (signed_in alice) says_hello) alice
                    "doc-1" six_elements document_state))) = 6 /\
  length (suggestions
            (snd (requestSuggestions (demo_world (signed_in alice) says_hello) alice
                    "doc-1" six_elements document_state))) = 6.
Proof. split; reflexivity. Qed.

(** C7 (amended). With a store that is not made to fail: when the document
    is absent or its content is empty, [requestSuggestions] returns an
    error result and has no effect at all (nothing in the journal, the
    stream, the tables, the UUID generator and the count of model calls).
    Otherwise, after the request to the model, the journal shows for every
    element of the nested generation, as many as it yields and in their
    order, the arrival of the element followed at once by the [suggestion]
    event that carries it, with an id newly drawn from the UUID generator
    and [isResolved] false; and only after the last element one write,
    which saves all the suggestions together under the id of the caller.
    Nothing else takes place. *)
Theorem requestSuggestions_contract (w : World) (user : User) (docId : string)
  (elementStream : list SuggestionElement) (st : State) :
  fault_free st ->
  (usable_content (latest_document docId st) = None ->
   exists st',
     requestSuggestions w user docId elementStream st
     = (Ok (JObject [ ("error", JString "Document not found") ]), st') /\
     journal st' = journal st /\
     streamingData st' = streamingData st /\
     suggestions st' = suggestions st /\
     documents st' = documents st /\
     messages st' = messages st /\
     uuids st' = uuids st /\
     model_calls st' = model_calls st) /\
  (forall document,
     usable_content (latest_document docId st) = Some document ->
     truthy (user_id user) = true ->
     let collected := suggestions_of w docId (uuids st) elementStream in
     exists st',
       requestSuggestions w user docId elementStream st
       = (Ok (JObject [ ("id", JString docId);
                        ("title", JString (doc_title document));
                        ("message", JString "Suggestions have been added to the document") ]),
          st') /\
       length collected = length elementStream /\
       Forall (fun s => isResolved s = false) collected /\
       journal st'
       = journal st
         ++ [ Asked ForSuggestions ]
         ++ suggestion_steps elementStream collected
         ++ [ Stored (SuggestionsSaved (suggestion_rows user collected)) ] /\
       streamingData st' = streamingData st ++ suggestion_events collected /\
       suggestions st' = suggestions st ++ suggestion_rows user collected /\
       documents st' = documents st /\
       messages st' = messages st).
Proof.
  intros Hff.
  destruct (@getDocumentById_calm docId st (fault_free_calm Hff)) as (st0 & Hs0 & Hget).
  destruct (@env_step_fields _ _ Hs0) as (Hm0 & Hd0 & Hsg0 & Hu0 & Hsd0 & Hmc0 & _ & _ & Hj0).
  split.
  - intros Hnone. exists st0. unfold requestSuggestions, bind.
    rewrite Hget, Hnone. repeat split; assumption.
  - intros document Hsome Huser collected.
    unfold requestSuggestions. unfold bind at 1. rewrite Hget, Hsome.
    unfold bind at 1. cbn [call_model modify].
    unfold bind at 1. rewrite consume_elementStream_run.
    fields. rewrite Hu0, Hsd0, Hj0. fold collected.
    rewrite Huser. cbn [app]. fold (suggestion_rows user collected).
    unfold bind at 1.
    match goal with
    | |- context [saveSuggestions _ ?s] => set (before_save := s)
    end.
    assert (Hcalm : calm before_save).
    { apply fault_free_calm. unfold fault_free. subst before_save. fields.
      apply (env_step_fault_free Hs0 Hff). }
    destruct (@saveSuggestions_calm (suggestion_rows user collected) before_save Hcalm)
      as (st1 & Hs1 & Hsave).
    destruct (@env_step_fields _ _ Hs1) as (Hm1 & Hd1 & Hsg1 & _ & Hsd1 & _ & _ & _ & Hj1).
    eexists. rewrite Hsave. cbn [ret].
    split; [reflexivity |].
    split; [apply suggestions_of_length |].
    split; [apply suggestions_of_unresolved |].
    fields. rewrite Hj1, Hsd1, Hsg1, Hd1, Hm1. subst before_save. fields.
    rewrite Hsg0, Hd0, Hm0, <- !app_assoc. repeat split.
Qed.

Lemma requestSuggestions_contract_witness :
  fault_free document_state /\
  exists st',
    requestSuggestions (demo_world (signed_in alice) says_hello) alice "doc-1" six_elements
      document_state
    = (Ok (JObject [ ("id", JString "doc-1");
                     ("title", JString "Plan");
                     ("message", JString "Suggestions have been added to the document") ]),
       st') /\
    length (suggestions st') = 6 /\
    length (journal st') = 14.
Proof.
  split; [constructor |].
  destruct (proj2 (@requestSuggestions_contract (demo_world (signed_in alice) says_hello)
                     alice "doc-1" six_elements document_state (Forall_nil _))
              {| doc_id := "doc-1"; doc_title := "Plan";
                 doc_content := Some "a b c d e f"; doc_user_id := "alice" |}
              eq_refl eq_refl)
    as (st' & Hrun & _ & _ & Hjournal & _ & Hrows & _).
  exists st'. split; [exact Hrun |]. rewrite Hrows, Hjournal. split; reflexivity.
Defined.

(** When the save is made to fail, the tool throws after all the events
    have been sent and no suggestion is stored. *)
Example suggestions_sent_but_not_saved :
  let out := requestSuggestions (demo_world (signed_in alice) says_hello) alice "doc-1"
               six_elements (set_schedule [Quiet; Fault "connection lost"] document_state) in
  fst out = Thrown "connection lost" /\
  length (streamingData (snd out)) = 6 /\
  suggestions (snd out) = [].
Proof. vm_compute. repeat split. Qed.

(** ** Runs of whole turns *)

(** The loop stops after the fifth round and the finish callback runs. *)
Example five_rounds_then_finish :
  let out := POST (demo_world (signed_in alice) always_weather) (hello_request "gpt-4o")
               empty_state in
  fst out = Ok (Some DataStreamResponse) /\
  rounds (snd out) = 5 /\
  finished (snd out) = 1 /\
  closes (streamingData (snd out)) = 1.
Proof. vm_compute. repeat split. Qed.

(** Saving the response messages fails: the stream is closed all the same
    and only the user's message is stored. *)
Example response_not_saved_still_closed :
  let out := POST (demo_world (signed_in alice) says_hello) (hello_request "gpt-4o")
               (set_schedule [Quiet; Quiet; Quiet; Fault "connection lost"] empty_state) in
  fst out = Ok (Some DataStreamResponse) /\
  streamingData (snd out) = [ OpNew; OpAnnotation "uuid-1"; OpClose ] /\
  map msg_role (messages (snd out)) = [ "user" ].
Proof. vm_compute. repeat split. Qed.

(** The provider fails in the first round: the handler rethrows and the
    [StreamData] object it had created is left open. *)
Example provider_failure_rethrown :
  let out := POST (demo_world (signed_in alice) (fun _ => RoundFailed "provider down"))
               (hello_request "gpt-4o") empty_state in
  fst out = Thrown "provider down" /\
  streamingData (snd out) = [ OpNew ] /\
  finished (snd out) = 0.
Proof. vm_compute. repeat split. Qed.

(** The provider fails in the second round: the handler has answered with
    the data stream by then, the finish callback never runs and the
    [StreamData] object is left open; only the user's message is stored. *)
Example later_failure_leaves_stream_open :
  let out := POST (demo_world (signed_in alice) weather_then_down) (hello_request "gpt-4o")
               empty_state in
  fst out = Ok (Some DataStreamResponse) /\
  rounds (snd out) = 2 /\
  finished (snd out) = 0 /\
  streamingData (snd out) = [ OpNew ] /\
  map msg_role (messages (snd out)) = [ "user" ].
Proof. vm_compute. repeat split. Qed.

(** A tool throws (its save is made to fail): the error goes back to the
    model as the result of the call, the generation carries on and the
    stream is closed. *)
Example tool_failure_is_fed_back :
  let out := POST (demo_world (signed_in alice) document_then_text) (hello_request "gpt-4o")
               (set_schedule [Quiet; Quiet; Quiet; Fault "connection lost"] empty_state) in
  fst out = Ok (Some DataStreamResponse) /\
  rounds (snd out) = 2 /\
  closes (streamingData (snd out)) = 1 /\
  documents (snd out) = [] /\
  map msg_role (messages (snd out)) = [ "user"; "assistant"; "tool"; "assistant" ] /\
  JSON_read (nth 2 (map msg_content (messages (snd out))) EmptyString)
  = Some (JArray [ JObject [ ("type", JString "tool-result");
                             ("toolCallId", JString "call");
                             ("toolName", JString "createDocument");
                             ("result", JObject [ ("error", JString "connection lost") ]) ] ]).
Proof. vm_compute. repeat split. Qed.

(** Two tools in one round.  When they take turns, their text deltas reach
    the client interleaved and the tool that ends first saves first; the
    results go back to the model in the order of the calls all the same.
    When the first tool has ended before the second call arrives, the
    deltas of the first document come first. *)
Example two_documents_interleaved :
  let w := demo_world (signed_in alice) two_documents in
  let out := POST (with_timing w alternately) (hello_request "gpt-4o") empty_state in
  let out' := POST (with_timing w one_by_one) (hello_request "gpt-4o") empty_state in
  fst out = Ok (Some DataStreamResponse) /\
  streamingData (snd out)
  = [ OpNew;
      OpAppend (EvId "uuid-1"); OpAppend (EvTitle "Plan"); OpAppend (EvClear "");
      OpAppend (EvId "uuid-2"); OpAppend (EvTitle "Notes"); OpAppend (EvClear "");
      OpAppend (EvTextDelta "P1"); OpAppend (EvTextDelta "N1");
      OpAppend (EvTextDelta "P2"); OpAppend (EvFinish ""); OpAppend (EvFinish "");
      OpAnnotation "uuid-3"; OpAnnotation "uuid-5"; OpClose ] /\
  map doc_title (documents (snd out)) = [ "Notes"; "Plan" ] /\
  map doc_content (documents (snd out)) = [ Some "N1"; Some "P1P2" ] /\
  streamingData (snd out')
  = [ OpNew;
      OpAppend (EvId "uuid-1"); OpAppend (EvTitle "Plan"); OpAppend (EvClear "");
      OpAppend (EvTextDelta "P1"); OpAppend (EvTextDelta "P2"); OpAppend (EvFinish "");
      OpAppend (EvId "uuid-2"); OpAppend (EvTitle "Notes"); OpAppend (EvClear "");
      OpAppend (EvTextDelta "N1"); OpAppend (EvFinish "");
      OpAnnotation "uuid-3"; OpAnnotation "uuid-5"; OpClose ] /\
  map doc_title (documents (snd out')) = [ "Plan"; "Notes" ] /\
  map msg_content (messages (snd out)) = map msg_content (messages (snd out')).
Proof. vm_compute. repeat split. Qed.

(** ** Stable relations *)

Section Keeps.

Context (R : State -> State -> Prop) `{Stable R}.

Lemma keeps_ret A (a : A) : respects R (ret a).
Proof. intros st. apply stable_refl. Qed.

Lemma keeps_throw A e : respects R (@throw A e).
Proof. intros st. apply stable_refl. Qed.

Lemma keeps_gets A (f : State -> A) : respects R (gets f).
Proof. intros st. apply stable_refl. Qed.

Lemma keeps_bind A B (m : M A) (k : A -> M B) :
  respects R m -> (forall a, respects R (k a)) -> respects R (bind m k).
Proof.
  intros Hm Hk st. unfold bind. specialize (Hm st).
  destruct (m st) as [[a | e] st1]; simpl in *.
  - eapply stable_trans; [exact Hm | apply Hk].
  - exact Hm.
Qed.

Lemma keeps_try_catch A (body : M A) (handler : string -> M A) :
  respects R body -> (forall e, respects R (handler e)) ->
  respects R (try_catch body handler).
Proof.
  intros Hb Hh st. unfold try_catch. specialize (Hb st).
  destruct (body st) as [[a | e] st1]; simpl in *.
  - exact Hb.
  - eapply stable_trans; [exact Hb | apply Hh].
Qed.

Lemma keeps_mapM A B (f : A -> M B) (l : list A) :
  (forall a, respects R (f a)) -> respects R (mapM f l).
Proof.
  intros Hf. induction l as [| a rest IH]; cbn [mapM].
  - apply keeps_ret.
  - apply keeps_bind; [apply Hf |]. intros b.
    apply keeps_bind; [exact IH |]. intros bs. apply keeps_ret.
Qed.

Lemma keeps_store_op A (body : M A) :
  respects R body -> respects R (store_op body).
Proof.
  intros Hb st. unfold store_op.
  destruct (schedule st) as [| [| message | c] rest] eqn:E.
  - apply Hb.
  - eapply stable_trans; [apply (stable_quiet st E) | apply Hb].
  - simpl. apply (stable_fault st E).
  - eapply stable_trans; [apply (stable_race st E) | apply Hb].
Qed.

Lemma keeps_record e st st' : R st st' -> R st (record e st').
Proof. intros Hr. eapply stable_trans; [exact Hr | apply stable_journal]. Qed.

Lemma keeps_getChatById id : respects R (getChatById id).
Proof. apply keeps_store_op, keeps_gets. Qed.

Lemma keeps_getDocumentById id : respects R (getDocumentById id).
Proof. apply keeps_store_op, keeps_gets. Qed.

Lemma keeps_saveMessages id rows : respects R (saveMessages id rows).
Proof. apply keeps_store_op. intros st. apply keeps_record, stable_messages. Qed.

Lemma keeps_saveDocument row : respects R (saveDocument row).
Proof. apply keeps_store_op. intros st. apply keeps_record, stable_documents. Qed.

Lemma keeps_saveSuggestions rows : respects R (saveSuggestions rows).
Proof. apply keeps_store_op. intros st. apply keeps_record, stable_suggestions. Qed.

Lemma keeps_generateUUID w : respects R (generateUUID w).
Proof. intros st. apply stable_uuid. Qed.

Lemma keeps_call_model purpose : respects R (call_model purpose).
Proof. intros st. apply keeps_record, stable_model_call. Qed.

Lemma keeps_arrives e : respects R (arrives e).
Proof. intros st. apply stable_journal. Qed.

Lemma keeps_stream_call op : respects R (stream_call op).
Proof. intros st. apply keeps_record, stable_stream. Qed.

Lemma keeps_append e : respects R (append e).
Proof. apply keeps_stream_call. Qed.

Lemma keeps_appendMessageAnnotation x : respects R (appendMessageAnnotation x).
Proof. apply keeps_stream_call. Qed.

Lemma keeps_new_StreamData : respects R new_StreamData.
Proof. apply keeps_stream_call. Qed.

Lemma keeps_close : respects R close.
Proof. apply keeps_stream_call. Qed.

Lemma keeps_while_streaming (m : M unit) : respects R m -> respects R (while_streaming m).
Proof. intros Hm st. apply Hm. Qed.

Lemma keeps_count_round : respects R count_round.
Proof. intros st. apply stable_round. Qed.

Lemma keeps_count_finished : respects R count_finished.
Proof. intros st. apply stable_finished. Qed.

Lemma keeps_getUser w : respects R (getUser w).
Proof.
  unfold getUser. destruct (auth_error (auth w)), (auth_user (auth w));
    first [apply keeps_ret | apply keeps_throw].
Qed.

(** Proves [respects R m] for code built from the operations above. *)
Ltac keeps :=
  repeat first
    [ apply keeps_ret
    | apply keeps_throw
    | apply keeps_append
    | apply keeps_appendMessageAnnotation
    | apply keeps_new_StreamData
    | apply keeps_close
    | apply keeps_count_round
    | apply keeps_count_finished
    | apply keeps_generateUUID
    | apply keeps_call_model
    | apply keeps_arrives
    | apply keeps_getUser
    | apply keeps_getChatById
    | apply keeps_getDocumentById
    | apply keeps_saveDocument
    | apply keeps_saveSuggestions
    | apply keeps_saveMessages
    | apply keeps_bind; [| intros ?]
    | apply keeps_try_catch; [| intros ?]
    | match goal with
      | |- respects _ (if ?b then _ else _) => destruct b
      | |- respects _ (match ?x with _ => _ end) => destruct x
      end ].

Lemma keeps_consume_fullStream fullStream :
  forall draftText, respects R (consume_fullStream fullStream draftText).
Proof.
  induction fullStream as [| part rest IH]; intros draftText;
    cbn [consume_fullStream].
  - keeps.
  - apply keeps_bind; [keeps | intros _].
    destruct part; [| apply IH].
    apply keeps_bind; [keeps | intros _; apply IH].
Qed.

Lemma keeps_consume_elementStream w docId elementStream :
  forall acc, respects R (consume_elementStream w docId elementStream acc).
Proof.
  induction elementStream as [| element rest IH]; intros acc;
    cbn [consume_elementStream].
  - keeps.
  - apply keeps_bind; [keeps | intros _].
    apply keeps_bind; [keeps | intros id].
    apply keeps_bind; [keeps | intros _; apply IH].
Qed.

Lemma keeps_execute w user call : respects R (execute w user call).
Proof.
  destruct call; cbn [execute];
    unfold getWeather, createDocument, updateDocument, requestSuggestions.
  - keeps.
  - apply keeps_bind; [keeps | intros id].
    do 4 (apply keeps_bind; [keeps | intros _]).
    apply keeps_bind; [apply keeps_consume_fullStream | intros draftText].
    keeps.
  - apply keeps_bind; [keeps | intros [document |]]; [| keeps].
    do 2 (apply keeps_bind; [keeps | intros _]).
    apply keeps_bind; [apply keeps_consume_fullStream | intros draftText].
    keeps.
  - apply keeps_bind; [keeps | intros document].
    destruct (usable_content document); [| keeps].
    apply keeps_bind; [keeps | intros _].
    apply keeps_bind; [apply keeps_consume_elementStream | intros collected].
    keeps.
Qed.

Lemma keeps_tools w user turns toolCalls :
  respects R (run_tools (execute_task w user) turns toolCalls []).
Proof.
  apply settles_respects with (P := fun _ : list json => True).
  apply settles_tools.
  - apply stable_refl.
  - apply stable_trans.
  - apply keeps_append.
  - apply keeps_arrives.
  - apply keeps_call_model.
  - apply keeps_generateUUID.
  - apply keeps_getDocumentById.
  - apply keeps_saveDocument.
  - apply keeps_saveSuggestions.
Qed.

Lemma keeps_generation_loop w user answers turns :
  forall steps k text toolCalls,
    respects R (generation_loop (execute_task w user) answers turns steps k text toolCalls).
Proof.
  induction steps as [| steps IH]; intros k text toolCalls;
    cbn [generation_loop];
    (apply keeps_bind; [apply keeps_tools | intros results]).
  - destruct toolCalls; keeps.
  - destruct toolCalls; [keeps |].
    do 2 (apply keeps_bind; [keeps | intros _]).
    destruct (answers (S k)) as [message | text' toolCalls']; [keeps |].
    apply keeps_bind; [apply IH | intros ?; keeps].
Qed.

Lemma keeps_streamText w user answers turns finish :
  (forall responseMessages, respects R (finish responseMessages)) ->
  forall maxSteps,
    respects R (streamText maxSteps (execute_task w user) answers turns finish).
Proof.
  intros Hfinish maxSteps. destruct maxSteps as [| steps]; cbn [streamText].
  - apply keeps_while_streaming, Hfinish.
  - do 2 (apply keeps_bind; [keeps | intros _]).
    destruct (answers 0) as [message | text toolCalls]; [keeps |].
    apply keeps_while_streaming.
    apply keeps_bind; [apply keeps_generation_loop | intros ?; apply Hfinish].
Qed.

Lemma keeps_onFinish w user id responseMessages :
  respects R (onFinish w user id responseMessages).
Proof.
  unfold onFinish.
  apply keeps_bind; [keeps | intros _].
  apply keeps_bind; [| intros _; keeps].
  destruct (truthy (user_id user)); [| keeps].
  apply keeps_try_catch; [| intros e; keeps].
  apply keeps_bind; [| intros rows; keeps].
  apply keeps_mapM. intros message. keeps.
Qed.

Lemma keeps_save_user_message w id userMessage :
  respects R (save_user_message w id userMessage).
Proof. unfold save_user_message. keeps. Qed.

Lemma keeps_title_action w userMessage : respects R (title_action w userMessage).
Proof. unfold title_action. keeps. Qed.

Lemma keeps_turn w user id userMessage : respects R (turn w user id userMessage).
Proof.
  unfold turn.
  apply keeps_bind; [apply keeps_save_user_message | intros _].
  apply keeps_bind; [keeps | intros _].
  apply keeps_bind; [| intros _; keeps].
  apply keeps_streamText.
  intros responseMessages. apply keeps_onFinish.
Qed.

End Keeps.

(** Applies a lemma on stable relations and discharges its [Stable]
    premise. *)
Ltac kapply lem :=
  apply lem;
  try match goal with |- Stable _ => typeclasses eauto end.

Ltac keeps_all :=
  repeat first
    [ kapply keeps_ret
    | kapply keeps_throw
    | kapply keeps_getUser
    | kapply keeps_getChatById
    | kapply keeps_saveMessages
    | kapply keeps_save_user_message
    | kapply keeps_title_action
    | kapply keeps_turn
    | kapply keeps_execute
    | kapply keeps_onFinish
    | kapply keeps_bind; [| intros ?]
    | kapply keeps_try_catch; [| intros ?]
    | match goal with
      | |- respects _ (if ?b then _ else _) => destruct b
      | |- respects _ (match ?x with _ => _ end) => destruct x
      end ].

Lemma extends_refl A (l : list A) : extends l l.
Proof. exists []. rewrite app_nil_r. reflexivity. Qed.

Lemma extends_trans A (a b c : list A) : extends a b -> extends b c -> extends a c.
Proof.
  intros (k1 & ->) (k2 & ->). exists (k1 ++ k2). rewrite app_assoc. reflexivity.
Qed.

Lemma extends_app A (l k : list A) : extends l (l ++ k).
Proof. exists k. reflexivity. Qed.

#[export] Instance grows_Stable : Stable grows.
Proof.
  split; unfold grows; simpl;
    try (intros; repeat split;
         first [apply extends_refl | apply extends_app | lia]).
  - intros a b c (C1 & M1 & D1 & S1 & T1 & U1 & L1 & R1 & F1)
                 (C2 & M2 & D2 & S2 & T2 & U2 & L2 & R2 & F2).
    repeat split; try lia; eapply extends_trans; eauto.
  - intros st c rest E. unfold concurrent_insert. simpl.
    destruct (has_chat (chat_id c) (chats st)); simpl;
      repeat split; first [apply extends_refl | apply extends_app | lia].
Qed.

#[export] Instance quiet_chats_Stable : Stable quiet_chats.
Proof.
  split; unfold quiet_chats, quiet; simpl;
    try (intros; first [congruence | split; [assumption | reflexivity]]).
  intros a b c H1 H2 Hq. destruct (H1 Hq) as (Hb & E1).
  destruct (H2 Hb) as (Hc & E2). split; [exact Hc | congruence].
Qed.

(** ** POST, block by block *)

Unset Implicit Arguments.

Lemma POST_blocks w request st user model userMessage :
  auth_user (auth w) = Some user ->
  auth_error (auth w) = None ->
  registered w (req_modelId request) = Some model ->
  getMostRecentUserMessage (convertToCoreMessages w (req_messages request))
  = Some userMessage ->
  POST w request st
  = try_catch (attempt w user (req_id request) userMessage)
      (recover w (req_id request) userMessage) st.
Proof.
  intros Hu He Hm Hum. unfold registered in Hm. unfold POST, bind at 1.
  rewrite (@getUser_ok w user st Hu He), Hm, Hum. reflexivity.
Qed.

Lemma store_op_quiet A (body : M A) st : quiet st -> store_op body st = body st.
Proof. unfold quiet, store_op. intros ->. reflexivity. Qed.

Lemma save_user_message_quiet w id userMessage st :
  quiet st ->
  save_user_message w id userMessage st
  = (Ok tt,
     record (Stored (MessagesSaved id
                       [user_message_row id (nth_uuid w (uuids st)) userMessage]))
       (set_messages
          (messages st ++ [user_message_row id (nth_uuid w (uuids st)) userMessage])
          (set_uuids (S (uuids st)) st))).
Proof.
  intros Hq. unfold save_user_message, bind, generateUUID, saveMessages.
  rewrite store_op_quiet; [reflexivity | exact Hq].
Qed.

Lemma attempt_owned w user id userMessage st chat :
  quiet st ->
  find (fun c => chat_id c =? id) (chats st) = Some chat ->
  chat_user_id chat = user_id user ->
  attempt w user id userMessage st = turn w user id userMessage st.
Proof.
  intros Hq Hf Ho. unfold attempt, bind at 1, getChatById.
  rewrite (store_op_quiet _ _ st Hq). unfold gets. rewrite Hf, Ho, String.eqb_refl.
  reflexivity.
Qed.

Lemma attempt_new w user id userMessage st :
  quiet st ->
  find (fun c => chat_id c =? id) (chats st) = None ->
  attempt w user id userMessage st
  = turn w user id userMessage
      (record (Stored (ChatSaved (new_chat w user id userMessage)))
         (set_chats (chats st ++ [new_chat w user id userMessage])
            (record (Asked ForTitle) (set_model_calls (S (model_calls st)) st)))).
Proof.
  intros Hq Hf. unfold attempt, bind at 1, getChatById.
  rewrite (store_op_quiet _ _ st Hq). unfold gets. rewrite Hf.
  unfold bind at 1, title_action, bind at 1, call_model, modify, ret.
  unfold bind at 1, saveChat. rewrite store_op_quiet; [| exact Hq].
  fields. cbn [chat_id].
  rewrite (find_none_has_chat id (chats st) Hf). reflexivity.
Qed.

Lemma keeps_recover R `{Stable R} w id userMessage error :
  respects R (recover w id userMessage error).
Proof. unfold recover. keeps_all. Qed.

Lemma keeps_saveChat_grows c : respects grows (saveChat c).
Proof.
  kapply keeps_store_op. intros st. cbv beta.
  destruct (has_chat (chat_id c) (chats st)); simpl.
  - apply stable_refl.
  - unfold grows. simpl.
    repeat split; first [apply extends_refl | apply extends_app | lia].
Qed.

(** X1. An authenticated POST that names a registered model but carries no
    user message is answered 400; nothing is written and no model is
    called. *)
Theorem POST_without_user_message (w : World) (request : Request) (st : State)
  (user : User) (model : Model) :
  auth_user (auth w) = Some user ->
  auth_error (auth w) = None ->
  registered w (req_modelId request) = Some model ->
  getMostRecentUserMessage (convertToCoreMessages w (req_messages request)) = None ->
  POST w request st = (Ok (Some (PlainResponse "No user message found" 400)), st).
Proof.
  intros Hu He Hm Hum. unfold registered in Hm. unfold POST, bind.
  rewrite (@getUser_ok w user st Hu He), Hm, Hum. reflexivity.
Qed.

Lemma POST_without_user_message_witness :
  POST (demo_world (signed_in alice) says_hello)
    {| req_id := "chat-1"; req_messages := []; req_modelId := "gpt-4o" |} alice_state
  = (Ok (Some (PlainResponse "No user message found" 400)), alice_state).
Proof.
  apply (@POST_without_user_message (demo_world (signed_in alice) says_hello)
           {| req_id := "chat-1"; req_messages := []; req_modelId := "gpt-4o" |}
           alice_state alice {| model_id := "gpt-4o"; apiIdentifier := "gpt-4o" |});
    reflexivity.
Defined.

(** X2. POST never removes or rewrites anything: after the request every
    table (chats, messages, documents, suggestions) and the trace of the
    stream is what it was before followed by new entries, and no counter
    has gone down.  This holds for every request, every model behaviour
    and every interference of the environment. *)
Theorem POST_only_adds (w : World) (request : Request) (st : State) :
  grows st (snd (POST w request st)).
Proof.
  revert st. change (respects grows (POST w request)).
  unfold POST.
  kapply keeps_bind; [keeps_all | intros user].
  destruct (find _ (models w)) as [model |]; [| keeps_all].
  destruct (getMostRecentUserMessage _) as [userMessage |]; [| keeps_all].
  cbv zeta. fold (turn w user (req_id request) userMessage).
  kapply keeps_try_catch.
  - kapply keeps_bind; [keeps_all | intros [chat |]]; [keeps_all |].
    kapply keeps_bind; [keeps_all | intros title].
    kapply keeps_bind; [apply keeps_saveChat_grows | intros _; keeps_all].
  - intros error. fold (recover w (req_id request) userMessage error).
    apply keeps_recover. typeclasses eauto.
Qed.

(** ** What a POST leaves in the store *)

Lemma try_catch_at A (body body' : M A) handler st st1 :
  body st = body' st1 -> try_catch body handler st = try_catch body' handler st1.
Proof. unfold try_catch. intros ->. reflexivity. Qed.




Lemma POST_after_turn w request st s user model userMessage :
  auth_user (auth w) = Some user ->
  auth_error (auth w) = None ->
  registered w (req_modelId request) = Some model ->
  getMostRecentUserMessage (convertToCoreMessages w (req_messages request))
  = Some userMessage ->
  attempt w user (req_id request) userMessage st
  = turn w user (req_id request) userMessage s ->
  POST w request st
  = try_catch (turn w user (req_id request) userMessage)
      (recover w (req_id request) userMessage) s.
Proof.
  intros Hu He Hm Hum Ha.
  rewrite (POST_blocks w request st user model userMessage Hu He Hm Hum).
  apply try_catch_at. exact Ha.
Qed.


(** X4. A POST to a chat id that does not exist yet creates the chat: with
    a store without interference, the table of chats afterwards is the old
    table followed by one row with that id, owned by the caller and titled
    by the title action; this does not depend on how the generation
    goes. *)
Theorem POST_creates_the_chat (w : World) (request : Request) (st : State)
  (user : User) (model : Model) (userMessage : CoreMessage) :
  auth_user (auth w) = Some user ->
  auth_error (auth w) = None ->
  registered w (req_modelId request) = Some model ->
  getMostRecentUserMessage (convertToCoreMessages w (req_messages request))
  = Some userMessage ->
  quiet st ->
  find (fun c => chat_id c =? req_id request) (chats st) = None ->
  chats (snd (POST w request st))
  = chats st ++ [new_chat w user (req_id request) userMessage].
Proof.
  intros Hu He Hm Hum Hq Hf.
  rewrite (POST_after_turn w request st _ user model userMessage Hu He Hm Hum
             (attempt_new w user (req_id request) userMessage st Hq Hf)).
  match goal with
  | |- chats (snd (try_catch ?b ?h ?s)) = _ =>
      assert (Hk : respects quiet_chats (try_catch b h))
        by (kapply keeps_try_catch;
            [kapply keeps_turn | intros e; apply keeps_recover; typeclasses eauto]);
      destruct (Hk s Hq) as (_ & ->)
  end.
  reflexivity.
Qed.

(** X5. A POST that continues a chat of the caller adds no chat row and
    changes none: with a store without interference the table of chats is
    the same afterwards. *)
Theorem POST_keeps_own_chat (w : World) (request : Request) (st : State)
  (user : User) (model : Model) (userMessage : CoreMessage) (chat : Chat) :
  auth_user (auth w) = Some user ->
  auth_error (auth w) = None ->
  registered w (req_modelId request) = Some model ->
  getMostRecentUserMessage (convertToCoreMessages w (req_messages request))
  = Some userMessage ->
  quiet st ->
  find (fun c => chat_id c =? req_id request) (chats st) = Some chat ->
  chat_user_id chat = user_id user ->
  chats (snd (POST w request st)) = chats st.
Proof.
  intros Hu He Hm Hum Hq Hf Ho.
  rewrite (POST_after_turn w request st _ user model userMessage Hu He Hm Hum
             (attempt_owned w user (req_id request) userMessage st chat Hq Hf Ho)).
  match goal with
  | |- chats (snd (try_catch ?b ?h ?s)) = _ =>
      assert (Hk : respects quiet_chats (try_catch b h))
        by (kapply keeps_try_catch;
            [kapply keeps_turn | intros e; apply keeps_recover; typeclasses eauto]);
      destruct (Hk s Hq) as (_ & ->)
  end.
  reflexivity.
Qed.

(** ** DELETE *)

Lemma getChatById_calm id st :
  calm st ->
  exists st0, env_step st st0 /\
              getChatById id st
              = (Ok (find (fun c => chat_id c =? id) (chats st0)), st0).
Proof.
  intros Hc. unfold getChatById.
  destruct (@store_op_calm _ (gets (fun st => find (fun c => chat_id c =? id) (chats st)))
              st Hc) as (st0 & Hs & ->).
  exists st0. split; [exact Hs | reflexivity].
Qed.

Lemma deleteChatById_calm id userId st :
  calm st -> exists st', deleteChatById id userId st = (Ok tt, st').
Proof.
  intros Hc. unfold deleteChatById.
  match goal with
  | |- context [store_op ?body st] =>
      destruct (@store_op_calm _ body st Hc) as (st0 & _ & ->)
  end.
  eexists. reflexivity.
Qed.

(** X6. For an authenticated caller DELETE never throws: it always answers
    with a plain response whose status is 200, 401, 404 or 500, and 500 is
    only answered when a store operation fails. *)
Theorem DELETE_always_answers (w : World) (id : option string) (st : State)
  (user : User) :
  auth_user (auth w) = Some user ->
  auth_error (auth w) = None ->
  exists body status st',
    DELETE w id st = (Ok (PlainResponse body status), st') /\
    In status [200; 401; 404; 500] /\
    (fault_free st -> status <> 500).
Proof.
  intros Hu He. unfold DELETE.
  destruct id as [id |]; [| do 3 eexists; split; [reflexivity |]; simpl; split;
                            [tauto | discriminate]].
  destruct (truthy id); cbn [negb];
    [| do 3 eexists; split; [reflexivity |]; simpl; split; [tauto | discriminate]].
  unfold bind at 1. rewrite (@getUser_ok w user st Hu He).
  unfold try_catch, bind.
  destruct (getChatById id st) as [[chat | e] st1] eqn:Hg.
  - destruct chat as [chat |].
    + destruct (negb (chat_user_id chat =? user_id user)).
      * do 3 eexists. split; [reflexivity |]. simpl. split; [tauto | discriminate].
      * destruct (deleteChatById id (user_id user) st1) as [[[] | e] st2] eqn:Hd.
        -- do 3 eexists. split; [reflexivity |]. simpl. split; [tauto | discriminate].
        -- do 3 eexists. split; [reflexivity |]. simpl. split; [tauto |].
           intros Hff. exfalso.
           destruct (getChatById_calm id st (@fault_free_calm st Hff)) as (st0 & Hs & Hg0).
           rewrite Hg0 in Hg. injection Hg as _ <-.
           destruct (deleteChatById_calm id (user_id user) st0
                       (@fault_free_calm st0 (@env_step_fault_free st st0 Hs Hff)))
             as (st' & Hd0).
           congruence.
    + do 3 eexists. split; [reflexivity |]. simpl. split; [tauto | discriminate].
  - do 3 eexists. split; [reflexivity |]. simpl. split; [tauto |].
    intros Hff. exfalso.
    destruct (getChatById_calm id st (@fault_free_calm st Hff)) as (st0 & Hs & Hg0).
    congruence.
Qed.

(** X7. When there is nothing to delete DELETE answers 404 and leaves the
    state as it is: without an [id] parameter, or with an empty one, it does
    so before it looks at the session; for an authenticated caller and a
    store without interference it does so when no chat has that id. *)
Theorem DELETE_nothing_to_delete (w : World) (st : State) :
  DELETE w None st = (Ok (PlainResponse "Not Found" 404), st) /\
  DELETE w (Some "") st = (Ok (PlainResponse "Not Found" 404), st) /\
  forall id user,
    auth_user (auth w) = Some user ->
    auth_error (auth w) = None ->
    truthy id = true ->
    quiet st ->
    find (fun c => chat_id c =? id) (chats st) = None ->
    DELETE w (Some id) st = (Ok (PlainResponse "Chat not found" 404), st).
Proof.
  split; [reflexivity | split; [reflexivity |]].
  intros id user Hu He Ht Hq Hf. unfold DELETE. rewrite Ht. cbn [negb].
  unfold bind at 1. rewrite (@getUser_ok w user st Hu He).
  unfold try_catch, bind, getChatById. rewrite (store_op_quiet _ _ st Hq).
  unfold gets. rewrite Hf. reflexivity.
Qed.

Lemma filter_not_found (id : string) (l : list Chat) :
  find (fun c => chat_id c =? id) (filter (fun c => negb (chat_id c =? id)) l) = None.
Proof.
  induction l as [| c l IH]; simpl; [reflexivity |].
  destruct (chat_id c =? id) eqn:E; simpl; [exact IH | rewrite E; exact IH].
Qed.

Lemma filter_other_chats (id other : string) (l : list Chat) :
  other <> id ->
  filter (fun c => chat_id c =? other) (filter (fun c => negb (chat_id c =? id)) l)
  = filter (fun c => chat_id c =? other) l.
Proof.
  intros Hne. induction l as [| c l IH]; simpl; [reflexivity |].
  destruct (chat_id c =? id) eqn:E; simpl.
  - apply String.eqb_eq in E.
    destruct (chat_id c =? other) eqn:E'; [| exact IH].
    apply String.eqb_eq in E'. congruence.
  - destruct (chat_id c =? other); [f_equal |]; exact IH.
Qed.

Lemma filter_other_messages (id other : string) (l : list MessageRow) :
  other <> id ->
  filter (fun m => msg_chat_id m =? other) (filter (fun m => negb (msg_chat_id m =? id)) l)
  = filter (fun m => msg_chat_id m =? other) l.
Proof.
  intros Hne. induction l as [| m l IH]; simpl; [reflexivity |].
  destruct (msg_chat_id m =? id) eqn:E; simpl.
  - apply String.eqb_eq in E.
    destruct (msg_chat_id m =? other) eqn:E'; [| exact IH].
    apply String.eqb_eq in E'. congruence.
  - destruct (msg_chat_id m =? other); [f_equal |]; exact IH.
Qed.

Lemma filter_own_messages (id : string) (l : list MessageRow) :
  filter (fun m => msg_chat_id m =? id) (filter (fun m => negb (msg_chat_id m =? id)) l)
  = [].
Proof.
  induction l as [| m l IH]; simpl; [reflexivity |].
  destruct (msg_chat_id m =? id) eqn:E; simpl; [exact IH | rewrite E; exact IH].
Qed.

Lemma owner_exists (id userId : string) (chat : Chat) (l : list Chat) :
  find (fun c => chat_id c =? id) l = Some chat ->
  chat_user_id chat = userId ->
  existsb (fun c => (chat_id c =? id) && (chat_user_id c =? userId)) l = true.
Proof.
  intros Hf Ho. induction l as [| c l IH]; simpl in *; [discriminate |].
  destruct (chat_id c =? id) eqn:E; simpl.
  - injection Hf as ->. rewrite Ho, String.eqb_refl. reflexivity.
  - apply IH. exact Hf.
Qed.

(** X8. The owner deletes a chat: with a store without interference DELETE
    answers 200; afterwards no chat has that id and none of its messages
    is left, while the chat rows and the messages of every other id are as
    before, and so are documents and suggestions. *)
Theorem DELETE_by_owner (w : World) (id : string) (st : State)
  (user : User) (chat : Chat) :
  auth_user (auth w) = Some user ->
  auth_error (auth w) = None ->
  truthy id = true ->
  quiet st ->
  find (fun c => chat_id c =? id) (chats st) = Some chat ->
  chat_user_id chat = user_id user ->
  exists st',
    DELETE w (Some id) st = (Ok (PlainResponse "Chat deleted" 200), st') /\
    find (fun c => chat_id c =? id) (chats st') = None /\
    messages_of id st' = [] /\
    (forall other, other <> id ->
       chat_rows other st' = chat_rows other st /\
       messages_of other st' = messages_of other st) /\
    documents st' = documents st /\
    suggestions st' = suggestions st.
Proof.
  intros Hu He Ht Hq Hf Ho. unfold DELETE. rewrite Ht. cbn [negb].
  unfold bind at 1. rewrite (@getUser_ok w user st Hu He).
  unfold try_catch, bind, getChatById. rewrite (store_op_quiet _ _ st Hq).
  unfold gets. rewrite Hf, Ho, String.eqb_refl. cbn [negb].
  unfold deleteChatById. rewrite (store_op_quiet _ _ st Hq).
  unfold modify. rewrite (owner_exists id (user_id user) chat (chats st) Hf Ho).
  eexists. split; [reflexivity |].
  unfold messages_of, chat_rows. fields.
  split; [apply filter_not_found |].
  split; [apply filter_own_messages |].
  split; [| split; reflexivity].
  intros other Hne. split.
  - apply filter_other_chats. exact Hne.
  - apply filter_other_messages. exact Hne.
Qed.

(** ** The finish callback *)

Lemma response_rows_run (w : World) (id : string) (l : list CoreMessage) :
  forall st,
    mapM (fun message =>
            messageId <- generateUUID w ;;
            (if role message =? "assistant"
             then appendMessageAnnotation messageId
             else ret tt) ;;;
            ret (user_message_row id messageId message)) l st
    = (Ok (response_rows w id (uuids st) l),
       set_journal
         (journal st ++ map Called (annotations (response_rows w id (uuids st) l)))
         (set_streamingData
            (streamingData st ++ annotations (response_rows w id (uuids st) l))
            (set_uuids (uuids st + length l) st))).
Proof.
  induction l as [| message rest IH]; intros st.
  - destruct st. simpl. unfold annotations. simpl.
    rewrite !app_nil_r, Nat.add_0_r. reflexivity.
  - cbn [mapM response_rows]. unfold bind at 1 2. cbn [generateUUID].
    unfold annotations. cbn [filter user_message_row msg_role msg_id].
    destruct (role message =? "assistant") eqn:Hr.
    + unfold bind at 1. cbn [appendMessageAnnotation stream_call modify ret].
      unfold bind. rewrite IH. fields. cbn [map length].
      unfold annotations. rewrite <- !app_assoc, Nat.add_succ_r. reflexivity.
    + unfold bind at 1. cbn [ret].
      unfold bind. rewrite IH. fields. cbn [map length].
      unfold annotations. rewrite Nat.add_succ_r. reflexivity.
Qed.

Lemma onFinish_run (w : World) (user : User) (id : string)
  (responseMessages : list CoreMessage) (st : State) :
  truthy (user_id user) = true ->
  exists st',
    onFinish w user id responseMessages st = (Ok tt, st') /\
    streamingData st'
    = streamingData st
      ++ annotations
           (response_rows w id (uuids st) (sanitizeResponseMessages w responseMessages))
      ++ [OpClose] /\
    (calm st ->
     messages st'
     = messages st
       ++ response_rows w id (uuids st) (sanitizeResponseMessages w responseMessages)) /\
    (forall message rest,
       schedule st = Fault message :: rest -> messages st' = messages st).
Proof.
  intros Hu. unfold onFinish. unfold bind at 1. cbn [count_finished modify].
  rewrite Hu. unfold bind at 1. unfold try_catch. unfold bind at 1.
  rewrite response_rows_run. cbn [uuids streamingData journal set_finished].
  set (rows := response_rows w id (uuids st) (sanitizeResponseMessages w responseMessages)).
  set (s := set_journal _ _).
  assert (Hsched : schedule s = schedule st) by reflexivity.
  unfold saveMessages, store_op. rewrite Hsched.
  destruct (schedule st) as [| [| message | c] rest] eqn:E.
  - eexists. split; [reflexivity |]. subst s. simpl.
    split; [rewrite <- app_assoc; reflexivity |].
    split; [reflexivity | discriminate].
  - eexists. split; [reflexivity |]. subst s. simpl.
    split; [rewrite <- app_assoc; reflexivity |].
    split; [reflexivity | discriminate].
  - eexists. split; [reflexivity |]. subst s. simpl.
    split; [rewrite <- app_assoc; reflexivity |].
    split; [| reflexivity].
    unfold calm. rewrite E. simpl. tauto.
  - eexists. split; [reflexivity |].
    pose proof (concurrent_insert_fields c (set_schedule rest s))
      as (Hm & _ & _ & _ & _ & Hs & _).
    cbn [close stream_call modify snd]. fields.
    rewrite Hs, Hm. subst s. simpl.
    split; [rewrite <- app_assoc; reflexivity |].
    split; [reflexivity | discriminate].
Qed.

(** X9. The finish callback, for a user with a non-empty id: it draws one
    id per sanitized response message, appends to the stream one
    annotation per assistant message, carrying the id of that message's
    row, in order, and then closes the stream.  When the save is not made
    to fail, the rows (formatted content, role, chat id) are added to the
    messages in one batch; when the save fails the error is swallowed: the
    annotations and the close are the same and no row is stored. *)
Theorem onFinish_contract (w : World) (user : User) (id : string)
  (responseMessages : list CoreMessage) (st : State) :
  truthy (user_id user) = true ->
  exists st',
    onFinish w user id responseMessages st = (Ok tt, st') /\
    streamingData st'
    = streamingData st
      ++ annotations
           (response_rows w id (uuids st) (sanitizeResponseMessages w responseMessages))
      ++ [OpClose] /\
    (calm st ->
     messages st'
     = messages st
       ++ response_rows w id (uuids st) (sanitizeResponseMessages w responseMessages)) /\
    (forall message rest,
       schedule st = Fault message :: rest -> messages st' = messages st).
Proof. exact (onFinish_run w user id responseMessages st). Qed.

(** ** The other tools *)

(** X10. [updateDocument], with a store that is not made to fail.  When no
    document has the id it returns an error result and appends nothing to
    the stream, writes no row and calls no model.  Otherwise it appends
    [clear] carrying the stored title, one [text-delta] per text delta of
    the nested generation in order, then [finish], and saves one more row
    under the same id and title whose content is the new draft alone and
    whose owner is the caller, whoever owned the stored row. *)
Theorem updateDocument_contract (user : User) (id changes : string)
  (fullStream : list TextStreamPart) (st : State) :
  fault_free st ->
  (latest_document id st = None ->
   exists st',
     updateDocument user id changes fullStream st
     = (Ok (JObject [ ("error", JString "Document not found") ]), st') /\
     streamingData st' = streamingData st /\
     documents st' = documents st /\
     model_calls st' = model_calls st) /\
  (forall document,
     latest_document id st = Some document ->
     truthy (user_id user) = true ->
     exists st',
       updateDocument user id changes fullStream st
       = (Ok (JObject [ ("id", JString id);
                        ("title", JString (doc_title document));
                        ("content", JString "The document has been updated successfully.") ]),
          st') /\
       streamingData st'
       = streamingData st
         ++ [ OpAppend (EvClear (doc_title document)) ]
         ++ delta_events (text_deltas fullStream)
         ++ [ OpAppend (EvFinish "") ] /\
       documents st'
       = documents st
         ++ [ {| doc_id := id; doc_title := doc_title document;
                 doc_content := Some (accumulate "" (text_deltas fullStream));
                 doc_user_id := user_id user |} ]).
Proof.
  intros Hff.
  destruct (getDocumentById_calm id st (@fault_free_calm st Hff)) as (st0 & Hs0 & Hget).
  destruct (@env_step_fields st st0 Hs0) as (_ & Hd0 & _ & _ & Hsd0 & Hmc0 & _).
  split.
  - intros Hnone. exists st0. unfold updateDocument, bind.
    rewrite Hget, Hnone. repeat split; assumption.
  - intros document Hsome Hu.
    unfold updateDocument. unfold bind at 1. rewrite Hget, Hsome.
    unfold bind at 1 2. cbn [append stream_call call_model modify].
    unfold bind at 1. rewrite consume_fullStream_run.
    unfold bind at 1. cbn [append stream_call modify]. rewrite Hu.
    unfold bind at 1.
    match goal with
    | |- context [saveDocument ?row ?s] =>
        destruct (saveDocument_calm row s) as (st1 & Hs1 & ->)
    end.
    { apply fault_free_calm. unfold fault_free. fields.
      apply (@env_step_fault_free st st0 Hs0 Hff). }
    cbn [ret]. eexists. split; [reflexivity |].
    destruct (@env_step_fields _ _ Hs1) as (_ & Hd1 & _ & _ & Hsd1 & _).
    fields. rewrite Hsd1, Hd1. fields.
    rewrite Hsd0, Hd0. split; [| reflexivity].
    rewrite <- !app_assoc. reflexivity.
Qed.

#[export] Instance events_only_Frame : Frame events_only.
Proof.
  assert (Hid : forall l : list MuxOp, exists t, l = l ++ t /\ Forall is_event t).
  { intros l. exists []. rewrite app_nil_r. auto. }
  split; unfold events_only; simpl; try (intros; split; [apply Hid | tauto]).
  intros a b c ((t1 & E1 & F1) & H2 & H3) ((t2 & E2 & F2) & H5 & H6).
  split; [| split; congruence].
  exists (t1 ++ t2). split.
  - rewrite E2, E1, app_assoc. reflexivity.
  - apply Forall_app. auto.
Qed.

Lemma events_only_append (e : StreamEvent) : respects events_only (append e).
Proof.
  intros st. split; [| simpl; tauto].
  exists [OpAppend e]. simpl. split; [reflexivity |]. repeat constructor.
Qed.

Ltac events :=
  repeat first
    [ fapply respects_ret
    | apply events_only_append
    | fapply respects_generateUUID
    | fapply respects_call_model
    | fapply respects_arrives
    | fapply respects_getDocumentById
    | fapply respects_saveDocument
    | fapply respects_saveSuggestions
    | fapply respects_bind; [| intros ?]
    | match goal with
      | |- respects _ (if ?b then _ else _) => destruct b
      | |- respects _ (match ?x with _ => _ end) => destruct x
      end ].

Lemma events_only_fullStream (fullStream : list TextStreamPart) :
  forall draftText, respects events_only (consume_fullStream fullStream draftText).
Proof.
  induction fullStream as [| part rest IH]; intros draftText;
    cbn [consume_fullStream].
  - events.
  - fapply respects_bind; [events | intros _].
    destruct part; [| apply IH].
    fapply respects_bind; [events | intros _; apply IH].
Qed.

Lemma events_only_elementStream (w : World) (docId : string)
  (elementStream : list SuggestionElement) :
  forall acc, respects events_only (consume_elementStream w docId elementStream acc).
Proof.
  induction elementStream as [| element rest IH]; intros acc;
    cbn [consume_elementStream].
  - events.
  - fapply respects_bind; [events | intros _].
    fapply respects_bind; [events | intros id].
    fapply respects_bind; [events | intros _; apply IH].
Qed.

(** X11. Whatever tool runs, with whatever arguments and outcome, all it
    does to the [StreamData] object is append events: it never closes it,
    never creates another and never adds a message annotation; and it
    starts no round of the main generation and runs no finish callback. *)
Theorem tools_only_append_events (w : World) (user : User) (call : ToolCall)
  (st : State) :
  let st' := snd (execute w user call st) in
  (exists t, streamingData st' = streamingData st ++ t /\ Forall is_event t) /\
  finished st' = finished st /\
  rounds st' = rounds st.
Proof.
  revert st. change (respects events_only (execute w user call)).
  destruct call; cbn [execute];
    unfold getWeather, createDocument, updateDocument, requestSuggestions.
  - events.
  - fapply respects_bind; [events | intros id].
    do 4 (fapply respects_bind; [events | intros _]).
    fapply respects_bind; [apply events_only_fullStream | intros draftText].
    events.
  - fapply respects_bind; [events | intros [document |]]; [| events].
    do 2 (fapply respects_bind; [events | intros _]).
    fapply respects_bind; [apply events_only_fullStream | intros draftText].
    events.
  - fapply respects_bind; [events | intros document].
    destruct (usable_content document); [| events].
    fapply respects_bind; [events | intros _].
    fapply respects_bind; [apply events_only_elementStream | intros collected].
    events.
Qed.

(** ** A whole turn with a plain answer *)

Lemma quiet_calm (st : State) : quiet st -> calm st.
Proof. unfold quiet, calm. intros ->. exact I. Qed.

(** X12. A turn end to end.  An authenticated user with a non-empty id
    posts a user message to a chat that is new or their own, the store is
    without interference, and the model answers the first round with text
    and no tool call.  Then the handler answers with the data stream after
    exactly one round; the messages are the old ones, then the user's
    message, then the rows of the sanitized answer; and the stream object
    is created, annotated with the ids of the assistant rows and closed. *)
Theorem POST_plain_answer (w : World) (request : Request) (st : State)
  (user : User) (model : Model) (userMessage : CoreMessage) (text : string) :
  auth_user (auth w) = Some user ->
  auth_error (auth w) = None ->
  registered w (req_modelId request) = Some model ->
  getMostRecentUserMessage (convertToCoreMessages w (req_messages request))
  = Some userMessage ->
  quiet st ->
  truthy (user_id user) = true ->
  (forall chat,
      find (fun c => chat_id c =? req_id request) (chats st) = Some chat ->
      chat_user_id chat = user_id user) ->
  llm w 0 = RoundOutput text [] ->
  let rows :=
    response_rows w (req_id request) (S (uuids st))
      (sanitizeResponseMessages w [ AssistantMessage (AssistantParts [ TextPart text ]) ]) in
  fst (POST w request st) = Ok (Some DataStreamResponse) /\
  messages (snd (POST w request st))
  = messages st
    ++ user_message_row (req_id request) (nth_uuid w (uuids st)) userMessage :: rows /\
  streamingData (snd (POST w request st))
  = streamingData st ++ OpNew :: annotations rows ++ [OpClose] /\
  rounds (snd (POST w request st)) = S (rounds st).
Proof.
  intros Hu He Hm Hum Hq Ht Hown Hllm rows.
  assert (Hs : exists s, quiet s /\ messages s = messages st /\ uuids s = uuids st /\
                         streamingData s = streamingData st /\ rounds s = rounds st /\
                         attempt w user (req_id request) userMessage st
                         = turn w user (req_id request) userMessage s).
  { destruct (find (fun c => chat_id c =? req_id request) (chats st)) as [chat |] eqn:Hf.
    - exists st. repeat split; try assumption.
      apply (attempt_owned w user (req_id request) userMessage st chat Hq Hf
               (Hown chat eq_refl)).
    - eexists.
      split; [| split; [| split; [| split; [| split;
        [| apply (attempt_new w user (req_id request) userMessage st Hq Hf)]]]]];
        first [exact Hq | reflexivity]. }
  destruct Hs as (s & Hqs & Hms & Hus & Hss & Hrs & Ha).
  rewrite (POST_after_turn w request st s user model userMessage Hu He Hm Hum Ha).
  assert (Hrun_all : exists st',
             try_catch (turn w user (req_id request) userMessage)
               (recover w (req_id request) userMessage) s
             = (Ok (Some DataStreamResponse), st') /\
             messages st'
             = messages st
               ++ user_message_row (req_id request) (nth_uuid w (uuids st)) userMessage
               :: rows /\
             streamingData st' = streamingData st ++ OpNew :: annotations rows ++ [OpClose] /\
             rounds st' = S (rounds st)).
  { unfold try_catch, turn. unfold bind at 1.
    rewrite (save_user_message_quiet w (req_id request) userMessage s Hqs).
    unfold bind at 1. cbn [new_StreamData stream_call modify].
    cbn [streamText]. unfold bind at 1 2 3. cbn [call_model count_round modify].
    rewrite Hllm. unfold while_streaming. cbn [generation_loop].
    unfold bind at 1 2. rewrite run_tools_none. cbn [ret map].
    match goal with
    | |- context [onFinish w user (req_id request) ?msgs ?s0] =>
        destruct (onFinish_run w user (req_id request) msgs s0 Ht)
          as (st' & Hrun & Hsd & Hmsg & _);
        assert (Hcalm : calm s0) by (apply quiet_calm; exact Hqs);
        specialize (Hmsg Hcalm);
        destruct (onFinish_trace w user (req_id request) msgs s0)
          as (st'' & body & Hrun' & _ & Hr & _)
    end.
    rewrite Hrun in Hrun'. injection Hrun' as <-.
    rewrite Hrun. cbn [ret snd].
    fields in Hsd. fields in Hmsg. fields in Hr.
    rewrite Hus, Hms in Hmsg. rewrite Hus, Hss in Hsd. rewrite Hrs in Hr.
    fold rows in Hmsg, Hsd.
    exists st'. split; [reflexivity |].
    split; [rewrite Hmsg, <- app_assoc; reflexivity |].
    split; [rewrite Hsd, <- app_assoc; reflexivity | exact Hr]. }
  destruct Hrun_all as (st' & -> & H1 & H2 & H3). cbn [fst snd]. auto.
Qed.

(** ** The properties at concrete inputs *)


Lemma POST_creates_the_chat_witness :
  chats (snd (POST alice_world (hello_request "gpt-4o") empty_state)) = [ alice_chat ].
Proof.
  apply (POST_creates_the_chat alice_world (hello_request "gpt-4o") empty_state
           alice gpt_4o hello_message); reflexivity.
Defined.

Lemma POST_keeps_own_chat_witness :
  chats (snd (POST alice_world (hello_request "gpt-4o") alice_state)) = [ alice_chat ].
Proof.
  apply (POST_keeps_own_chat alice_world (hello_request "gpt-4o") alice_state
           alice gpt_4o hello_message alice_chat); reflexivity.
Defined.

Lemma DELETE_always_answers_witness :
  exists body status st',
    DELETE bob_world (Some "chat-1") alice_state = (Ok (PlainResponse body status), st') /\
    In status [200; 401; 404; 500] /\
    (fault_free alice_state -> status <> 500).
Proof.
  apply (DELETE_always_answers bob_world (Some "chat-1") alice_state bob); reflexivity.
Defined.

Lemma DELETE_nothing_to_delete_witness :
  DELETE alice_world (Some "chat-2") alice_state
  = (Ok (PlainResponse "Chat not found" 404), alice_state).
Proof.
  apply (proj2 (proj2 (DELETE_nothing_to_delete alice_world alice_state))
           "chat-2" alice); reflexivity.
Defined.

Lemma DELETE_by_owner_witness :
  exists st',
    DELETE alice_world (Some "chat-1") alice_state
    = (Ok (PlainResponse "Chat deleted" 200), st') /\
    find (fun c => chat_id c =? "chat-1") (chats st') = None /\
    messages_of "chat-1" st' = [] /\
    (forall other, other <> "chat-1" ->
       chat_rows other st' = chat_rows other alice_state /\
       messages_of other st' = messages_of other alice_state) /\
    documents st' = documents alice_state /\
    suggestions st' = suggestions alice_state.
Proof.
  apply (DELETE_by_owner alice_world "chat-1" alice_state alice alice_chat); reflexivity.
Defined.

Lemma onFinish_contract_witness :
  exists st',
    onFinish alice_world alice "chat-1" plain_answer empty_state = (Ok tt, st') /\
    streamingData st' = [ OpAnnotation "uuid-1"; OpClose ] /\
    (calm empty_state ->
     messages st' = response_rows alice_world "chat-1" 0 plain_answer) /\
    (forall message rest,
       schedule empty_state = Fault message :: rest -> messages st' = messages empty_state).
Proof.
  apply (onFinish_contract alice_world alice "chat-1" plain_answer empty_state).
  reflexivity.
Defined.

Lemma updateDocument_contract_witness :
  exists st',
    updateDocument bob "doc-1" "shorter" plan_stream document_state
    = (Ok (JObject [ ("id", JString "doc-1");
                     ("title", JString "Plan");
                     ("content", JString "The document has been updated successfully.") ]),
       st') /\
    streamingData st'
    = [ OpAppend (EvClear "Plan"); OpAppend (EvTextDelta "# Plan");
        OpAppend (EvTextDelta " of the week"); OpAppend (EvFinish "") ] /\
    documents st'
    = documents document_state
      ++ [ {| doc_id := "doc-1"; doc_title := "Plan";
              doc_content := Some "# Plan of the week"; doc_user_id := "bob" |} ].
Proof.
  apply (proj2 (updateDocument_contract bob "doc-1" "shorter" plan_stream document_state
                  (Forall_nil _))
           {| doc_id := "doc-1"; doc_title := "Plan";
              doc_content := Some "a b c d e f"; doc_user_id := "alice" |});
    reflexivity.
Defined.

Lemma POST_plain_answer_witness :
  fst (POST alice_world (hello_request "gpt-4o") empty_state)
  = Ok (Some DataStreamResponse) /\
  messages (snd (POST alice_world (hello_request "gpt-4o") empty_state))
  = [ user_message_row "chat-1" "uuid-0" hello_message;
      user_message_row "chat-1" "uuid-1"
        (AssistantMessage (AssistantParts [ TextPart "Hello!" ])) ] /\
  streamingData (snd (POST alice_world (hello_request "gpt-4o") empty_state))
  = [ OpNew; OpAnnotation "uuid-1"; OpClose ] /\
  rounds (snd (POST alice_world (hello_request "gpt-4o") empty_state)) = 1.
Proof.
  apply (POST_plain_answer alice_world (hello_request "gpt-4o") empty_state
           alice gpt_4o hello_message "Hello!"); try reflexivity.
  intros chat Hf. discriminate Hf.
Defined.

(** * The retry helpers *)

Lemma backoff_closed (unit k : nat) :
  forall i, 2 * backoff unit i k = unit * (k * (2 * i + k + 1)).
Proof.
  induction k as [| k IH]; intros i; cbn [backoff]; [lia |].
  specialize (IH (S i)). nia.
Qed.

Lemma withRetry_loop_skip T (operation : nat -> Attempt T) (maxRetries : nat) :
  forall k i r lastError delay,
    i + k + r = maxRetries ->
    1 <= r ->
    (forall j, j < k ->
       exists error, operation (i + j) = Fails error /\ permission_denied error = false) ->
    exists lastError',
      withRetry_loop operation maxRetries (k + r) i lastError delay
      = withRetry_loop operation maxRetries r (i + k) lastError'
          (delay + backoff 1000 i k).
Proof.
  induction k as [| k IH]; intros i r lastError delay Hsum Hr Hfail.
  - exists lastError. cbn [backoff plus]. rewrite !Nat.add_0_r. reflexivity.
  - destruct (Hfail 0 (Nat.lt_0_succ k)) as (error & Hop & Hperm).
    rewrite Nat.add_0_r in Hop.
    cbn [plus withRetry_loop]. rewrite Hop, Hperm.
    assert (Hlt : (i <? maxRetries - 1)%nat = true) by (apply Nat.ltb_lt; lia).
    rewrite Hlt.
    destruct (IH (S i) r (Some error) (delay + 1000 * (i + 1))) as (lastError' & ->).
    + lia.
    + exact Hr.
    + intros j Hj. destruct (Hfail (S j)) as (e & He & Hp); [lia |].
      exists e. split; [| exact Hp]. rewrite <- He. f_equal. lia.
    + exists lastError'. cbn [backoff]. f_equal; lia.
Qed.

Lemma fails_first_from_0 T fatal (operation : nat -> Attempt T) (k : nat) :
  fails_first fatal operation k ->
  forall j, j < k -> exists error, operation (0 + j) = Fails error /\ fatal error = false.
Proof. intros H j Hj. apply H. exact Hj. Qed.

(** X13. The database [withRetry] returns the first success: when the
    first [k] calls fail with errors other than a denied permission and
    call [k], within the limit, succeeds, the promise resolves with that
    value after exactly [k+1] calls, having asked for delays of 1000, 2000,
    ..., [1000 k] milliseconds. *)
Theorem withRetry_first_success (T : Type) (operation : nat -> Attempt T)
  (maxRetries k : nat) (value : T) :
  fails_first permission_denied operation k ->
  operation k = Succeeds value ->
  k < maxRetries ->
  withRetry operation maxRetries
  = {| settled := Resolved value; calls := S k; waited := backoff 1000 0 k |}.
Proof.
  intros Hfail Hop Hk. unfold withRetry.
  replace maxRetries with (k + (maxRetries - k)) at 2 by lia.
  destruct (withRetry_loop_skip T operation maxRetries k 0 (maxRetries - k) None 0)
    as (lastError' & ->); [lia | lia | apply fails_first_from_0; exact Hfail |].
  destruct (maxRetries - k) as [| r] eqn:E; [lia |].
  cbn [withRetry_loop plus]. rewrite Hop. reflexivity.
Qed.

(** X14. The database [withRetry] does not retry a denied permission: when
    the first [k] calls fail with other errors and call [k], within the
    limit, fails with code 42501, the promise is rejected with that very
    error after exactly [k+1] calls; the operation is not called again. *)
Theorem withRetry_permission_denied (T : Type) (operation : nat -> Attempt T)
  (maxRetries k : nat) (error : JsError) :
  fails_first permission_denied operation k ->
  operation k = Fails error ->
  permission_denied error = true ->
  k < maxRetries ->
  withRetry operation maxRetries
  = {| settled := Rejected (Some error); calls := S k; waited := backoff 1000 0 k |}.
Proof.
  intros Hfail Hop Hperm Hk. unfold withRetry.
  replace maxRetries with (k + (maxRetries - k)) at 2 by lia.
  destruct (withRetry_loop_skip T operation maxRetries k 0 (maxRetries - k) None 0)
    as (lastError' & ->); [lia | lia | apply fails_first_from_0; exact Hfail |].
  destruct (maxRetries - k) as [| r] eqn:E; [lia |].
  cbn [withRetry_loop plus]. rewrite Hop, Hperm. reflexivity.
Qed.

(** X15. The database [withRetry] gives up after [maxRetries] calls: when
    all of them fail with errors other than a denied permission, the
    promise is rejected with the error of the last call, and no delay is
    asked for after that last failure. *)
Theorem withRetry_exhausted (T : Type) (operation : nat -> Attempt T)
  (n : nat) (error : JsError) :
  fails_first permission_denied operation (S n) ->
  operation n = Fails error ->
  withRetry operation (S n)
  = {| settled := Rejected (Some error); calls := S n; waited := backoff 1000 0 n |}.
Proof.
  intros Hfail Hop. unfold withRetry.
  replace (S n) with (n + 1) at 2 by lia.
  destruct (withRetry_loop_skip T operation (S n) n 0 1 None 0)
    as (lastError' & ->); [lia | lia | |].
  { intros j Hj. apply Hfail. lia. }
  destruct (Hfail n (Nat.lt_succ_diag_r n)) as (e & He & Hperm).
  rewrite Hop in He. injection He as <-.
  cbn [withRetry_loop plus]. rewrite Hop, Hperm.
  assert (Hlt : (n <? S n - 1)%nat = false) by (apply Nat.ltb_ge; lia).
  rewrite Hlt. reflexivity.
Qed.

Lemma withRetry_loop_calls T (operation : nat -> Attempt T) (maxRetries : nat) :
  forall remaining i lastError delay,
    calls (withRetry_loop operation maxRetries remaining i lastError delay)
    <= i + remaining.
Proof.
  induction remaining as [| remaining IH]; intros i lastError delay;
    cbn [withRetry_loop].
  - simpl. lia.
  - destruct (operation i) as [value | error]; [simpl; lia |].
    destruct (permission_denied error); [simpl; lia |].
    match goal with
    | |- calls (withRetry_loop _ _ _ _ ?l ?d) <= _ => specialize (IH (S i) l d)
    end.
    lia.
Qed.

Lemma withRetry_loop_error T (operation : nat -> Attempt T) (maxRetries : nat) :
  forall remaining i error delay,
    settled (withRetry_loop operation maxRetries remaining i (Some error) delay)
    <> Rejected None.
Proof.
  induction remaining as [| remaining IH]; intros i error delay;
    cbn [withRetry_loop].
  - simpl. discriminate.
  - destruct (operation i) as [value | e]; [simpl; discriminate |].
    destruct (permission_denied e); [simpl; discriminate |].
    apply IH.
Qed.

(** X16. The database [withRetry] calls the operation at most
    [maxRetries] times, whatever the operation does; and the promise is
    rejected with [undefined] exactly when [maxRetries] is 0, in which case
    the operation is never called. *)
Theorem withRetry_bounded (T : Type) (operation : nat -> Attempt T) (maxRetries : nat) :
  calls (withRetry operation maxRetries) <= maxRetries /\
  (settled (withRetry operation maxRetries) = Rejected None <-> maxRetries = 0) /\
  (maxRetries = 0 -> calls (withRetry operation maxRetries) = 0).
Proof.
  unfold withRetry. split; [| split].
  - apply (withRetry_loop_calls T operation maxRetries maxRetries 0 None 0).
  - split.
    + destruct maxRetries as [| n]; [reflexivity |].
      cbn [withRetry_loop]. destruct (operation 0) as [value | error];
        [simpl; discriminate |].
      destruct (permission_denied error); [simpl; discriminate |].
      intros H. exfalso. revert H. apply withRetry_loop_error.
    + intros ->. reflexivity.
  - intros ->. reflexivity.
Qed.

Lemma withRetry_ai_loop_agrees T (operation : nat -> Attempt T) (maxRetries : nat) :
  (forall j error, operation j = Fails error ->
                   not_retryable error = permission_denied error) ->
  forall remaining i lastError delay,
    i + remaining = maxRetries ->
    withRetry_ai_loop operation maxRetries 1000 remaining i lastError delay
    = withRetry_loop operation maxRetries remaining i lastError delay.
Proof.
  intros Hsame. induction remaining as [| remaining IH];
    intros i lastError delay Hsum; cbn [withRetry_ai_loop withRetry_loop];
    [reflexivity |].
  destruct (operation i) as [value | error] eqn:Hop; [reflexivity |].
  rewrite (Hsame i error Hop).
  destruct (permission_denied error); [reflexivity |].
  destruct (i =? maxRetries - 1)%nat eqn:Hlast.
  - apply Nat.eqb_eq in Hlast.
    assert (remaining = 0) by lia. subst remaining.
    assert (Hlt : (i <? maxRetries - 1)%nat = false) by (apply Nat.ltb_ge; lia).
    rewrite Hlt. reflexivity.
  - apply Nat.eqb_neq in Hlast.
    assert (Hlt : (i <? maxRetries - 1)%nat = true) by (apply Nat.ltb_lt; lia).
    rewrite Hlt. apply IH. lia.
Qed.

(** X17. The two retry helpers are the same loop: for an operation whose
    errors are not retryable for the AI helper exactly when they are a
    denied permission for the database helper, the AI [withRetry] with a
    delay of 1000 settles as the database [withRetry] does, after the same
    number of calls and the same delays; its [break] in the last round
    changes nothing. *)
Theorem withRetry_ai_agrees (T : Type) (operation : nat -> Attempt T) (maxRetries : nat) :
  (forall j error, operation j = Fails error ->
                   not_retryable error = permission_denied error) ->
  withRetry_ai operation maxRetries 1000 = withRetry operation maxRetries.
Proof.
  intros Hsame. unfold withRetry_ai, withRetry.
  apply withRetry_ai_loop_agrees; [exact Hsame | reflexivity].
Qed.

Lemma flaky_fails_first :
  fails_first permission_denied flaky 2.
Proof.
  intros j Hj. destruct j as [| [| j]]; [| | lia]; eexists; split; reflexivity.
Qed.

Lemma forbidden_fails_first :
  fails_first permission_denied forbidden 1.
Proof.
  intros j Hj. destruct j as [| j]; [| lia]. eexists; split; reflexivity.
Qed.

Lemma withRetry_first_success_witness :
  withRetry flaky 3 = {| settled := Resolved "row"; calls := 3; waited := 3000 |}.
Proof.
  apply (withRetry_first_success string flaky 3 2 "row").
  - exact flaky_fails_first.
  - reflexivity.
  - lia.
Defined.

Lemma withRetry_permission_denied_witness :
  withRetry forbidden 3
  = {| settled := Rejected (Some denied); calls := 2; waited := 1000 |}.
Proof.
  apply (withRetry_permission_denied string forbidden 3 1 denied).
  - exact forbidden_fails_first.
  - reflexivity.
  - reflexivity.
  - lia.
Defined.

Lemma withRetry_exhausted_witness :
  withRetry flaky 2
  = {| settled := Rejected (Some {| err_message := "timeout"; err_code := Some "57014";
                                    err_is_AIError := false; err_retryable := false |});
       calls := 2; waited := 1000 |}.
Proof.
  apply (withRetry_exhausted string flaky 1).
  - exact flaky_fails_first.
  - reflexivity.
Defined.

Lemma withRetry_ai_agrees_witness :
  withRetry_ai forbidden 3 1000 = withRetry forbidden 3.
Proof.
  apply (withRetry_ai_agrees string forbidden 3).
  intros j error. unfold forbidden.
  destruct (j <? 1)%nat; intros [= <-]; reflexivity.
Defined.
